(** * cliopatra: program invocation model

    A shallow embedding of [pkg/program.go] (Parameter, Program, Clone, the
    setters, AddRawFlag, ComputeArgs, RunIntoWriter, LoadProgramsFromFS,
    LoadRepositories) and, of [cmd/cliopatra/cmds/render.go], of the watch
    handler and of the loop over the files of the command line.

    Go values are embedded as follows: [string] is [string], [[]string] is
    [list string], [map[string]T] is [gmap string T], a Go function returning
    [(T, error)] returns [result T], and a function returning only [error]
    returns [option error] ([None] is [nil]). *)

From Stdlib Require Import ZArith String Ascii.
From stdpp Require Import gmap strings list fin_maps pretty.

Local Open Scope string_scope.
Local Open Scope list_scope.
Local Open Scope stdpp_scope.

(** ** Errors *)

(** [errors.Wrapf], [fmt.Errorf], [*exec.ExitError] and the error values that
    come out of libraries the repository calls. *)
Inductive error : Type :=
| Foreign (msg : string)
| ExitError (status : Z)
| Errorf (msg : string)
| Wrap (cause : error) (msg : string).

Inductive result (A : Type) : Type :=
| Ok (a : A)
| Err (e : error).
Arguments Ok {A} a.
Arguments Err {A} e.

Definition bind {A B} (r : result A) (k : A → result B) : result B :=
  match r with
  | Ok a => k a
  | Err e => Err e
  end.

Notation "x <- r ;; k" := (bind r (fun x => k))
  (at level 100, r at next level, right associativity).

(** [if err != nil { return nil, errors.Wrapf(err, msg) }] *)
Definition Wrapf {A} (r : result A) (msg : string) : result A :=
  match r with
  | Ok a => Ok a
  | Err e => Err (Wrap e msg)
  end.

(** [for _, x := range xs { body }] where the body updates [s] or returns an
    error. *)
Fixpoint rangeM {A S} (body : S → A → result S) (s : S) (xs : list A) : result S :=
  match xs with
  | [] => Ok s
  | x :: xs => s' <- body s x ;; rangeM body s' xs
  end.

(** Collect the results of [f] on every element, left to right, stopping at
    the first error. *)
Fixpoint traverse {A B} (f : A → result B) (xs : list A) : result (list B) :=
  match xs with
  | [] => Ok []
  | x :: xs => y <- f x ;; ys <- traverse f xs ;; Ok (y :: ys)
  end.

(** ** Data model *)

(** [parameters.ParameterType] is a string type of the glazed library. *)
Definition ParameterType := string.

(** The structs [Parameter] and [Program].  Both names are reserved words of
    the vernacular, so the records are [Param.t] and [Prog.t]; the fields
    keep their names, [Type] apart. *)

Module Param.
Record t {V : Type} := mk {
  Name : string;
  Flag : string;
  Short : string;
  Type_ : ParameterType;
  Value : V;
  Raw : string;
  NoValue : bool
}.
Arguments t : clear implicits.
Arguments mk {V}.
End Param.

(** The struct is declared once; [strs] stands for [[]string], [params] for
  [[]*Parameter] and [dict] for [map[string]string].  They are lists and
  finite maps when a program is looked at as a value, and references into
  the store when it is looked at in memory. *)
Module Prog.
Record t {strs params dict : Type} := mk {
  Name : string;
  Path : string;
  Verbs : strs;
  Description : string;
  Env : dict;
  RawFlags : strs;
  Flags : params;
  Args : params;
  Stdin : string;
  ExpectedStdout : string;
  ExpectedError : string;
  ExpectedStatusCode : Z;
  ExpectedFiles : dict
}.
Arguments t : clear implicits.
Arguments mk {strs params dict}.
End Prog.

Abbreviation ParameterOf V := (Param.t V).
Abbreviation ProgramOf V :=
(Prog.t (list string) (list (Param.t V)) (gmap string string)).

(** ** Argument compiler *)

Section ComputeArgs.
Context {V : Type}.

(** [parameters.RenderValue] of the glazed library. *)
Variable RenderValue : ParameterType → V → result string.

(** Body of [for _, flag := range p.Flags]. *)
Definition flagsBody (ps : gmap string V) (args : list string)
    (flag : ParameterOf V) : result (list string) :=
  let flag_ := Param.Flag flag in
  let flag_ := if decide (flag_ = "") then "--" +:+ Param.Name flag else flag_ in
  if Param.NoValue flag then Ok (args ++ [flag_])
  else
    value_ <- match ps !! Param.Name flag with
              | None => Ok (Param.Raw flag)
              | Some value =>
                  Wrapf (RenderValue (Param.Type_ flag) value)
                        ("could not render flag " +:+ Param.Name flag)
              end ;;
    value_ <- (if decide (value_ = "")
               then Wrapf (RenderValue (Param.Type_ flag) (Param.Value flag))
                          ("could not render flag " +:+ Param.Name flag)
               else Ok value_) ;;
    let args := args ++ [flag_] in
    let args := args ++ [value_] in
    Ok args.

(** Body of [for _, arg := range p.Args]. *)
Definition argsBody (ps : gmap string V) (args : list string)
    (arg : ParameterOf V) : result (list string) :=
  value_ <- match ps !! Param.Name arg with
            | None => Ok (Param.Raw arg)
            | Some value =>
                Wrapf (RenderValue (Param.Type_ arg) value)
                      ("could not render arg " +:+ Param.Name arg)
            end ;;
  value_ <- (if decide (value_ = "")
             then Wrapf (RenderValue (Param.Type_ arg) (Param.Value arg))
                        ("could not render arg " +:+ Param.Name arg)
             else Ok value_) ;;
  Ok (args ++ [value_]).

Definition ComputeArgs (p : ProgramOf V) (ps : gmap string V) : result (list string) :=
  let args := [] in
  let args := args ++ Prog.Verbs p in
  let args := args ++ Prog.RawFlags p in
  args <- rangeM (flagsBody ps) args (Prog.Flags p) ;;
  args <- rangeM (argsBody ps) args (Prog.Args p) ;;
  Ok args.

End ComputeArgs.

(** ** Strings and paths (Go's [strings] and [path/filepath]) *)

(** [strings.HasPrefix(s, prefix)] *)
Definition HasPrefix (s prefix : string) : bool := String.prefix prefix s.

(** [strings.HasSuffix(s, suffix)]:
    [len(s) >= len(suffix) && s[len(s)-len(suffix):] == suffix] *)
Definition HasSuffix (s suffix : string) : bool :=
  bool_decide (String.length suffix ≤ String.length s)%nat
  && String.eqb
       (String.substring (String.length s - String.length suffix)%nat
                         (String.length suffix) s)
       suffix.

(** [strings.TrimPrefix(s, prefix)] *)
Definition TrimPrefix (s prefix : string) : string :=
  if HasPrefix s prefix
  then String.substring (String.length prefix)
                        (String.length s - String.length prefix)%nat s
  else s.

(** [strings.Split(s, "/")] *)
Fixpoint splitSlash (s : string) : list string :=
  match s with
  | EmptyString => [""]
  | String c rest =>
      if decide (c = "/"%char) then "" :: splitSlash rest
      else match splitSlash rest with
           | [] => [String c ""]
           | x :: xs => String c x :: xs
           end
  end.

(** [strings.Join(elems, sep)] *)
Fixpoint joinWith (sep : string) (elems : list string) : string :=
  match elems with
  | [] => ""
  | [x] => x
  | x :: rest => x +:+ sep +:+ joinWith sep rest
  end.

(** The path elements [filepath.Clean] keeps, in reverse order: empty and
    ["."] elements are dropped, an inner [".."] removes the element before
    it, a [".."] at the start of a rooted path is dropped. *)
Fixpoint cleanElems (rooted : bool) (kept : list string) (elems : list string)
    : list string :=
  match elems with
  | [] => kept
  | e :: rest =>
      if decide (e = "") then cleanElems rooted kept rest
      else if decide (e = ".") then cleanElems rooted kept rest
      else if decide (e = "..") then
        match kept with
        | [] => cleanElems rooted (if rooted then [] else [".."]) rest
        | k :: kept' =>
            if decide (k = "..") then cleanElems rooted (".." :: kept) rest
            else cleanElems rooted kept' rest
        end
      else cleanElems rooted (e :: kept) rest
  end.

(** [filepath.Clean] with ["/"] as the separator. *)
Definition Clean (path : string) : string :=
  let rooted := HasPrefix path "/" in
  let body := joinWith "/" (reverse (cleanElems rooted [] (splitSlash path))) in
  let out := if rooted then "/" +:+ body else body in
  if decide (out = "") then "." else out.

(** [filepath.Join]: empty elements are ignored, the result is cleaned, and
    it is empty when every element is. *)
Definition Join (elems : list string) : string :=
  match filter (λ e, e ≠ "") elems with
  | [] => ""
  | nonEmpty => Clean (joinWith "/" nonEmpty)
  end.

(** ** Dynamic values *)

(** The dynamic values an [interface{}] field holds, seen as values. *)
Inductive GoValue : Type :=
| VNil
| VBool (b : bool)
| VInt (z : Z)
| VString (s : string)
| VStrings (xs : list string)
| VDict (m : gmap string string).

(** A formatter in the style of [parameters.RenderValue], used to run the
    argument compiler on concrete programs.  The glazed formatter itself is
    outside the repository: every general statement below is about an
    arbitrary [RenderValue]. *)
Definition renderPlain (ty : ParameterType) (v : GoValue) : result string :=
  match v with
  | VString s => Ok s
  | VInt z => Ok (pretty z)
  | VBool b => Ok (if b then "true" else "false")
  | VStrings xs => Ok (joinWith "," xs)
  | VNil | VDict _ => Err (Foreign ("cannot render as " +:+ ty))
  end.

(** ** Process executor *)

Module Exec.

(** The fields of [exec.Cmd] that [RunIntoWriter] sets.  Stdout and Stderr
    are both the caller's writer. *)
Record Cmd := mkCmd {
  Path : string;
  Args : list string;
  Env : list string;
  Stdin : option string
}.

(** What happens to a child process. *)
Inductive Outcome : Type :=
| StartFailed (e : error)
| Exited (status : Z) (output : string)
| CopyFailed (e : error) (output : string).

(** What one call of [RunIntoWriter] leaves behind: the returned error
    ([None] is [nil]), the content of the writer, and the command it ran,
    if it came to that. *)
Record Run := mkRun {
  returned : option error;
  written : string;
  started : option Cmd
}.

Section Executor.
Context {V Ctx Layer : Type}.
Variable RenderValue : ParameterType → V → result string.
(** [exec.LookPath] and [os.Environ]. *)
Variable LookPath : string → result string.
Variable Environ : list string.
(** The order in which [range] visits the entries of a map. *)
Variable rangeMap : gmap string string → list (string * string).
(** The operating system running a command under a context. *)
Variable child : Ctx → Cmd → Outcome.

(** [cmd.Run()] as the os/exec documentation states it: the returned error
    is nil if the command runs, has no problems copying stdin, stdout and
    stderr, and exits with a zero exit status; if the command starts but
    does not complete successfully the error is an [*exec.ExitError]. *)
Definition Cmd_Run (ctx : Ctx) (cmd : Cmd) (w : string) : string * option error :=
  match child ctx cmd with
  | StartFailed e => (w, Some e)
  | Exited status output =>
      (w +:+ output, if decide (status = 0%Z) then None else Some (ExitError status))
  | CopyFailed e output => (w +:+ output, Some e)
  end.

Definition RunIntoWriter (p : ProgramOf V) (ctx : Ctx)
    (parsedLayers : gmap string Layer) (ps : gmap string V) (w : string) : Run :=
  let path := Prog.Path p in
  match (if decide (path = "")
         then Wrapf (LookPath (Prog.Name p))
                    ("could not find executable " +:+ Prog.Name p)
         else Ok path) with
  | Err err => mkRun (Some err) w None
  | Ok path =>
      match ComputeArgs RenderValue p ps with
      | Err err2 => mkRun (Some err2) w None
      | Ok args =>
          let env := [] in
          let env := env ++ Environ in
          let env := foldl (λ env kv, env ++ [kv.1 +:+ "=" +:+ kv.2]) env
                           (rangeMap (Prog.Env p)) in
          let stdin := if decide (Prog.Stdin p = "") then None
                       else Some (Prog.Stdin p) in
          let cmd := mkCmd path args env stdin in
          match Cmd_Run ctx cmd w with
          | (w, Some err) =>
              mkRun (Some (Wrap err ("could not run " +:+ Prog.Name p))) w (Some cmd)
          | (w, None) => mkRun None w (Some cmd)
          end
      end
  end.

End Executor.
End Exec.

(** ** Repository loader *)

(** An [fs.FS] is the finite tree it presents.  A directory carries what
    [fs.ReadDir] returns for it, a file what [Open] returns for it: its
    content, or an error. *)
Inductive FS : Type :=
| Listing (entries : result (list DirEntry))
with DirEntry : Type :=
| File (name : string) (opened : result string)
| Dir (name : string) (sub : FS).

(** [entry.Name()] *)
Definition EntryName (entry : DirEntry) : string :=
  match entry with
  | File name _ => name
  | Dir name _ => name
  end.

(** [fs.ReadDir(f, dir)], [f] being the tree below [dir]. *)
Definition ReadDir (f : FS) : result (list DirEntry) :=
  match f with Listing entries => entries end.

Section Loader.
Context {V : Type}.
(** [yaml.NewDecoder(s).Decode(&program)] of the yaml library. *)
Variable yamlDecode : string → result (ProgramOf V).
(** [os.Stat] (the error it returns, if any) and [os.DirFS]. *)
Variable Stat : string → option error.
Variable DirFS : string → FS.

Definition NewProgramFromYAML (s : string) : result (ProgramOf V) :=
  program <- Wrapf (yamlDecode s) "could not decode program" ;;
  Ok program.

(** [f] is the tree below the directory [dir] of the file system. *)
Fixpoint LoadProgramsFromFS (f : FS) (dir : string) {struct f}
    : result (list (ProgramOf V)) :=
  match f with
  | Listing listing =>
      match listing with
      | Err err => Err (Wrap err ("could not read dir " +:+ dir))
      | Ok entries =>
          (fix range (entries : list DirEntry) (programs : list (ProgramOf V))
               {struct entries} : result (list (ProgramOf V)) :=
             match entries with
             | [] => Ok programs
             | entry :: entries =>
                 if HasPrefix (EntryName entry) "." then range entries programs
                 else
                   let fileName := Join [dir; EntryName entry] in
                   match entry with
                   | Dir _ sub =>
                       programs_ <- Wrapf (LoadProgramsFromFS sub fileName)
                                      ("could not load programs from dir " +:+ fileName) ;;
                       range entries (programs ++ programs_)
                   | File name opened =>
                       if HasSuffix name ".yaml" || HasSuffix name ".yml" then
                         file <- Wrapf opened ("could not open file " +:+ fileName) ;;
                         program <- Wrapf (NewProgramFromYAML file)
                                      ("could not load program from file " +:+ fileName) ;;
                         range entries (programs ++ [program])
                       else range entries programs
                   end
             end) entries []
      end
  end.

(** Body of [for _, program := range programs_]. *)
Definition registerBody (programs : gmap string (ProgramOf V))
    (program : ProgramOf V) : result (gmap string (ProgramOf V)) :=
  match programs !! Prog.Name program with
  | Some _ => Err (Errorf ("program " +:+ Prog.Name program +:+ " already exists"))
  | None => Ok (<[Prog.Name program := program]> programs)
  end.

(** Body of [for _, repository := range repositories]. *)
Definition repositoryBody (programs : gmap string (ProgramOf V))
    (repository : string) : result (gmap string (ProgramOf V)) :=
  match Stat repository with
  | Some err => Err (Wrap err ("could not stat repository " +:+ repository))
  | None =>
      programs_ <- Wrapf (LoadProgramsFromFS (DirFS repository) ".")
                     ("could not load programs from repository " +:+ repository) ;;
      rangeM registerBody programs programs_
  end.

Definition LoadRepositories (repositories : list string)
    : result (gmap string (ProgramOf V)) :=
  let programs := ∅ in
  rangeM repositoryBody programs repositories.

End Loader.

(** ** Watch handler *)

(** What a change handler does besides returning: it logs, and it may call
    the renderer. *)
Inductive Effect : Type :=
| LogInfo (fields : list (string * string)) (msg : string)
| RenderFile (source output : string).

(** [for _, file := range files_ { if strings.HasPrefix(path, file)
    { basePath = file; break } }] *)
Fixpoint findBase (path : string) (files_ : list string) (basePath : string) : string :=
  match files_ with
  | [] => basePath
  | file :: files_ =>
      if HasPrefix path file then file else findBase path files_ basePath
  end.

(** The function given to [watcher.NewWatcher]. *)
Definition watchHandler (files_ : list string) (outputDirectory : string)
    (path : string) : list Effect * option error :=
  let log1 := LogInfo [("path", path)] "File changed" in
  let basePath := path in
  let basePath := findBase path files_ basePath in
  let outputPath := Join [outputDirectory; TrimPrefix path basePath] in
  let log2 := LogInfo [("path", path); ("basePath", basePath);
                       ("outputPath", outputPath)] "File changed" in
  ([log1; log2], None).

(** ** Programs in memory *)

Module Store.

Definition loc := positive.

(** A pointer, a slice or a map variable: [None] is [nil], [Some l] is the
    address of the struct, of the backing array or of the map it refers to.
    A slice spans its whole backing array. *)
Definition ref := option loc.

(** What an [interface{}] field holds: a scalar, or a reference. *)
Inductive iface : Type :=
| INil
| IBool (b : bool)
| IInt (z : Z)
| IString (s : string)
| IStrings (r : ref)
| IDict (r : ref).

Inductive obj : Type :=
| OStrings (xs : list string)
| OPointers (ptrs : list ref)
| ODict (m : gmap string string)
| OParameter (x : Param.t iface)
| OProgram (x : Prog.t ref ref ref).

Abbreviation heap := (gmap loc obj).

(** *** Reading *)

Definition readStrings (r : ref) (h : heap) : option (list string) :=
  match r with
  | None => Some []
  | Some l => match h !! l with Some (OStrings xs) => Some xs | _ => None end
  end.

Definition readPointers (r : ref) (h : heap) : option (list ref) :=
  match r with
  | None => Some []
  | Some l => match h !! l with Some (OPointers ptrs) => Some ptrs | _ => None end
  end.

Definition readDict (r : ref) (h : heap) : option (gmap string string) :=
  match r with
  | None => Some ∅
  | Some l => match h !! l with Some (ODict m) => Some m | _ => None end
  end.

(** [*p] for a [*Parameter] and for a [*Program]; there is nothing to read
    behind [nil]. *)
Definition readParameter (r : ref) (h : heap) : option (Param.t iface) :=
  match r with
  | None => None
  | Some l => match h !! l with Some (OParameter x) => Some x | _ => None end
  end.

Definition readProgram (r : ref) (h : heap) : option (Prog.t ref ref ref) :=
  match r with
  | None => None
  | Some l => match h !! l with Some (OProgram x) => Some x | _ => None end
  end.

(** *** A program in memory as a value *)

Definition viewValue (v : iface) (h : heap) : option GoValue :=
  match v with
  | INil => Some VNil
  | IBool b => Some (VBool b)
  | IInt z => Some (VInt z)
  | IString s => Some (VString s)
  | IStrings r => VStrings <$> readStrings r h
  | IDict r => VDict <$> readDict r h
  end.

Definition viewParameter (h : heap) (r : ref) : option (ParameterOf GoValue) :=
  x ← readParameter r h;
  v ← viewValue (Param.Value x) h;
  Some (Param.mk (Param.Name x) (Param.Flag x) (Param.Short x) (Param.Type_ x)
                 v (Param.Raw x) (Param.NoValue x)).

Definition viewParameters (r : ref) (h : heap) : option (list (ParameterOf GoValue)) :=
  ptrs ← readPointers r h;
  mapM (viewParameter h) ptrs.

Definition snapshot (r : ref) (h : heap) : option (ProgramOf GoValue) :=
  x ← readProgram r h;
  verbs ← readStrings (Prog.Verbs x) h;
  env ← readDict (Prog.Env x) h;
  rawFlags ← readStrings (Prog.RawFlags x) h;
  flags ← viewParameters (Prog.Flags x) h;
  args ← viewParameters (Prog.Args x) h;
  expectedFiles ← readDict (Prog.ExpectedFiles x) h;
  Some (Prog.mk (Prog.Name x) (Prog.Path x) verbs (Prog.Description x) env
                rawFlags flags args (Prog.Stdin x) (Prog.ExpectedStdout x)
                (Prog.ExpectedError x) (Prog.ExpectedStatusCode x) expectedFiles).

(** *** Running *)

(** A computation on the store; [None] is a run-time panic. *)
Definition M (A : Type) : Type := heap → option (A * heap).

#[global] Instance M_ret : MRet M := λ A a h, Some (a, h).
#[global] Instance M_bind : MBind M := λ A B k c h,
  match c h with
  | Some (a, h') => k a h'
  | None => None
  end.

Definition get {A} (read : heap → option A) : M A :=
  λ h, a ← read h; Some (a, h).

Definition alloc (o : obj) : M loc :=
  λ h, let l := fresh (dom h) in Some (l, <[l:=o]> h).

Definition store (l : loc) (o : obj) : M unit :=
  λ h, Some (tt, <[l:=o]> h).

(** [make([]string, n)], [make([]*Parameter, n)], [make(map[string]string, n)] *)
Definition makeStrings (n : nat) : M ref :=
  l ← alloc (OStrings (replicate n "")); mret (Some l).
Definition makePointers (n : nat) : M ref :=
  l ← alloc (OPointers (replicate n None)); mret (Some l).
Definition makeDict : M ref :=
  l ← alloc (ODict ∅); mret (Some l).

(** [copy(dst, src)] copies [min(len(dst), len(src))] elements. *)
Definition copyStrings (dst src : ref) : M unit :=
  d ← get (readStrings dst);
  s ← get (readStrings src);
  let n := min (length d) (length s) in
  match dst with
  | None => mret tt
  | Some l => store l (OStrings (take n s ++ drop n d))
  end.

(** [s[i] = v]; out of range is a panic. *)
Definition setString (s : ref) (i : nat) (v : string) : M unit :=
  xs ← get (readStrings s);
  match s with
  | Some l => if decide (i < length xs) then store l (OStrings (<[i:=v]> xs))
              else λ _, None
  | None => λ _, None
  end.

Definition setPointer (s : ref) (i : nat) (v : ref) : M unit :=
  ptrs ← get (readPointers s);
  match s with
  | Some l => if decide (i < length ptrs) then store l (OPointers (<[i:=v]> ptrs))
              else λ _, None
  | None => λ _, None
  end.

(** [m[k] = v]; assigning into a nil map is a panic. *)
Definition setEntry (m : ref) (k v : string) : M unit :=
  d ← get (readDict m);
  match m with
  | Some l => store l (ODict (<[k:=v]> d))
  | None => λ _, None
  end.

(** [func (p *Parameter) Clone() *Parameter] *)
Definition Parameter_Clone (p : ref) : M ref :=
  x ← get (readParameter p);
  l ← alloc (OParameter
               (Param.mk (Param.Name x) (Param.Flag x) (Param.Short x)
                         (Param.Type_ x) (Param.Value x) (Param.Raw x)
                         (Param.NoValue x)));
  mret (Some l).

(** [for i, f := range ptrs { dst[i] = f.Clone() }], from index [i] on. *)
Fixpoint cloneInto (dst : ref) (i : nat) (ptrs : list ref) : M unit :=
  match ptrs with
  | [] => mret tt
  | f :: ptrs =>
      c ← Parameter_Clone f;
      _ ← setPointer dst i c;
      cloneInto dst (S i) ptrs
  end.

(** [for k, v := range src { dst[k] = v }], the entries in the order the
    loop visits them. *)
Fixpoint copyEntries (dst : ref) (entries : list (string * string)) : M unit :=
  match entries with
  | [] => mret tt
  | kv :: entries => _ ← setEntry dst kv.1 kv.2; copyEntries dst entries
  end.

(** [func (p *Program) Clone() *Program].  [clone] is the local copy of the
    struct; its address is taken when it is returned. *)
Definition Clone (p : ref) : M ref :=
  orig ← get (readProgram p);
  let clone := orig in
  (* clone.RawFlags = make([]string, len(p.RawFlags)); copy(...) *)
  rawFlags ← get (readStrings (Prog.RawFlags orig));
  cloneRawFlags ← makeStrings (length rawFlags);
  _ ← copyStrings cloneRawFlags (Prog.RawFlags orig);
  (* clone.Flags = make([]*Parameter, len(p.Flags)); for i, f := range p.Flags *)
  flags ← get (readPointers (Prog.Flags orig));
  cloneFlags ← makePointers (length flags);
  _ ← cloneInto cloneFlags 0 flags;
  (* clone.Args = make([]*Parameter, len(p.Args)); for i, a := range p.Args *)
  args ← get (readPointers (Prog.Args orig));
  cloneArgs ← makePointers (length args);
  _ ← cloneInto cloneArgs 0 args;
  (* clone.Env = make(map[string]string, len(p.Env)); for k, v := range p.Env *)
  env ← get (readDict (Prog.Env orig));
  cloneEnv ← makeDict;
  _ ← copyEntries cloneEnv (map_to_list env);
  (* clone.ExpectedFiles = make(...); for k, v := range p.ExpectedFiles *)
  expectedFiles ← get (readDict (Prog.ExpectedFiles orig));
  cloneExpectedFiles ← makeDict;
  _ ← copyEntries cloneExpectedFiles (map_to_list expectedFiles);
  let clone :=
    Prog.mk (Prog.Name clone) (Prog.Path clone) (Prog.Verbs clone)
            (Prog.Description clone) cloneEnv cloneRawFlags cloneFlags cloneArgs
            (Prog.Stdin clone) (Prog.ExpectedStdout clone)
            (Prog.ExpectedError clone) (Prog.ExpectedStatusCode clone)
            cloneExpectedFiles in
  l ← alloc (OProgram clone);
  mret (Some l).

(** [for _, f := range ptrs { if f.Name == name { f.<field> = ...; return nil } }];
    [update] is the assignment to the field.  The result is [true] when a
    parameter of that name was found. *)
Fixpoint assignByName (ptrs : list ref) (name : string)
    (update : Param.t iface → Param.t iface) : M bool :=
  match ptrs with
  | [] => mret false
  | f :: ptrs =>
      x ← get (readParameter f);
      if decide (Param.Name x = name) then
        match f with
        | Some l => _ ← store l (OParameter (update x)); mret true
        | None => λ _, None
        end
      else assignByName ptrs name update
  end.

Definition withValue (value : iface) (x : Param.t iface) : Param.t iface :=
  Param.mk (Param.Name x) (Param.Flag x) (Param.Short x) (Param.Type_ x)
           value (Param.Raw x) (Param.NoValue x).

Definition withRaw (raw : string) (x : Param.t iface) : Param.t iface :=
  Param.mk (Param.Name x) (Param.Flag x) (Param.Short x) (Param.Type_ x)
           (Param.Value x) raw (Param.NoValue x).

Definition SetFlagValue (p : ref) (name : string) (value : iface) : M (option error) :=
  x ← get (readProgram p);
  flags ← get (readPointers (Prog.Flags x));
  found ← assignByName flags name (withValue value);
  mret (if found : bool then None else Some (Errorf ("could not find flag " +:+ name))).

Definition SetFlagRaw (p : ref) (name : string) (raw : string) : M (option error) :=
  x ← get (readProgram p);
  flags ← get (readPointers (Prog.Flags x));
  found ← assignByName flags name (withRaw raw);
  mret (if found : bool then None else Some (Errorf ("could not find flag " +:+ name))).

Definition SetArgValue (p : ref) (name : string) (value : iface) : M (option error) :=
  x ← get (readProgram p);
  args ← get (readPointers (Prog.Args x));
  found ← assignByName args name (withValue value);
  mret (if found : bool then None else Some (Errorf ("could not find arg " +:+ name))).

Definition SetArgRaw (p : ref) (name : string) (raw : string) : M (option error) :=
  x ← get (readProgram p);
  args ← get (readPointers (Prog.Args x));
  found ← assignByName args name (withRaw raw);
  mret (if found : bool then None else Some (Errorf ("could not find arg " +:+ name))).

(** Writing through a slice: [p.Verbs[i] = v], [p.RawFlags[i] = v] and
    [p.Flags[i].Value.([]string)[j] = v]. *)
Definition setVerb (p : ref) (i : nat) (v : string) : M unit :=
  x ← get (readProgram p);
  setString (Prog.Verbs x) i v.

Definition setRawFlag (p : ref) (i : nat) (v : string) : M unit :=
  x ← get (readProgram p);
  setString (Prog.RawFlags x) i v.

Definition setFlagValueElem (p : ref) (i j : nat) (v : string) : M unit :=
  x ← get (readProgram p);
  f ← get (λ h, ptrs ← readPointers (Prog.Flags x) h; ptrs !! i);
  y ← get (readParameter f);
  match Param.Value y return M unit with
  | IStrings s => setString s j v
  | _ => λ _, None
  end.

(** *** The storage of a program *)

Definition refLocs (r : ref) : gset loc :=
  match r with
  | Some l => {[l]}
  | None => ∅
  end.

Definition pointees (r : ref) (h : heap) : gset loc :=
  match readPointers r h with
  | Some ptrs => ⋃ (refLocs <$> ptrs)
  | None => ∅
  end.

(** The storage that makes up a program apart from the backing array of
    [Verbs] and from what the [Value] of a parameter refers to: the struct,
    the backing arrays of [RawFlags], [Flags] and [Args], the Parameter
    structs, and the maps [Env] and [ExpectedFiles]. *)
Definition owned (r : ref) (h : heap) : gset loc :=
  match readProgram r h with
  | Some x =>
      refLocs r ∪ refLocs (Prog.RawFlags x)
      ∪ refLocs (Prog.Flags x) ∪ pointees (Prog.Flags x) h
      ∪ refLocs (Prog.Args x) ∪ pointees (Prog.Args x) h
      ∪ refLocs (Prog.Env x) ∪ refLocs (Prog.ExpectedFiles x)
  | None => ∅
  end.

(** What is read from that storage: the struct, the content of [RawFlags],
    the Parameter structs of [Flags] and of [Args], and the content of
    [Env] and of [ExpectedFiles]. *)
Record Parts := mkParts {
  partStruct : Prog.t ref ref ref;
  partRawFlags : list string;
  partFlags : list (Param.t iface);
  partArgs : list (Param.t iface);
  partEnv : gmap string string;
  partExpectedFiles : gmap string string
}.

Definition readParameters (r : ref) (h : heap) : option (list (Param.t iface)) :=
  ptrs ← readPointers r h;
  mapM (λ f, readParameter f h) ptrs.

Definition ownParts (r : ref) (h : heap) : option Parts :=
  x ← readProgram r h;
  rawFlags ← readStrings (Prog.RawFlags x) h;
  flags ← readParameters (Prog.Flags x) h;
  args ← readParameters (Prog.Args x) h;
  env ← readDict (Prog.Env x) h;
  expectedFiles ← readDict (Prog.ExpectedFiles x) h;
  Some (mkParts x rawFlags flags args env expectedFiles).

End Store.

(** * Notions of the statements *)

(** ** Argument compiler *)

Section ComputeArgsWords.
Context {V : Type}.
Variable RenderValue : ParameterType → V → result string.

(** The specification's words for the argument compiler.  The CLI token of
    a flag: [Flag] if set, else ["--" + Name]. *)
Definition flagToken (x : ParameterOf V) : string :=
  if decide (Param.Flag x = "") then "--" +:+ Param.Name x else Param.Flag x.

(** (a) the runtime entry keyed by [Name], rendered for [Type]; (b) else [Raw]. *)
Definition obtained (ps : gmap string V) (x : ParameterOf V) : result string :=
  match ps !! Param.Name x with
  | Some value => RenderValue (Param.Type_ x) value
  | None => Ok (Param.Raw x)
  end.

(** (c) if that is the empty string, the static [Value] rendered for [Type]. *)
Definition resolved (ps : gmap string V) (x : ParameterOf V) : result string :=
  s <- obtained ps x ;;
  if decide (s = "") then RenderValue (Param.Type_ x) (Param.Value x) else Ok s.

(** What a flag contributes: its token alone if [NoValue], else its token
    and the resolved value; a formatting error is wrapped with the name. *)
Definition flagSpec (ps : gmap string V) (f : ParameterOf V) : result (list string) :=
  if Param.NoValue f then Ok [flagToken f]
  else v <- Wrapf (resolved ps f) ("could not render flag " +:+ Param.Name f) ;;
       Ok [flagToken f; v].

(** What a positional argument contributes: the resolved value. *)
Definition argSpec (ps : gmap string V) (a : ParameterOf V) : result string :=
  Wrapf (resolved ps a) ("could not render arg " +:+ Param.Name a).

End ComputeArgsWords.

(** ** Process executor *)

Section ExecutorWords.
Import Exec.
Context {V : Type}.
Variable LookPath : string → result string.
Variable Environ : list string.
Variable rangeMap : gmap string string → list (string * string).

(** The specification's words for the executor.  The executable: [Path] if
    set, otherwise [Name] searched on the execution-time PATH. *)
Definition executable (p : ProgramOf V) : result string :=
  if decide (Prog.Path p = "")
  then Wrapf (LookPath (Prog.Name p)) ("could not find executable " +:+ Prog.Name p)
  else Ok (Prog.Path p).

(** The command: the compiled arguments, the inherited environment followed
    by every [Env] entry as [key=value], and [Stdin] if it is not empty. *)
Definition command (p : ProgramOf V) (path : string) (args : list string) : Cmd :=
  mkCmd path args
        (Environ ++ ((λ kv, kv.1 +:+ "=" +:+ kv.2) <$> rangeMap (Prog.Env p)))
        (if decide (Prog.Stdin p = "") then None else Some (Prog.Stdin p)).

End ExecutorWords.

(** ** Repository loader *)

(** The name of a hidden entry starts with a dot; a definition file has a
    YAML-family extension. *)
Definition hidden (name : string) : bool := HasPrefix name ".".
Definition isYaml (name : string) : bool :=
  HasSuffix name ".yaml" || HasSuffix name ".yml".

(** The specification's words: the files of the tree, at any depth, that
    are not hidden, lie in no hidden directory and have a YAML-family
    extension, in the order of the listings; each with what opening it
    returns. *)
Fixpoint definitionFiles (f : FS) : list (result string) :=
  match f with
  | Listing (Ok entries) =>
      (fix each (entries : list DirEntry) : list (result string) :=
         match entries with
         | [] => []
         | entry :: entries => entryFiles entry ++ each entries
         end) entries
  | Listing (Err _) => []
  end
with entryFiles (entry : DirEntry) : list (result string) :=
  match entry with
  | File name opened => if negb (hidden name) && isYaml name then [opened] else []
  | Dir name sub => if hidden name then [] else definitionFiles sub
  end.

(** Every directory the walk enters can be listed. *)
Fixpoint readable (f : FS) : bool :=
  match f with
  | Listing (Ok entries) =>
      (fix each (entries : list DirEntry) : bool :=
         match entries with
         | [] => true
         | entry :: entries => entryReadable entry && each entries
         end) entries
  | Listing (Err _) => false
  end
with entryReadable (entry : DirEntry) : bool :=
  match entry with
  | File _ _ => true
  | Dir name sub => hidden name || readable sub
  end.

Section LoaderWords.
Context {V : Type}.
Variable yamlDecode : string → result (ProgramOf V).
Variable Stat : string → option error.
Variable DirFS : string → FS.

(** One round of [for _, entry := range entries] of [LoadProgramsFromFS],
    as a function of its own. *)
Definition entryBody (dir : string) (programs : list (ProgramOf V))
    (entry : DirEntry) : result (list (ProgramOf V)) :=
  if HasPrefix (EntryName entry) "." then Ok programs
  else
    let fileName := Join [dir; EntryName entry] in
    match entry with
    | Dir _ sub =>
        programs_ <- Wrapf (LoadProgramsFromFS yamlDecode sub fileName)
                       ("could not load programs from dir " +:+ fileName) ;;
        Ok (programs ++ programs_)
    | File name opened =>
        if HasSuffix name ".yaml" || HasSuffix name ".yml" then
          file <- Wrapf opened ("could not open file " +:+ fileName) ;;
          program <- Wrapf (NewProgramFromYAML yamlDecode file)
                       ("could not load program from file " +:+ fileName) ;;
          Ok (programs ++ [program])
        else Ok programs
    end.

(** A definition file yields a program when it opens and decodes. *)
Definition decodes (opened : result string) (program : ProgramOf V) : Prop :=
  ∃ content, opened = Ok content ∧ yamlDecode content = Ok program.

(** What one repository root contributes: it must exist, and its tree must
    load. *)
Definition loaded (repository : string) : result (list (ProgramOf V)) :=
  match Stat repository with
  | Some err => Err (Wrap err ("could not stat repository " +:+ repository))
  | None =>
      Wrapf (LoadProgramsFromFS yamlDecode (DirFS repository) ".")
            ("could not load programs from repository " +:+ repository)
  end.

(** The collision error of [LoadRepositories]. *)
Definition collision (name : string) : error :=
  Errorf ("program " +:+ name +:+ " already exists").

(** [x] stands at two places of [l]. *)
Definition twice {A} (x : A) (l : list A) : Prop :=
  ∃ l1 l2 l3, l = l1 ++ x :: l2 ++ x :: l3.

End LoaderWords.

(** ** Cloning *)

(** The value of a Parameter struct: its fields, with what [Value] refers
    to read from the store. *)
Definition valueOf (h : Store.heap) (x : Param.t Store.iface)
    (v : ParameterOf GoValue) : Prop :=
  ∃ w, Store.viewValue (Param.Value x) h = Some w
       ∧ v = Param.mk (Param.Name x) (Param.Flag x) (Param.Short x)
                      (Param.Type_ x) w (Param.Raw x) (Param.NoValue x).

(** * Sample programs, trees and stores *)

(** A program [echo] with [Path = "/bin/echo"] and one positional parameter
    [msg] of string type with [Value = "hi"]. *)
Definition echoProgram : ProgramOf GoValue :=
  Prog.mk "echo" "/bin/echo" [] "" ∅ []
          []
          [Param.mk "msg" "" "" "string" (VString "hi") "" false]
          "" "" "" 0%Z ∅.

(** A program with a verb, a raw flag, a flag [count] ([Flag = "-n"], type
    integer, [Value = 1]), a presence-only flag and a positional parameter. *)
Definition countProgram : ProgramOf GoValue :=
  Prog.mk "seq" "" ["run"] "" ∅ ["-r"]
          [Param.mk "count" "-n" "" "int" (VInt 1) "" false;
           Param.mk "verbose" "" "" "bool" (VBool true) "" true]
          [Param.mk "file" "" "" "string" (VString "in.txt") "" false]
          "" "" "" 0%Z ∅.

(** A formatter that differs from [renderPlain] on [nil] only. *)
Definition renderLenient (ty : ParameterType) (v : GoValue) : result string :=
  match v with
  | VNil => Ok ""
  | _ => renderPlain ty v
  end.

(** A program whose child exits with status 1. *)
Definition falseProgram : ProgramOf GoValue :=
  Prog.mk "false" "/bin/false" [] "" ∅ [] [] [] "" "" "" 0%Z ∅.

Definition noLookPath (name : string) : result string :=
  Err (Foreign "executable file not found in $PATH").

(** An operating system on which [/bin/false] prints nothing and exits with
    status 1, and every other command prints nothing and exits with status 0. *)
Definition sampleChild (ctx : unit) (cmd : Exec.Cmd) : Exec.Outcome :=
  if decide (Exec.Path cmd = "/bin/false") then Exec.Exited 1 ""
  else Exec.Exited 0 "".

(** A decoder for trees whose definition files hold just a program name;
    an empty file does not decode. *)
Definition nameDecode (s : string) : result (ProgramOf GoValue) :=
  if decide (s = "") then Err (Foreign "EOF")
  else Ok (Prog.mk s "" [] "" ∅ [] [] [] "" "" "" 0%Z ∅).

Definition denied {A} : result A := Err (Foreign "permission denied").

Definition sampleTree : FS :=
  Listing (Ok [
    File "ls.yaml" (Ok "ls");
    File "README.md" denied;
    Dir ".git" (Listing denied);
    Dir "net" (Listing (Ok [
      File "curl.yml" (Ok "curl");
      File ".draft.yaml" (Ok "");
      File "notes.yaml.bak" (Ok "");
      Dir "deep.yaml" (Listing (Ok [File "dig.yaml" (Ok "dig")]))]))]).

Definition otherTree : FS :=
  Listing (Ok [Dir "bin" (Listing (Ok [File "list.yml" (Ok "ls")]))]).

Definition sampleDirFS (repository : string) : FS :=
  if decide (repository = "a") then sampleTree
  else if decide (repository = "b") then otherTree
  else Listing (Err (Foreign "no such file or directory")).

Definition sampleStat (repository : string) : option error :=
  if decide (repository = "a") then None
  else if decide (repository = "b") then None
  else Some (Foreign "no such file or directory").

Definition sampleHeap : Store.heap :=
  {[ 1%positive := Store.OProgram
       (Prog.mk "ls" "/bin/ls" (Some 2%positive) "" (Some 6%positive)
                (Some 3%positive) (Some 4%positive) None "" "" "" 0%Z None);
     2%positive := Store.OStrings ["run"];
     3%positive := Store.OStrings ["-l"];
     4%positive := Store.OPointers [Some 5%positive];
     5%positive := Store.OParameter
       (Param.mk "tags" "" "" "stringList" (Store.IStrings (Some 7%positive)) "" false);
     6%positive := Store.ODict {[ "HOME" := "/root" ]};
     7%positive := Store.OStrings ["a"; "b"] ]}.

Definition sampleRef : Store.ref := Some 1%positive.

Definition sampleSnapshot : ProgramOf GoValue :=
  Prog.mk "ls" "/bin/ls" ["run"] "" {[ "HOME" := "/root" ]} ["-l"]
          [Param.mk "tags" "" "" "stringList" (VStrings ["a"; "b"]) "" false]
          [] "" "" "" 0%Z ∅.

(** The original, read after it was cloned and [mutate] was applied to the
    clone. *)
Definition originalAfter (mutate : Store.ref → Store.M unit)
    : option (ProgramOf GoValue) :=
  match Store.Clone sampleRef sampleHeap with
  | Some (c, h') =>
      match mutate c h' with
      | Some (_, h'') => Store.snapshot sampleRef h''
      | None => None
      end
  | None => None
  end.

Definition verbsOf (o : option (ProgramOf GoValue)) : option (list string) :=
  match o with
  | Some P => Some (Prog.Verbs P)
  | None => None
  end.

Definition flagValuesOf (o : option (ProgramOf GoValue)) : option (list GoValue) :=
  match o with
  | Some P => Some (map Param.Value (Prog.Flags P))
  | None => None
  end.

(** * More of the program *)

(** ** Raw flags *)

(** [func (p *Program) AddRawFlag(raw ...string)], on the program as a
    value: [p.RawFlags = append(p.RawFlags, raw...)]. *)
Definition AddRawFlag {V} (p : ProgramOf V) (raw : list string) : ProgramOf V :=
  Prog.mk (Prog.Name p) (Prog.Path p) (Prog.Verbs p) (Prog.Description p)
          (Prog.Env p) (Prog.RawFlags p ++ raw) (Prog.Flags p) (Prog.Args p)
          (Prog.Stdin p) (Prog.ExpectedStdout p) (Prog.ExpectedError p)
          (Prog.ExpectedStatusCode p) (Prog.ExpectedFiles p).

(** ** What the argument compiler reads *)

(** Two flags the argument compiler cannot tell apart: the same [Name],
    [Flag] and [NoValue], and, unless [NoValue], the same [Type], [Value]
    and [Raw]. *)
Definition sameFlag {V} (f f' : ParameterOf V) : Prop :=
  Param.Name f = Param.Name f'
  ∧ Param.Flag f = Param.Flag f'
  ∧ Param.NoValue f = Param.NoValue f'
  ∧ (Param.NoValue f = false →
     Param.Type_ f = Param.Type_ f'
     ∧ Param.Value f = Param.Value f'
     ∧ Param.Raw f = Param.Raw f').

(** Two positional args it cannot tell apart: the same [Name], [Type],
    [Value] and [Raw]. *)
Definition sameArg {V} (a a' : ParameterOf V) : Prop :=
  Param.Name a = Param.Name a'
  ∧ Param.Type_ a = Param.Type_ a'
  ∧ Param.Value a = Param.Value a'
  ∧ Param.Raw a = Param.Raw a'.

(** A parameter with another [Raw]. *)
Definition rawTo {V} (raw : string) (x : ParameterOf V) : ParameterOf V :=
  Param.mk (Param.Name x) (Param.Flag x) (Param.Short x) (Param.Type_ x)
           (Param.Value x) raw (Param.NoValue x).

(** ** What the walk looks at *)

(** A tree without the entries the walk skips: hidden entries are gone, and
    so are the files without a YAML-family extension. *)
Fixpoint prune (f : FS) : FS :=
  match f with
  | Listing (Ok entries) =>
      Listing (Ok ((fix each (entries : list DirEntry) : list DirEntry :=
                      match entries with
                      | [] => []
                      | entry :: entries => pruneEntry entry ++ each entries
                      end) entries))
  | Listing (Err e) => Listing (Err e)
  end
with pruneEntry (entry : DirEntry) : list DirEntry :=
  match entry with
  | File name opened =>
      if negb (hidden name) && isYaml name then [File name opened] else []
  | Dir name sub => if hidden name then [] else [Dir name (prune sub)]
  end.

(** ** The setters on a program as a value *)

(** [for _, f := range params { if f.Name == name { <assignment>; return nil } }]
    on a list of parameters as values: the first parameter of that name is
    updated; [None] when there is none. *)
Fixpoint assignFirst {V} (name : string) (update : ParameterOf V → ParameterOf V)
    (params : list (ParameterOf V)) : option (list (ParameterOf V)) :=
  match params with
  | [] => None
  | x :: params =>
      if decide (Param.Name x = name) then Some (update x :: params)
      else params' ← assignFirst name update params; Some (x :: params')
  end.

(** A parameter with another [Value]. *)
Definition valueTo {V} (value : V) (x : ParameterOf V) : ParameterOf V :=
  Param.mk (Param.Name x) (Param.Flag x) (Param.Short x) (Param.Type_ x)
           value (Param.Raw x) (Param.NoValue x).

(** A program with other [Flags], and with other [Args]. *)
Definition flagsTo {V} (flags : list (ParameterOf V)) (p : ProgramOf V) : ProgramOf V :=
  Prog.mk (Prog.Name p) (Prog.Path p) (Prog.Verbs p) (Prog.Description p)
          (Prog.Env p) (Prog.RawFlags p) flags (Prog.Args p)
          (Prog.Stdin p) (Prog.ExpectedStdout p) (Prog.ExpectedError p)
          (Prog.ExpectedStatusCode p) (Prog.ExpectedFiles p).

Definition argsTo {V} (args : list (ParameterOf V)) (p : ProgramOf V) : ProgramOf V :=
  Prog.mk (Prog.Name p) (Prog.Path p) (Prog.Verbs p) (Prog.Description p)
          (Prog.Env p) (Prog.RawFlags p) (Prog.Flags p) args
          (Prog.Stdin p) (Prog.ExpectedStdout p) (Prog.ExpectedError p)
          (Prog.ExpectedStatusCode p) (Prog.ExpectedFiles p).

(** The pointers in [Flags] and in [Args] of a program in memory. *)
Definition parameterPointers (p : Store.ref) (h : Store.heap) : option (list Store.ref) :=
  x ← Store.readProgram p h;
  flags ← Store.readPointers (Prog.Flags x) h;
  args ← Store.readPointers (Prog.Args x) h;
  Some (flags ++ args).

(** ** The render command on the files of the command line *)

(** [filepath.Base] with ["/"] as the separator: the empty path gives
    ["."], trailing slashes are stripped, what follows the last slash is
    kept, and a path of slashes only gives ["/"]. *)
Fixpoint stripSlashes (s : string) : string :=
  match s with
  | EmptyString => ""
  | String c rest =>
      match stripSlashes rest with
      | EmptyString => if decide (c = "/"%char) then "" else String c ""
      | rest' => String c rest'
      end
  end.

Definition Base (path : string) : string :=
  if decide (path = "") then "."
  else
    let path := stripSlashes path in
    let path := default "" (last (splitSlash path)) in
    if decide (path = "") then "/" else path.

(** [errors.New(msg)]: an error made here that carries [msg]. *)
Definition New (msg : string) : error := Errorf msg.

Module Render.

(** [type renderCommandSettings struct]; a slice the code compares with
    [nil] is an [option]. *)
Record renderCommandSettings : Type := mkSettings {
  Repository : list string;
  OutputDirectory : string;
  OutputFile : string;
  Watch : bool;
  Glob : option (list string);
  WithGoTemplate : bool;
  WithYamlMarkers : bool;
  Delimiters : option (list string);
  AllowProgramCreation : bool;
  Quiet : bool
}.

(** [settings.OutputDirectory += "/"] *)
Definition appendSlash (settings : renderCommandSettings) : renderCommandSettings :=
  mkSettings (Repository settings) (OutputDirectory settings +:+ "/")
             (OutputFile settings) (Watch settings) (Glob settings)
             (WithGoTemplate settings) (WithYamlMarkers settings)
             (Delimiters settings) (AllowProgramCreation settings) (Quiet settings).

(** What the command does to the world, in the order it does it. *)
Inductive Action : Type :=
| AStat (file : string)
| AOpen (file : string)
| AClose (file : string)
| ARenderDirectory (directory outputDirectory : string)
| ARenderFile (file outputFile : string).

(** The command while it runs: the world, what was done so far, and the
    deferred [f.Close()] calls, the last deferred first. *)
Record Running {World : Type} := mkRunning {
  world : World;
  trace : list Action;
  deferred : list string
}.
Arguments Running : clear implicits.
Arguments mkRunning {World}.

Section Run.
Context {World : Type}.
(** [os.Stat(file)] followed by [fi.IsDir()], [os.Open(file)], and the two
    entry points of the renderer, which is outside the repository. *)
Variable Stat : World → string → result bool.
Variable Open : World → string → option error.
Variable RenderDirectory : World → string → string → World * option error.
Variable RenderFile : World → string → string → World * option error.

Definition did (st : Running World) (a : Action) : Running World :=
  mkRunning (world st) (trace st ++ [a]) (deferred st).

(** One round of [for _, file := range files_] of the [Run] closure.  The
    error is the one [cobra.CheckErr] ends the process with. *)
Definition fileBody (settings : renderCommandSettings) (st : Running World)
    (file : string) : Running World * option error :=
  let st := did st (AStat file) in
  match Stat (world st) file with
  | Err err => (st, Some err)
  | Ok true =>
      if decide (OutputDirectory settings = "") then
        (st, Some (New "output-directory parameter is required when rendering a directory"))
      else
        let st := did st (ARenderDirectory file (OutputDirectory settings)) in
        let '(w, err) := RenderDirectory (world st) file (OutputDirectory settings) in
        (mkRunning w (trace st) (deferred st), err)
  | Ok false =>
      let st := did st (AOpen file) in
      match Open (world st) file with
      | Some err => (st, Some err)
      | None =>
          let st := mkRunning (world st) (trace st) (file :: deferred st) in
          let outputFile :=
            if decide (OutputFile settings ≠ "") then OutputFile settings
            else Join [OutputDirectory settings; Base file] in
          let st := did st (ARenderFile file outputFile) in
          let '(w, err) := RenderFile (world st) file outputFile in
          (mkRunning w (trace st) (deferred st), err)
      end
  end.

Fixpoint rangeFiles (settings : renderCommandSettings) (files_ : list string)
    (st : Running World) : Running World * option error :=
  match files_ with
  | [] => (st, None)
  | file :: files_ =>
      match fileBody settings st file with
      | (st, None) => rangeFiles settings files_ st
      | (st, Some err) => (st, Some err)
      end
  end.

(** The [Run] closure of [NewRenderCommand] from the end of its watch branch
    on (render.go 229-265): the check of [output-file], the slash behind
    [output-directory], the loop over the files, and the deferred calls,
    which run when the closure returns and not when [cobra.CheckErr] ends the
    process. *)
Definition runFiles (settings : renderCommandSettings) (files_ : list string)
    (w : World) : World * list Action * option error :=
  if bool_decide (OutputFile settings ≠ "") && bool_decide (1 < length files_) then
    (w, [], Some (New "output-file parameter can only be used with a single file"))
  else
    let settings :=
      if bool_decide (OutputDirectory settings ≠ "")
         && negb (HasSuffix (OutputDirectory settings) "/")
      then appendSlash settings else settings in
    match rangeFiles settings files_ (mkRunning w [] []) with
    | (st, None) => (world st, trace st ++ (AClose <$> deferred st), None)
    | (st, Some err) => (world st, trace st, Some err)
    end.

End Run.

(** The files the trace examined, opened and closed, in order. *)
Definition stats (trace : list Action) : list string :=
  omap (λ a, match a with AStat file => Some file | _ => None end) trace.
Definition opens (trace : list Action) : list string :=
  omap (λ a, match a with AOpen file => Some file | _ => None end) trace.
Definition closes (trace : list Action) : list string :=
  omap (λ a, match a with AClose file => Some file | _ => None end) trace.

End Render.

(** A path element [name] without a slash. *)
Definition noSlash (name : string) : Prop :=
  "/"%char ∉ String.list_ascii_of_string name.

(** Where the renderer is sent, for the settings the loop runs with: a file
    of the command line goes to [OutputFile] when there is one and into
    [OutputDirectory] under its base name otherwise; a directory of the
    command line goes to [OutputDirectory], which is then not empty. *)
Definition placed (settings : Render.renderCommandSettings) (files_ : list string)
    (a : Render.Action) : Prop :=
  match a with
  | Render.ARenderFile file outputFile =>
      file ∈ files_
      ∧ outputFile = (if decide (Render.OutputFile settings ≠ "")
                      then Render.OutputFile settings
                      else Join [Render.OutputDirectory settings; Base file])
  | Render.ARenderDirectory directory outputDirectory =>
      directory ∈ files_
      ∧ outputDirectory = Render.OutputDirectory settings
      ∧ outputDirectory ≠ ""
  | _ => True
  end.

(** ** Further samples *)

(** [countProgram] with another name, path, description, environment and
    standard input, other [Short] texts, another [Type], [Value] and [Raw]
    behind the presence-only flag, and a [Flag] and [NoValue] on the
    positional parameter. *)
Definition countProgramVariant : ProgramOf GoValue :=
  Prog.mk "count" "/usr/bin/seq" ["run"] "counts" {["LANG" := "C"]} ["-r"]
          [Param.mk "count" "-n" "how many" "int" (VInt 1) "" false;
           Param.mk "verbose" "" "chatty" "string" VNil "yes" true]
          [Param.mk "file" "-f" "input" "string" (VString "in.txt") "" true]
          "stdin" "" "" 0%Z ∅.

(** [countProgram] with a [Raw] on its flag [count]. *)
Definition countProgramRaw : ProgramOf GoValue :=
  Prog.mk "seq" "" ["run"] "" ∅ ["-r"]
          [Param.mk "count" "-n" "" "int" (VInt 1) "9" false;
           Param.mk "verbose" "" "" "bool" (VBool true) "" true]
          [Param.mk "file" "" "" "string" (VString "in.txt") "" false]
          "" "" "" 0%Z ∅.

(** A program whose parameters have a [Raw] and a [Value] that
    [renderPlain] refuses. *)
Definition rawProgram : ProgramOf GoValue :=
  Prog.mk "head" "" [] "" ∅ []
          [Param.mk "lines" "-n" "" "int" VNil "many" false;
           Param.mk "quiet" "" "" "bool" VNil "" true]
          [Param.mk "file" "" "" "string" VNil "a b" false]
          "" "" "" 0%Z ∅.

(** A program with an environment and a standard input. *)
Definition envProgram : ProgramOf GoValue :=
  Prog.mk "env" "/usr/bin/env" [] "" {["LANG" := "C"; "TZ" := "UTC"]} [] [] []
          "in" "" "" 0%Z ∅.

(** What [nameDecode] makes of a file that holds the name [s]. *)
Definition named (s : string) : ProgramOf GoValue :=
  Prog.mk s "" [] "" ∅ [] [] [] "" "" "" 0%Z ∅.

(** A second file system: the roots ["a"] and ["tools"] exist and share no
    program name. *)
Definition toolsTree : FS :=
  Listing (Ok [File "grep.yaml" (Ok "grep"); File "sed.yml" (Ok "sed")]).

Definition toolsDirFS (repository : string) : FS :=
  if decide (repository = "a") then sampleTree
  else if decide (repository = "tools") then toolsTree
  else Listing (Err (Foreign "no such file or directory")).

Definition toolsStat (repository : string) : option error :=
  if decide (repository = "a") then None
  else if decide (repository = "tools") then None
  else Some (Foreign "no such file or directory").

Definition toolsRegistry : gmap string (ProgramOf GoValue) :=
  {[ "ls" := named "ls"; "curl" := named "curl"; "dig" := named "dig";
     "grep" := named "grep"; "sed" := named "sed" ]}.

(** A program in memory with a flag and three positional parameters, two of
    them of the same name. *)
Definition copyHeap : Store.heap :=
  {[ 1%positive := Store.OProgram
       (Prog.mk "cp" "/bin/cp" None "" None None
                (Some 2%positive) (Some 3%positive) "" "" "" 0%Z None);
     2%positive := Store.OPointers [Some 4%positive];
     3%positive := Store.OPointers [Some 5%positive; Some 6%positive; Some 7%positive];
     4%positive := Store.OParameter
       (Param.mk "force" "-f" "" "bool" (Store.IBool true) "" true);
     5%positive := Store.OParameter
       (Param.mk "src" "" "" "string" (Store.IString "a") "" false);
     6%positive := Store.OParameter
       (Param.mk "dst" "" "" "string" (Store.IString "b") "" false);
     7%positive := Store.OParameter
       (Param.mk "dst" "" "" "string" (Store.IString "c") "" false) ]}.

Definition copyRef : Store.ref := Some 1%positive.

Definition copyStruct : Prog.t Store.ref Store.ref Store.ref :=
  Prog.mk "cp" "/bin/cp" None "" None None
          (Some 2%positive) (Some 3%positive) "" "" "" 0%Z None.

Definition copyArgs : list (Param.t Store.iface) :=
  [Param.mk "src" "" "" "string" (Store.IString "a") "" false;
   Param.mk "dst" "" "" "string" (Store.IString "b") "" false;
   Param.mk "dst" "" "" "string" (Store.IString "c") "" false].

Definition copySnapshot : ProgramOf GoValue :=
  Prog.mk "cp" "/bin/cp" [] "" ∅ []
          [Param.mk "force" "-f" "" "bool" (VBool true) "" true]
          [Param.mk "src" "" "" "string" (VString "a") "" false;
           Param.mk "dst" "" "" "string" (VString "b") "" false;
           Param.mk "dst" "" "" "string" (VString "c") "" false]
          "" "" "" 0%Z ∅.

(** The copy of the sample program and the memory after the copy was made,
    and the memory after the flag [tags] of the copy was set. *)
Definition sampleClone : Store.ref * Store.heap :=
  default (None, ∅) (Store.Clone sampleRef sampleHeap).

Definition sampleCloneSet : option error * Store.heap :=
  default (None, ∅)
    (Store.SetFlagValue sampleClone.1 "tags" (Store.IString "z") sampleClone.2).

(** A world for the render command: the output paths written so far.
    ["docs"] is a directory, ["missing.md"] does not exist, ["locked.md"]
    cannot be opened and everything else is a regular file; the renderer
    always succeeds. *)
Definition sampleStatPath (w : list string) (file : string) : result bool :=
  if decide (file = "docs") then Ok true
  else if decide (file = "missing.md") then Err (Foreign "no such file or directory")
  else Ok false.

Definition sampleOpen (w : list string) (file : string) : option error :=
  if decide (file = "locked.md") then Some (Foreign "permission denied") else None.

Definition sampleRender (w : list string) (source output : string)
    : list string * option error :=
  (w ++ [output], None).

Definition sampleSettings : Render.renderCommandSettings :=
  Render.mkSettings [] "out" "" false (Some ["**/*.tmpl.md"]) true true
                    (Some ["{{"; "}}"]) false false.

Definition sampleTrace : list Render.Action :=
  [Render.AStat "a/x.tmpl.md"; Render.AOpen "a/x.tmpl.md";
   Render.ARenderFile "a/x.tmpl.md" "out/x.tmpl.md";
   Render.AStat "docs"; Render.ARenderDirectory "docs" "out/";
   Render.AStat "b/x.tmpl.md"; Render.AOpen "b/x.tmpl.md";
   Render.ARenderFile "b/x.tmpl.md" "out/x.tmpl.md";
   Render.AClose "b/x.tmpl.md"; Render.AClose "a/x.tmpl.md"].

(** * Properties *)

(** ** The error monad *)

Lemma bind_Ok {A B} (r : result A) (k : A → result B) (b : B) :
  bind r k = Ok b ↔ ∃ a, r = Ok a ∧ k a = Ok b.
Proof.
  destruct r as [a|e]; simpl; split.
  - eauto.
  - intros (a' & Ha & Hk). by simplify_eq.
  - discriminate.
  - intros (a' & Ha & _). discriminate.
Qed.

Lemma bind_assoc {A B C} (r : result A) (k : A → result B) (k' : B → result C) :
  bind (bind r k) k' = bind r (λ a, bind (k a) k').
Proof. by destruct r. Qed.

Lemma Wrapf_Ok {A} (r : result A) msg (a : A) : Wrapf r msg = Ok a ↔ r = Ok a.
Proof. destruct r; simpl; split; congruence. Qed.

Lemma traverse_Ok {A B} (f : A → result B) xs ys :
  traverse f xs = Ok ys ↔ Forall2 (λ x y, f x = Ok y) xs ys.
Proof.
  revert ys. induction xs as [|x xs IH]; intros ys; simpl.
  - split; [intros [= <-]; constructor | by inversion 1].
  - rewrite bind_Ok. split.
    + intros (y & Hy & H). apply bind_Ok in H as (ys' & Hys & [= <-]).
      constructor; [done | by apply IH].
    + inversion 1 as [|? y ? ys' Hy Hys]; subst. exists y. split; [done|].
      apply IH in Hys. by rewrite Hys.
Qed.

Lemma traverse_ext {A B} (f g : A → result B) xs :
  (∀ x, x ∈ xs → f x = g x) → traverse f xs = traverse g xs.
Proof.
  induction xs as [|x xs IH]; intros Hfg; simpl; [done|].
  rewrite Hfg by left. rewrite IH; [done|].
  intros y Hy. apply Hfg. by right.
Qed.

(** A loop that only appends is the concatenation of what each round appends. *)
Lemma rangeM_append {A B} (body : list B → A → result (list B)) xs acc :
  (∀ acc x, body acc x = (ys <- body [] x ;; Ok (acc ++ ys))) →
  rangeM body acc xs = (yss <- traverse (body []) xs ;; Ok (acc ++ concat yss)).
Proof.
  intros Happ. revert acc. induction xs as [|x xs IH]; intros acc; simpl.
  - by rewrite app_nil_r.
  - rewrite Happ. rewrite !bind_assoc. destruct (body [] x) as [ys|e]; simpl; [|done].
    rewrite IH. rewrite bind_assoc.
    destruct (traverse (body []) xs) as [yss|e]; simpl; [|done].
    by rewrite app_assoc.
Qed.

(** ** Argument compiler *)

Section ComputeArgsSpec.
Context {V : Type}.
Variable RenderValue : ParameterType → V → result string.

(** *** What one round of each loop appends *)

Lemma flagsBody_spec ps args f :
  flagsBody RenderValue ps args f = (toks <- flagSpec RenderValue ps f ;; Ok (args ++ toks)).
Proof.
  unfold flagsBody, flagSpec, resolved, obtained, flagToken.
  destruct (Param.NoValue f); simpl; [done|].
  destruct (ps !! Param.Name f) as [value|]; simpl.
  - destruct (RenderValue (Param.Type_ f) value) as [s|e]; simpl; [|done].
    destruct (decide (s = "")); simpl.
    + destruct (RenderValue _ (Param.Value f)); simpl; [|done].
      by rewrite <- app_assoc.
    + by rewrite <- app_assoc.
  - destruct (decide (Param.Raw f = "")); simpl.
    + destruct (RenderValue _ (Param.Value f)); simpl; [|done].
      by rewrite <- app_assoc.
    + by rewrite <- app_assoc.
Qed.

Lemma argsBody_spec ps args a :
  argsBody RenderValue ps args a = (v <- argSpec RenderValue ps a ;; Ok (args ++ [v])).
Proof.
  unfold argsBody, argSpec, resolved, obtained.
  destruct (ps !! Param.Name a) as [value|]; simpl.
  - destruct (RenderValue (Param.Type_ a) value) as [s|e]; simpl; [|done].
    destruct (decide (s = "")); simpl; [|done].
    by destruct (RenderValue _ (Param.Value a)).
  - destruct (decide (Param.Raw a = "")); simpl; [|done].
    by destruct (RenderValue _ (Param.Value a)).
Qed.

Lemma flagsBody_append ps args f :
  flagsBody RenderValue ps args f
  = (toks <- flagsBody RenderValue ps [] f ;; Ok (args ++ toks)).
Proof. rewrite !flagsBody_spec. by destruct (flagSpec RenderValue ps f). Qed.

Lemma argsBody_append ps args a :
  argsBody RenderValue ps args a
  = (toks <- argsBody RenderValue ps [] a ;; Ok (args ++ toks)).
Proof. rewrite !argsBody_spec. by destruct (argSpec RenderValue ps a). Qed.

Lemma ComputeArgs_rounds p ps :
  ComputeArgs RenderValue p ps =
    (fl <- traverse (flagsBody RenderValue ps []) (Prog.Flags p) ;;
     al <- traverse (argsBody RenderValue ps []) (Prog.Args p) ;;
     Ok (Prog.Verbs p ++ Prog.RawFlags p ++ concat fl ++ concat al)).
Proof.
  unfold ComputeArgs. simpl.
  rewrite (rangeM_append _ _ _ (flagsBody_append ps)). rewrite bind_assoc.
  destruct (traverse _ (Prog.Flags p)) as [fl|e]; simpl; [|done].
  rewrite (rangeM_append _ _ _ (argsBody_append ps)). rewrite bind_assoc.
  destruct (traverse _ (Prog.Args p)) as [al|e]; simpl; [|done].
  by rewrite <- !app_assoc.
Qed.

Lemma traverse_singletons {A B} (f : A → result (list B)) (g : A → result B) xs :
  (∀ x, f x = (y <- g x ;; Ok [y])) →
  traverse f xs = (ys <- traverse g xs ;; Ok ((λ y, [y]) <$> ys)).
Proof.
  intros Hfg. induction xs as [|x xs IH]; simpl; [done|].
  rewrite Hfg, IH. destruct (g x); simpl; [|done].
  by destruct (traverse g xs).
Qed.

Lemma concat_singletons {B} (ys : list B) : concat ((λ y, [y]) <$> ys) = ys.
Proof. induction ys as [|y ys IH]; csimpl; [done | by rewrite IH]. Qed.

(** The compiled vector in the specification's words. *)
Lemma ComputeArgs_spec p ps :
  ComputeArgs RenderValue p ps =
    (fl <- traverse (flagSpec RenderValue ps) (Prog.Flags p) ;;
     al <- traverse (argSpec RenderValue ps) (Prog.Args p) ;;
     Ok (Prog.Verbs p ++ Prog.RawFlags p ++ concat fl ++ al)).
Proof.
  rewrite ComputeArgs_rounds.
  rewrite (traverse_ext (flagsBody RenderValue ps []) (flagSpec RenderValue ps)).
  2:{ intros f _. rewrite flagsBody_spec. by destruct (flagSpec RenderValue ps f). }
  destruct (traverse (flagSpec RenderValue ps) _) as [fl|e]; simpl; [|done].
  rewrite (traverse_singletons (argsBody RenderValue ps []) (argSpec RenderValue ps)).
  2:{ intros a. by rewrite argsBody_spec. }
  destruct (traverse (argSpec RenderValue ps) _) as [al|e]; simpl; [|done].
  by rewrite concat_singletons.
Qed.

End ComputeArgsSpec.

(** *** Scenarios *)

Example echo_args : ComputeArgs renderPlain echoProgram ∅ = Ok ["hi"].
Proof. reflexivity. Qed.

Example count_args :
  ComputeArgs renderPlain countProgram {["count" := VInt 5]}
  = Ok ["run"; "-r"; "-n"; "5"; "--verbose"; "in.txt"].
Proof. vm_compute. reflexivity. Qed.

(** A runtime value that renders to the empty string gives way to the
    static default. *)
Example count_args_empty_runtime :
  ComputeArgs renderPlain countProgram {["count" := VString ""]}
  = Ok ["run"; "-r"; "-n"; "1"; "--verbose"; "in.txt"].
Proof. vm_compute. reflexivity. Qed.

Example count_args_unrenderable :
  ComputeArgs renderPlain countProgram {["file" := VNil]}
  = Err (Wrap (Foreign "cannot render as string") "could not render arg file").
Proof. vm_compute. reflexivity. Qed.

Section ComputeArgsClaims.
Context {V : Type}.
Variable RenderValue : ParameterType → V → result string.

(** C1. ComputeArgs resolves the value of each flag that is not NoValue and
    of each positional arg by the precedence chain [resolved]: (a) the
    runtime entry keyed by Name rendered for Type, (b) else Raw verbatim,
    (c) the static Value rendered for Type when (a) or (b) gave the empty
    string.  In particular a runtime value that renders to the empty string
    is overridden by the static default. *)
Theorem ComputeArgs_precedence (p : ProgramOf V) (ps : gmap string V) :
  ComputeArgs RenderValue p ps =
    (fl <- traverse (flagSpec RenderValue ps) (Prog.Flags p) ;;
     al <- traverse (argSpec RenderValue ps) (Prog.Args p) ;;
     Ok (Prog.Verbs p ++ Prog.RawFlags p ++ concat fl ++ al))
  ∧ (∀ x value s, ps !! Param.Name x = Some value →
       RenderValue (Param.Type_ x) value = Ok s → s ≠ "" →
       resolved RenderValue ps x = Ok s)
  ∧ (∀ x, ps !! Param.Name x = None → Param.Raw x ≠ "" →
       resolved RenderValue ps x = Ok (Param.Raw x))
  ∧ (∀ x value, ps !! Param.Name x = Some value →
       RenderValue (Param.Type_ x) value = Ok "" →
       resolved RenderValue ps x = RenderValue (Param.Type_ x) (Param.Value x))
  ∧ (∀ x, ps !! Param.Name x = None → Param.Raw x = "" →
       resolved RenderValue ps x = RenderValue (Param.Type_ x) (Param.Value x)).
Proof.
  split; [apply ComputeArgs_spec|].
  unfold resolved, obtained. repeat split.
  - intros x value s -> ->. simpl. by destruct (decide (s = "")).
  - intros x -> Hraw. simpl. by destruct (decide (Param.Raw x = "")).
  - by intros x value -> ->.
  - intros x -> ->. done.
Qed.

(** C4. The vector ComputeArgs returns is, in this order: the Verbs, the
    RawFlags, what the round of each Flags entry appends, in declared order,
    and the one token the round of each Args entry appends, in declared
    order. *)
Theorem ComputeArgs_order (p : ProgramOf V) (ps : gmap string V) (out : list string) :
  ComputeArgs RenderValue p ps = Ok out →
  ∃ (fl : list (list string)) (al : list string),
    Forall2 (λ f toks, flagsBody RenderValue ps [] f = Ok toks) (Prog.Flags p) fl
    ∧ Forall2 (λ a v, argsBody RenderValue ps [] a = Ok [v]) (Prog.Args p) al
    ∧ out = Prog.Verbs p ++ Prog.RawFlags p ++ concat fl ++ al.
Proof.
  rewrite ComputeArgs_rounds. intros H.
  apply bind_Ok in H as (fl & Hfl & H).
  apply bind_Ok in H as (al & Hal & [= <-]).
  apply traverse_Ok in Hfl.
  rewrite (traverse_singletons _ (argSpec RenderValue ps)) in Hal
    by (intros a; by rewrite argsBody_spec).
  apply bind_Ok in Hal as (vs & Hvs & [= <-]).
  exists fl, vs. split; [done|]. split.
  - apply traverse_Ok in Hvs. eapply Forall2_impl; [exact Hvs|].
    intros a v Hv. simpl in Hv. rewrite argsBody_spec, Hv. done.
  - by rewrite concat_singletons.
Qed.

(** C5. The CLI token of a flag is Flag if set, else "--" + Name.  A flag
    with NoValue contributes that one token, whatever the runtime map, its
    Value, its Raw and the formatter are; a flag without NoValue contributes
    the token followed by the resolved value as a token of its own, also
    when that value is the empty string. *)
Theorem flag_tokens (p : ProgramOf V) (ps : gmap string V) :
  (∀ f args, Param.NoValue f = true →
     flagsBody RenderValue ps args f = Ok (args ++ [flagToken f]))
  ∧ (∀ f args v, Param.NoValue f = false →
       resolved RenderValue ps f = Ok v →
       flagsBody RenderValue ps args f = Ok (args ++ [flagToken f; v]))
  ∧ (∀ f args, Param.NoValue f = false →
       resolved RenderValue ps f = Ok "" →
       flagsBody RenderValue ps args f = Ok (args ++ [flagToken f; ""]))
  ∧ (∀ out, ComputeArgs RenderValue p ps = Ok out →
       ∃ (fl : list (list string)) (al : list string),
         Forall2 (λ f toks, if Param.NoValue f then toks = [flagToken f]
                            else ∃ v, resolved RenderValue ps f = Ok v
                                      ∧ toks = [flagToken f; v])
                 (Prog.Flags p) fl
         ∧ length al = length (Prog.Args p)
         ∧ out = Prog.Verbs p ++ Prog.RawFlags p ++ concat fl ++ al).
Proof.
  assert (Hvalue : ∀ f args v, Param.NoValue f = false →
            resolved RenderValue ps f = Ok v →
            flagsBody RenderValue ps args f = Ok (args ++ [flagToken f; v])).
  { intros f args v Hno Hv. rewrite flagsBody_spec. unfold flagSpec.
    by rewrite Hno, Hv. }
  split; [|split; [done|split; [by auto|]]].
  - intros f args Hno. rewrite flagsBody_spec. unfold flagSpec. by rewrite Hno.
  - intros out. rewrite ComputeArgs_spec. intros H.
    apply bind_Ok in H as (fl & Hfl & H).
    apply bind_Ok in H as (al & Hal & [= <-]).
    exists fl, al. split; [|split; [|done]].
    + apply traverse_Ok in Hfl. eapply Forall2_impl; [exact Hfl|].
      intros f toks. unfold flagSpec. destruct (Param.NoValue f).
      * by intros [= <-].
      * intros H. apply bind_Ok in H as (v & Hv & [= <-]).
        apply Wrapf_Ok in Hv. eauto.
    + apply traverse_Ok in Hal. symmetry. by eapply Forall2_length.
Qed.

End ComputeArgsClaims.

(** C7. ComputeArgs is deterministic: the result of a call is a function of
    the program, of the runtime map and of what the formatter answers for
    the values of the program's parameters.  Two calls on the same program
    and map, each with its own run [rv1], [rv2] of the formatter, return the
    same vector or the same error as soon as the formatter gives the same
    answers; with [rv1 = rv2] these are two calls on identical inputs. *)
Theorem ComputeArgs_deterministic {V : Type}
    (rv1 rv2 : ParameterType → V → result string)
    (p : ProgramOf V) (ps : gmap string V) :
  (∀ x v, x ∈ Prog.Flags p ++ Prog.Args p →
          v = Param.Value x ∨ ps !! Param.Name x = Some v →
          rv1 (Param.Type_ x) v = rv2 (Param.Type_ x) v) →
  ComputeArgs rv1 p ps = ComputeArgs rv2 p ps.
Proof.
  intros Hrv.
  assert (Hres : ∀ x, x ∈ Prog.Flags p ++ Prog.Args p →
            resolved rv1 ps x = resolved rv2 ps x).
  { intros x Hx. unfold resolved, obtained.
    rewrite (Hrv x (Param.Value x) Hx) by (by left).
    destruct (ps !! Param.Name x) as [value|] eqn:Hps; [|done].
    by rewrite (Hrv x value Hx) by (by right). }
  rewrite !ComputeArgs_spec.
  rewrite (traverse_ext (flagSpec rv1 ps) (flagSpec rv2 ps)).
  2:{ intros f Hf. unfold flagSpec. rewrite Hres; [done|].
      apply elem_of_app. by left. }
  rewrite (traverse_ext (argSpec rv1 ps) (argSpec rv2 ps)).
  2:{ intros a Ha. unfold argSpec. rewrite Hres; [done|].
      apply elem_of_app. by right. }
  done.
Qed.

(** ** Process executor *)

Section ExecutorSpec.
Import Exec.
Context {V Ctx : Type}.
Variable RenderValue : ParameterType → V → result string.
Variable LookPath : string → result string.
Variable Environ : list string.
Variable rangeMap : gmap string string → list (string * string).
Variable child : Ctx → Cmd → Outcome.

Lemma foldl_append_each {A B} (f : A → B) (xs : list A) (acc : list B) :
  foldl (λ acc x, acc ++ [f x]) acc xs = acc ++ (f <$> xs).
Proof.
  revert acc. induction xs as [|x xs IH]; intros acc; csimpl.
  - by rewrite app_nil_r.
  - rewrite IH. by rewrite <- app_assoc.
Qed.

(** [RunIntoWriter] once the executable is found and the arguments are
    compiled: it runs [command] and wraps whatever error [cmd.Run] returns. *)
Lemma RunIntoWriter_runs {Layer : Type} (p : ProgramOf V) (ctx : Ctx)
    (parsedLayers : gmap string Layer) (ps : gmap string V) (w : string)
    (path : string) (args : list string) :
  executable LookPath p = Ok path →
  ComputeArgs RenderValue p ps = Ok args →
  RunIntoWriter RenderValue LookPath Environ rangeMap child p ctx parsedLayers ps w
  = match Cmd_Run child ctx (command Environ rangeMap p path args) w with
    | (w', Some err) =>
        mkRun (Some (Wrap err ("could not run " +:+ Prog.Name p))) w'
              (Some (command Environ rangeMap p path args))
    | (w', None) => mkRun None w' (Some (command Environ rangeMap p path args))
    end.
Proof.
  unfold executable, RunIntoWriter, command. intros Hpath Hargs.
  cbv zeta. rewrite Hpath, Hargs. simpl. by rewrite foldl_append_each.
Qed.

(** C2, as the code has it.  Once the executable is found and the arguments
    are compiled, RunIntoWriter returns nil exactly when the child starts,
    its output is copied and it exits with status zero.  A child that runs
    and exits with a non-zero status makes RunIntoWriter return an error,
    as a failure to start does: the exit error carrying the status, wrapped
    with "could not run" and the program name.  What the child wrote is in
    the caller's writer in both cases. *)
Theorem RunIntoWriter_exit_status {Layer : Type} (p : ProgramOf V) (ctx : Ctx)
    (parsedLayers : gmap string Layer) (ps : gmap string V) (w : string)
    (path : string) (args : list string) :
  executable LookPath p = Ok path →
  ComputeArgs RenderValue p ps = Ok args →
  let cmd := command Environ rangeMap p path args in
  let run := RunIntoWriter RenderValue LookPath Environ rangeMap child
                           p ctx parsedLayers ps w in
  (∀ output, child ctx cmd = Exited 0 output →
     run = mkRun None (w +:+ output) (Some cmd))
  ∧ (∀ status output, status ≠ 0%Z → child ctx cmd = Exited status output →
       run = mkRun (Some (Wrap (ExitError status) ("could not run " +:+ Prog.Name p)))
                   (w +:+ output) (Some cmd))
  ∧ (∀ e, child ctx cmd = StartFailed e →
       run = mkRun (Some (Wrap e ("could not run " +:+ Prog.Name p))) w (Some cmd))
  ∧ (∀ e output, child ctx cmd = CopyFailed e output →
       run = mkRun (Some (Wrap e ("could not run " +:+ Prog.Name p)))
                   (w +:+ output) (Some cmd))
  ∧ (returned run = None ↔ ∃ output, child ctx cmd = Exited 0 output).
Proof.
  intros Hpath Hargs cmd run. subst run.
  rewrite (RunIntoWriter_runs p ctx parsedLayers ps w path args Hpath Hargs).
  fold cmd. unfold Cmd_Run. repeat split.
  - by intros output ->.
  - intros status output Hne ->. by destruct (decide (status = 0%Z)).
  - by intros e ->.
  - by intros e output ->.
  - destruct (child ctx cmd) as [e|status output|e output]; simpl; try done.
    destruct (decide (status = 0%Z)) as [->|]; [eauto | done].
  - intros [output ->]. done.
Qed.

(** C10. RunIntoWriter never reads parsedLayers: any two values of it, of
    any type, give the same returned error, the same content of the writer
    and the same command, arguments included. *)
Theorem RunIntoWriter_ignores_parsedLayers {Layer1 Layer2 : Type}
    (p : ProgramOf V) (ctx : Ctx)
    (parsedLayers1 : gmap string Layer1) (parsedLayers2 : gmap string Layer2)
    (ps : gmap string V) (w : string) :
  RunIntoWriter RenderValue LookPath Environ rangeMap child p ctx parsedLayers1 ps w
  = RunIntoWriter RenderValue LookPath Environ rangeMap child p ctx parsedLayers2 ps w.
Proof. reflexivity. Qed.

End ExecutorSpec.

(** *** A child that exits with status 1 *)

(** C2 fails as stated: the child starts, runs and exits with status 1, and
    RunIntoWriter returns an error. *)
Lemma RunIntoWriter_nonzero_exit_is_error :
  let run := Exec.RunIntoWriter renderPlain noLookPath [] map_to_list sampleChild
               falseProgram tt (∅ : gmap string unit) ∅ "" in
  Exec.started run = Some (Exec.mkCmd "/bin/false" [] [] None)
  ∧ sampleChild tt (Exec.mkCmd "/bin/false" [] [] None) = Exec.Exited 1 ""
  ∧ Exec.returned run = Some (Wrap (ExitError 1) "could not run false")
  ∧ Exec.returned run ≠ None.
Proof. vm_compute. repeat split; discriminate. Qed.

(** ** Repository loader *)

(** Induction on a file tree: a directory that cannot be read, and a
    directory whose subdirectories have the property. *)
Lemma FS_listing_ind (P : FS → Prop) :
  (∀ e, P (Listing (Err e))) →
  (∀ entries,
     Forall (λ entry, match entry with
                      | Dir _ sub => P sub
                      | File _ _ => True
                      end) entries →
     P (Listing (Ok entries))) →
  ∀ f, P f.
Proof.
  intros Herr Hok. fix IH 1. intros [[entries|e]]; [|apply Herr].
  apply Hok. revert entries. fix IHentries 1. intros [|entry entries].
  - constructor.
  - constructor; [|apply IHentries]. destruct entry; [exact I | apply IH].
Qed.

Lemma rangeM_app {A S} (body : S → A → result S) s xs ys :
  rangeM body s (xs ++ ys) = (s' <- rangeM body s xs ;; rangeM body s' ys).
Proof.
  revert s. induction xs as [|x xs IH]; intros s; simpl; [done|].
  destruct (body s x); simpl; [apply IH | done].
Qed.

Lemma definitionFiles_listing entries :
  definitionFiles (Listing (Ok entries)) = concat (entryFiles <$> entries).
Proof. induction entries as [|entry entries IH]; csimpl in *; congruence. Qed.

Lemma readable_listing entries :
  readable (Listing (Ok entries)) = forallb entryReadable entries.
Proof. induction entries as [|entry entries IH]; simpl in *; congruence. Qed.

Section LoaderSpec.
Context {V : Type}.
Variable yamlDecode : string → result (ProgramOf V).
Variable Stat : string → option error.
Variable DirFS : string → FS.

Lemma LoadProgramsFromFS_unfold f dir :
  LoadProgramsFromFS yamlDecode f dir =
    (entries <- Wrapf (ReadDir f) ("could not read dir " +:+ dir) ;;
     rangeM (entryBody yamlDecode dir) [] entries).
Proof.
  destruct f as [[entries|e]]; simpl; [|done].
  match goal with
  | |- ?range entries [] = _ =>
      cut (∀ programs, range entries programs = rangeM (entryBody yamlDecode dir) programs entries);
      [intros Hrange; apply Hrange|]
  end.
  induction entries as [|entry entries IH]; intros programs; simpl; [done|].
  unfold entryBody at 1.
  destruct (HasPrefix (EntryName entry) "."); simpl; [apply IH|].
  destruct entry as [name opened|name sub]; simpl.
  - destruct (HasSuffix name ".yaml" || HasSuffix name ".yml"); simpl; [|apply IH].
    destruct opened as [file|e]; simpl; [|done].
    unfold NewProgramFromYAML.
    destruct (yamlDecode file); simpl; [apply IH | done].
  - destruct (LoadProgramsFromFS yamlDecode sub _); simpl; [apply IH | done].
Qed.

Lemma entryBody_append dir programs entry :
  entryBody yamlDecode dir programs entry
  = (programs_ <- entryBody yamlDecode dir [] entry ;; Ok (programs ++ programs_)).
Proof.
  unfold entryBody. destruct (HasPrefix (EntryName entry) "."); simpl.
  { by rewrite app_nil_r. }
  destruct entry as [name opened|name sub]; simpl.
  - destruct (HasSuffix name ".yaml" || HasSuffix name ".yml"); simpl.
    + destruct opened as [file|e]; simpl; [|done].
      unfold NewProgramFromYAML. by destruct (yamlDecode file).
    + by rewrite app_nil_r.
  - by destruct (LoadProgramsFromFS yamlDecode sub _).
Qed.

Lemma Forall2_concat_inv {A B} (R : A → B → Prop) (xss : list (list A)) (ys : list B) :
  Forall2 R (concat xss) ys →
  ∃ yss, ys = concat yss ∧ Forall2 (Forall2 R) xss yss.
Proof.
  revert ys. induction xss as [|xs xss IH]; intros ys; simpl.
  - inversion 1. exists []. by split; [|constructor].
  - intros H. apply Forall2_app_inv_l in H as (ys1 & ys2 & H1 & H2 & ->).
    apply IH in H2 as (yss & -> & Hyss). exists (ys1 :: yss).
    by split; [|constructor].
Qed.

Lemma Forall2_concat {A B} (R : A → B → Prop) (xss : list (list A)) (yss : list (list B)) :
  Forall2 (Forall2 R) xss yss → Forall2 R (concat xss) (concat yss).
Proof. induction 1; simpl; [constructor | by apply Forall2_app]. Qed.

Lemma LoadProgramsFromFS_Ok f :
  ∀ dir programs,
    LoadProgramsFromFS yamlDecode f dir = Ok programs
    ↔ readable f = true ∧ Forall2 (decodes yamlDecode) (definitionFiles f) programs.
Proof.
  induction f as [e|entries IH] using FS_listing_ind; intros dir programs.
  { simpl. split; [discriminate | intros [? _]; discriminate]. }
  rewrite definitionFiles_listing, readable_listing.
  rewrite LoadProgramsFromFS_unfold. cbn [ReadDir Wrapf bind].
  rewrite (rangeM_append _ _ _ (entryBody_append dir)). cbn [app].
  assert (Hentry : ∀ entry, entry ∈ entries → ∀ ps,
            entryBody yamlDecode dir [] entry = Ok ps
            ↔ entryReadable entry = true ∧ Forall2 (decodes yamlDecode) (entryFiles entry) ps).
  { intros entry Hin ps. rewrite Forall_forall in IH. specialize (IH entry Hin).
    unfold entryBody. destruct entry as [name opened|name sub]; simpl;
      unfold hidden; destruct (HasPrefix name "."); simpl.
    - split; [intros [= <-]; by split; [|constructor] | intros [_ H]; by inversion H].
    - unfold isYaml. destruct (HasSuffix name ".yaml" || HasSuffix name ".yml"); simpl.
      + split.
        * intros H. apply bind_Ok in H as (file & Hfile & H).
          apply bind_Ok in H as (program & Hprogram & [= <-]).
          apply Wrapf_Ok in Hfile. apply Wrapf_Ok in Hprogram.
          unfold NewProgramFromYAML in Hprogram.
          apply bind_Ok in Hprogram as (program' & Hdec & [= <-]).
          apply Wrapf_Ok in Hdec.
          split; [done|]. constructor; [|constructor]. by exists file.
        * intros [_ H]. inversion H as [|? ? ? ? (file & -> & Hdec) Hnil]; subst.
          inversion Hnil; subst. simpl. unfold NewProgramFromYAML.
          by rewrite Hdec.
      + split; [intros [= <-]; by split; [|constructor] | intros [_ H]; by inversion H].
    - split; [intros [= <-]; by split; [|constructor] | intros [_ H]; by inversion H].
    - split.
      + intros H. apply bind_Ok in H as (ps' & Hps' & [= <-]).
        apply Wrapf_Ok in Hps'. by apply IH in Hps'.
      + intros H. apply IH with (dir := Join [dir; name]) in H. by rewrite H. }
  clear IH. split.
  - intros H. apply bind_Ok in H as (pss & Hpss & [= <-]).
    apply traverse_Ok in Hpss.
    assert (Hall : Forall2 (λ entry ps, entryReadable entry = true
                              ∧ Forall2 (decodes yamlDecode) (entryFiles entry) ps) entries pss).
    { clear -Hpss Hentry. induction Hpss as [|entry ps entries pss H Hpss IH];
        constructor.
      - apply Hentry; [by left | done].
      - apply IH. intros entry' Hin. apply Hentry. by right. }
    clear -Hall. induction Hall as [|entry ps entries pss [Hr Hd] Hall [IHr IHd]];
      simpl; [by split; [|constructor]|].
    rewrite Hr, IHr. split; [done|]. by apply Forall2_app.
  - intros [Hr Hd]. apply Forall2_concat_inv in Hd as (pss & -> & Hpss).
    rewrite Forall2_fmap_l in Hpss.
    assert (Htr : traverse (entryBody yamlDecode dir []) entries = Ok pss).
    { apply traverse_Ok. clear -Hpss Hr Hentry.
      induction Hpss as [|entry ps entries pss H Hpss IH]; constructor.
      - simpl in Hr. apply andb_true_iff in Hr as [Hr _].
        apply Hentry; [by left | done].
      - simpl in Hr. apply andb_true_iff in Hr as [_ Hr]. apply IH; [|done].
        intros entry' Hin. apply Hentry. by right. }
    by rewrite Htr.
Qed.

End LoaderSpec.

Section LoaderClaims.
Context {V : Type}.
Variable yamlDecode : string → result (ProgramOf V).
Variable Stat : string → option error.
Variable DirFS : string → FS.

(** C8. LoadProgramsFromFS succeeds exactly when every directory it enters
    can be listed and every definition file (a file at any depth that is not
    hidden, lies in no hidden directory and whose name ends in ".yaml" or
    ".yml") opens and decodes; it then returns the programs decoded from
    exactly these files, one each, in the order of the walk.  Hidden entries
    and files with another extension are never opened, so they cause no
    error whatever they hold. *)
Theorem LoadProgramsFromFS_walk (f : FS) (dir : string) (programs : list (ProgramOf V)) :
  LoadProgramsFromFS yamlDecode f dir = Ok programs
  ↔ readable f = true ∧ Forall2 (decodes yamlDecode) (definitionFiles f) programs.
Proof. apply LoadProgramsFromFS_Ok. Qed.

Lemma twice_not_NoDup {A} (x : A) l : twice x l → ¬ NoDup l.
Proof.
  intros (l1 & l2 & l3 & ->) Hnd.
  apply NoDup_app in Hnd as (_ & _ & Hnd).
  apply NoDup_cons in Hnd as [Hx _]. apply Hx.
  apply elem_of_app. right. by left.
Qed.

Lemma repositoryBody_loaded programs repository :
  repositoryBody yamlDecode Stat DirFS programs repository
  = (programs_ <- loaded yamlDecode Stat DirFS repository ;; rangeM registerBody programs programs_).
Proof.
  unfold repositoryBody, loaded. destruct (Stat repository); simpl; [done|].
  by destruct (LoadProgramsFromFS _ _ _).
Qed.

(** Registering a list of programs into [m]: either every name is new, or
    the load stops at the first name that is already there. *)
Lemma register_cases (m : gmap string (ProgramOf V)) (ps : list (ProgramOf V)) :
  (∃ m', rangeM registerBody m ps = Ok m'
         ∧ NoDup (Prog.Name <$> ps)
         ∧ (∀ name, name ∈ Prog.Name <$> ps → m !! name = None)
         ∧ (∀ name program,
              m' !! name = Some program
              ↔ m !! name = Some program ∨ (program ∈ ps ∧ Prog.Name program = name)))
  ∨ (∃ name l1 l2,
       rangeM registerBody m ps = Err (collision name)
       ∧ Prog.Name <$> ps = l1 ++ name :: l2
       ∧ (is_Some (m !! name) ∨ name ∈ l1)).
Proof.
  revert m. induction ps as [|p ps IH]; intros m.
  { left. exists m. split; [done|]. split; [constructor|]. split.
    - intros name H. by apply elem_of_nil in H.
    - intros name program. split; [by left|].
      intros [H|[H _]]; [done | by apply elem_of_nil in H]. }
  simpl. unfold registerBody at 1 3.
  destruct (m !! Prog.Name p) as [q|] eqn:Hp; simpl.
  { right. exists (Prog.Name p), [], (Prog.Name <$> ps).
    split; [done|]. split; [done|]. left. by exists q. }
  destruct (IH (<[Prog.Name p:=p]> m))
    as [(m' & Hrun & Hnd & Hnew & Hm')|(name & l1 & l2 & Hrun & Hnames & Hwhy)].
  - left. exists m'. split; [done|].
    assert (Hfresh : Prog.Name p ∉ Prog.Name <$> ps).
    { intros Hin. apply Hnew in Hin. by rewrite lookup_insert_eq in Hin. }
    split; [by constructor|]. split.
    + csimpl. intros name [->|Hin]%elem_of_cons; [done|].
      specialize (Hnew name Hin).
      rewrite lookup_insert_ne in Hnew; [done|]. by intros <-.
    + intros name program. rewrite Hm'. rewrite lookup_insert.
      destruct (decide (Prog.Name p = name)) as [<-|Hne]; split.
      * intros [[= <-]|[Hin Heq]]; right; [by split; [left|]|].
        split; [by right | done].
      * intros [H|[[->|Hin]%elem_of_cons Heq]]; [congruence | by left | by right].
      * intros [H|[Hin Heq]]; [by left|]. right. split; [by right | done].
      * intros [H|[[->|Hin]%elem_of_cons Heq]]; [by left | done | by right].
  - right. exists name, (Prog.Name p :: l1), l2. split; [done|].
    split; [csimpl; by rewrite Hnames|].
    destruct Hwhy as [Hsome|Hin]; [|right; by right].
    rewrite lookup_insert in Hsome.
    destruct (decide (Prog.Name p = name)) as [<-|Hne]; [right; by left | by left].
Qed.

Lemma LoadRepositories_loaded (m : gmap string (ProgramOf V)) done rest pss :
  Forall2 (λ repository programs, loaded yamlDecode Stat DirFS repository = Ok programs) done pss →
  rangeM (repositoryBody yamlDecode Stat DirFS) m (done ++ rest)
  = (m' <- rangeM registerBody m (concat pss) ;;
     rangeM (repositoryBody yamlDecode Stat DirFS) m' rest).
Proof.
  intros Hall. revert m.
  induction Hall as [|repository programs done pss Hl Hall IH]; intros m; [done|].
  simpl. rewrite repositoryBody_loaded, Hl. simpl.
  rewrite rangeM_app, bind_assoc.
  destruct (rangeM registerBody m programs) as [m1|e]; simpl; [apply IH | done].
Qed.

Lemma LoadRepositories_Ok_inv (m registry : gmap string (ProgramOf V)) repositories :
  rangeM (repositoryBody yamlDecode Stat DirFS) m repositories = Ok registry →
  ∃ pss,
    Forall2 (λ repository programs, loaded yamlDecode Stat DirFS repository = Ok programs) repositories pss
    ∧ rangeM registerBody m (concat pss) = Ok registry.
Proof.
  revert m. induction repositories as [|repository repositories IH]; intros m; simpl.
  { intros [= <-]. exists []. by split; [constructor|]. }
  rewrite repositoryBody_loaded. intros H.
  apply bind_Ok in H as (m1 & H1 & H).
  apply bind_Ok in H1 as (programs & Hl & Hreg).
  apply IH in H as (pss & Hall & Hrest).
  exists (programs :: pss). split; [by constructor|].
  simpl. by rewrite rangeM_app, Hreg.
Qed.

(** C6. As soon as the repositories loaded so far hold a program name twice
    (in two roots or in two files of one root) LoadRepositories fails with
    the collision error for a name that stands twice, and returns no
    registry, whatever repositories follow.  When it returns a registry,
    every repository loaded, no name stands twice, and the registry holds
    exactly the loaded programs under their names. *)
Theorem LoadRepositories_collision :
  (∀ done rest pss,
     Forall2 (λ repository programs, loaded yamlDecode Stat DirFS repository = Ok programs) done pss →
     ¬ NoDup (Prog.Name <$> concat pss) →
     ∃ name,
       twice name (Prog.Name <$> concat pss)
       ∧ LoadRepositories yamlDecode Stat DirFS (done ++ rest) = Err (collision name))
  ∧ (∀ repositories registry,
       LoadRepositories yamlDecode Stat DirFS repositories = Ok registry →
       ∃ pss,
         Forall2 (λ repository programs, loaded yamlDecode Stat DirFS repository = Ok programs)
                 repositories pss
         ∧ NoDup (Prog.Name <$> concat pss)
         ∧ (∀ name program,
              registry !! name = Some program
              ↔ program ∈ concat pss ∧ Prog.Name program = name)).
Proof.
  split.
  - intros done rest pss Hall Hdup. unfold LoadRepositories.
    rewrite (LoadRepositories_loaded ∅ done rest pss Hall).
    destruct (register_cases ∅ (concat pss))
      as [(m' & _ & Hnd & _)|(name & l1 & l2 & Hrun & Hnames & Hwhy)]; [done|].
    exists name. split.
    + destruct Hwhy as [[q Hq]|Hin]; [by rewrite lookup_empty in Hq|].
      apply list_elem_of_split in Hin as (a & b & ->).
      exists a, b, l2. by rewrite Hnames, <- app_assoc.
    + by rewrite Hrun.
  - intros repositories registry Hok. unfold LoadRepositories in Hok.
    apply LoadRepositories_Ok_inv in Hok as (pss & Hall & Hreg).
    exists pss. split; [done|].
    destruct (register_cases ∅ (concat pss))
      as [(m' & Hrun & Hnd & _ & Hm')|(name & l1 & l2 & Hrun & _)];
      [|congruence].
    split; [done|]. intros name program.
    rewrite Hrun in Hreg. injection Hreg as <-. rewrite Hm'.
    rewrite lookup_empty. split; [intros [H|H]; [done | done] | by right].
Qed.

End LoaderClaims.

(** *** A repository *)

Example sampleTree_programs :
  (programs <- LoadProgramsFromFS nameDecode sampleTree "." ;;
   Ok (map Prog.Name programs))
  = Ok ["ls"; "curl"; "dig"].
Proof. vm_compute. reflexivity. Qed.

Example two_roots_collide :
  LoadRepositories nameDecode sampleStat sampleDirFS ["a"; "b"; "missing"]
  = Err (Errorf "program ls already exists").
Proof. vm_compute. reflexivity. Qed.

Example missing_root :
  LoadRepositories nameDecode sampleStat sampleDirFS ["missing"; "a"; "b"]
  = Err (Wrap (Foreign "no such file or directory")
              "could not stat repository missing").
Proof. vm_compute. reflexivity. Qed.

(** ** Watch handler *)

(** The loop picks the first configured path that is a prefix of the
    changed path. *)
Lemma findBase_first path before base after basePath :
  Forall (λ file, HasPrefix path file = false) before →
  HasPrefix path base = true →
  findBase path (before ++ base :: after) basePath = base.
Proof.
  intros Hbefore Hbase.
  induction Hbefore as [|file before Hfile _ IH]; simpl.
  - by rewrite Hbase.
  - by rewrite Hfile.
Qed.

Lemma findBase_none path files_ basePath :
  Forall (λ file, HasPrefix path file = false) files_ →
  findBase path files_ basePath = basePath.
Proof. induction 1 as [|file files_ Hfile _ IH]; simpl; [done | by rewrite Hfile]. Qed.

(** The handler computes the output path from the first configured path
    that is a prefix of the changed path, logs it, and returns nil.  It
    never calls the renderer. *)
Lemma watchHandler_logs files_ outputDirectory path :
  ∃ basePath outputPath,
    basePath = findBase path files_ path
    ∧ outputPath = Join [outputDirectory; TrimPrefix path basePath]
    ∧ watchHandler files_ outputDirectory path
      = ([LogInfo [("path", path)] "File changed";
          LogInfo [("path", path); ("basePath", basePath);
                   ("outputPath", outputPath)] "File changed"], None)
    ∧ ∀ source output,
        RenderFile source output ∉ (watchHandler files_ outputDirectory path).1.
Proof.
  eexists _, _. split; [done|]. split; [done|]. split; [done|].
  intros source output. simpl.
  intros [H|[H|H%elem_of_nil]%elem_of_cons]%elem_of_cons; done.
Qed.

(** C9. A change of [docs/a.tmpl.md] with the configured path [docs] (the
    second one, [doc], is a prefix too, but comes later) and the output
    directory [out]: the handler finds the base [docs] and the output path
    [out/a.tmpl.md], logs both, returns nil, and renders nothing. *)
Theorem watchHandler_does_not_render :
  watchHandler ["src"; "docs"; "doc"] "out" "docs/a.tmpl.md"
  = ([LogInfo [("path", "docs/a.tmpl.md")] "File changed";
      LogInfo [("path", "docs/a.tmpl.md"); ("basePath", "docs");
               ("outputPath", "out/a.tmpl.md")] "File changed"], None)
  ∧ RenderFile "docs/a.tmpl.md" "out/a.tmpl.md"
    ∉ (watchHandler ["src"; "docs"; "doc"] "out" "docs/a.tmpl.md").1.
Proof.
  split; [vm_compute; reflexivity|].
  destruct (watchHandler_logs ["src"; "docs"; "doc"] "out" "docs/a.tmpl.md")
    as (_ & _ & _ & _ & _ & H).
  apply H.
Qed.

(** ** Cloning *)

Section CloneSpec.
Import Store.

(** *** Reading from a larger store *)

Lemma readStrings_mono r (h h' : heap) xs :
  h ⊆ h' → readStrings r h = Some xs → readStrings r h' = Some xs.
Proof.
  intros Hsub. destruct r as [l|]; simpl; [|done].
  destruct (h !! l) as [o|] eqn:Hl; [|done].
  by rewrite (lookup_weaken _ _ _ _ Hl Hsub).
Qed.

Lemma readPointers_mono r (h h' : heap) ptrs :
  h ⊆ h' → readPointers r h = Some ptrs → readPointers r h' = Some ptrs.
Proof.
  intros Hsub. destruct r as [l|]; simpl; [|done].
  destruct (h !! l) as [o|] eqn:Hl; [|done].
  by rewrite (lookup_weaken _ _ _ _ Hl Hsub).
Qed.

Lemma readDict_mono r (h h' : heap) m :
  h ⊆ h' → readDict r h = Some m → readDict r h' = Some m.
Proof.
  intros Hsub. destruct r as [l|]; simpl; [|done].
  destruct (h !! l) as [o|] eqn:Hl; [|done].
  by rewrite (lookup_weaken _ _ _ _ Hl Hsub).
Qed.

Lemma readParameter_mono r (h h' : heap) x :
  h ⊆ h' → readParameter r h = Some x → readParameter r h' = Some x.
Proof.
  intros Hsub. destruct r as [l|]; simpl; [|done].
  destruct (h !! l) as [o|] eqn:Hl; [|done].
  by rewrite (lookup_weaken _ _ _ _ Hl Hsub).
Qed.

Lemma readProgram_mono r (h h' : heap) x :
  h ⊆ h' → readProgram r h = Some x → readProgram r h' = Some x.
Proof.
  intros Hsub. destruct r as [l|]; simpl; [|done].
  destruct (h !! l) as [o|] eqn:Hl; [|done].
  by rewrite (lookup_weaken _ _ _ _ Hl Hsub).
Qed.

Lemma viewValue_mono v (h h' : heap) w :
  h ⊆ h' → viewValue v h = Some w → viewValue v h' = Some w.
Proof.
  intros Hsub. destruct v as [| | | |r|r]; simpl; try done.
  - destruct (readStrings r h) as [xs|] eqn:Hr; [|done].
    by rewrite (readStrings_mono _ _ _ _ Hsub Hr).
  - destruct (readDict r h) as [m|] eqn:Hr; [|done].
    by rewrite (readDict_mono _ _ _ _ Hsub Hr).
Qed.

Lemma viewParameter_Some (h : heap) r v :
  viewParameter h r = Some v ↔
  ∃ x w, readParameter r h = Some x ∧ viewValue (Param.Value x) h = Some w
         ∧ v = Param.mk (Param.Name x) (Param.Flag x) (Param.Short x)
                        (Param.Type_ x) w (Param.Raw x) (Param.NoValue x).
Proof.
  unfold viewParameter. split.
  - intros H. apply bind_Some in H as (x & Hx & H).
    apply bind_Some in H as (w & Hw & [= <-]). by exists x, w.
  - intros (x & w & -> & Hw & ->). simpl. by rewrite Hw.
Qed.

Lemma viewParameter_mono (h h' : heap) r v :
  h ⊆ h' → viewParameter h r = Some v → viewParameter h' r = Some v.
Proof.
  intros Hsub (x & w & Hx & Hw & ->)%viewParameter_Some.
  apply viewParameter_Some. exists x, w.
  split; [by eapply readParameter_mono|]. split; [by eapply viewValue_mono | done].
Qed.

Lemma viewParameters_mono r (h h' : heap) vs :
  h ⊆ h' → viewParameters r h = Some vs → viewParameters r h' = Some vs.
Proof.
  intros Hsub. unfold viewParameters. intros H.
  apply bind_Some in H as (ptrs & Hptrs & H).
  rewrite (readPointers_mono _ _ _ _ Hsub Hptrs). simpl.
  apply mapM_Some in H. apply mapM_Some.
  eapply Forall2_impl; [exact H|]. intros f v. by apply viewParameter_mono.
Qed.

Lemma snapshot_mono r (h h' : heap) P :
  h ⊆ h' → snapshot r h = Some P → snapshot r h' = Some P.
Proof.
  intros Hsub. unfold snapshot. intros H.
  apply bind_Some in H as (x & Hx & H).
  apply bind_Some in H as (verbs & Hverbs & H).
  apply bind_Some in H as (env & Henv & H).
  apply bind_Some in H as (rawFlags & HrawFlags & H).
  apply bind_Some in H as (flags & Hflags & H).
  apply bind_Some in H as (args & Hargs & H).
  apply bind_Some in H as (files & Hfiles & H).
  rewrite (readProgram_mono _ _ _ _ Hsub Hx). simpl.
  rewrite (readStrings_mono _ _ _ _ Hsub Hverbs). simpl.
  rewrite (readDict_mono _ _ _ _ Hsub Henv). simpl.
  rewrite (readStrings_mono _ _ _ _ Hsub HrawFlags). simpl.
  rewrite (viewParameters_mono _ _ _ _ Hsub Hflags). simpl.
  rewrite (viewParameters_mono _ _ _ _ Hsub Hargs). simpl.
  rewrite (readDict_mono _ _ _ _ Hsub Hfiles). simpl.
  done.
Qed.

(** *** Running step by step *)

Lemma bind_run {A B} (c : M A) (k : A → M B) (h h1 : heap) (a : A) :
  c h = Some (a, h1) → (c ≫= k) h = k a h1.
Proof. intros Hc. unfold mbind, M_bind. by rewrite Hc. Qed.

Lemma get_run {A} (read : heap → option A) (h : heap) (a : A) :
  read h = Some a → get read h = Some (a, h).
Proof. intros Hr. unfold get. by rewrite Hr. Qed.

Lemma fresh_None (h : heap) : h !! fresh (dom h) = None.
Proof. apply not_elem_of_dom. apply is_fresh. Qed.

Lemma param_eta (x : Param.t iface) :
  Param.mk (Param.Name x) (Param.Flag x) (Param.Short x) (Param.Type_ x)
           (Param.Value x) (Param.Raw x) (Param.NoValue x) = x.
Proof. by destruct x. Qed.

Lemma alloc_run (o : obj) (h : heap) :
  alloc o h = Some (fresh (dom h), <[fresh (dom h):=o]> h).
Proof. done. Qed.

Lemma makeStrings_run (n : nat) (h : heap) :
  makeStrings n h
  = Some (Some (fresh (dom h)), <[fresh (dom h):=OStrings (replicate n "")]> h).
Proof. done. Qed.

Lemma makePointers_run (n : nat) (h : heap) :
  makePointers n h
  = Some (Some (fresh (dom h)), <[fresh (dom h):=OPointers (replicate n None)]> h).
Proof. done. Qed.

Lemma makeDict_run (h : heap) :
  makeDict h = Some (Some (fresh (dom h)), <[fresh (dom h):=ODict ∅]> h).
Proof. done. Qed.

Lemma copyStrings_run (l : loc) (src : ref) (d s : list string) (h : heap) :
  h !! l = Some (OStrings d) → readStrings src h = Some s →
  copyStrings (Some l) src h
  = Some (tt, <[l:=OStrings (take (length d `min` length s) s
                             ++ drop (length d `min` length s) d)]> h).
Proof.
  intros Hl Hs. unfold copyStrings.
  rewrite (bind_run _ _ h h d) by (apply get_run; simpl; by rewrite Hl).
  rewrite (bind_run _ _ h h s) by by apply get_run.
  done.
Qed.

Lemma setString_run (l : loc) (i : nat) (v : string) (xs : list string) (h : heap) :
  h !! l = Some (OStrings xs) → i < length xs →
  setString (Some l) i v h = Some (tt, <[l:=OStrings (<[i:=v]> xs)]> h).
Proof.
  intros Hl Hi. unfold setString.
  rewrite (bind_run _ _ h h xs) by (apply get_run; simpl; by rewrite Hl).
  by rewrite decide_True.
Qed.

Lemma setPointer_run (l : loc) (i : nat) (v : ref) (ptrs : list ref) (h : heap) :
  h !! l = Some (OPointers ptrs) → i < length ptrs →
  setPointer (Some l) i v h = Some (tt, <[l:=OPointers (<[i:=v]> ptrs)]> h).
Proof.
  intros Hl Hi. unfold setPointer.
  rewrite (bind_run _ _ h h ptrs) by (apply get_run; simpl; by rewrite Hl).
  by rewrite decide_True.
Qed.

Lemma setEntry_run (l : loc) (k v : string) (m : gmap string string) (h : heap) :
  h !! l = Some (ODict m) →
  setEntry (Some l) k v h = Some (tt, <[l:=ODict (<[k:=v]> m)]> h).
Proof.
  intros Hl. unfold setEntry.
  by rewrite (bind_run _ _ h h m) by (apply get_run; simpl; by rewrite Hl).
Qed.

Lemma Parameter_Clone_run (f : ref) (x : Param.t iface) (h : heap) :
  readParameter f h = Some x →
  Parameter_Clone f h = Some (Some (fresh (dom h)), <[fresh (dom h):=OParameter x]> h).
Proof.
  intros Hx. unfold Parameter_Clone.
  rewrite (bind_run _ _ h h x) by by apply get_run.
  by rewrite param_eta.
Qed.

(** [make] and [copy] together. *)
Lemma cloneStrings_run (h : heap) r xs :
  readStrings r h = Some xs →
  ∃ l, h !! l = None ∧
       ∀ B (k : ref → M B),
         (c ← makeStrings (length xs); _ ← copyStrings c r; k c) h
         = k (Some l) (<[l:=OStrings xs]> h).
Proof.
  intros Hr. exists (fresh (dom h)). split; [apply fresh_None|].
  intros B k. set (l := fresh (dom h)).
  assert (Hl : h !! l = None) by apply fresh_None.
  rewrite (bind_run _ _ _ _ _ (makeStrings_run _ h)). fold l.
  erewrite bind_run.
  2:{ apply copyStrings_run; [apply lookup_insert_eq|].
      eapply readStrings_mono; [|exact Hr]. by apply insert_subseteq. }
  rewrite length_replicate, Nat.min_id.
  rewrite firstn_all, drop_replicate, Nat.sub_diag, app_nil_r.
  by rewrite insert_insert_eq.
Qed.

Lemma cloneInto_run (l : loc) ptrs xs :
  ∀ (h : heap) (done : list ref) (i : nat),
    Forall2 (λ f x, readParameter f h = Some x) ptrs xs →
    h !! l = Some (OPointers (done ++ replicate (length ptrs) None)) →
    i = length done →
    ∃ cs h',
      cloneInto (Some l) i ptrs h = Some (tt, h')
      ∧ delete l h ⊆ h'
      ∧ h' !! l = Some (OPointers (done ++ (Some <$> cs)))
      ∧ Forall2 (λ c x, h' !! c = Some (OParameter x)) cs xs
      ∧ Forall (λ c, c ∉ dom h) cs.
Proof.
  revert xs. induction ptrs as [|f ptrs IH]; intros xs h done i Hread Hl ->.
  { inversion Hread; subst. exists [], h. simpl in *. rewrite app_nil_r in *.
    split; [done|]. split; [apply delete_subseteq|]. by repeat split. }
  inversion Hread as [|? x ? xs' Hx Hrest]; subst.
  set (c := fresh (dom h)).
  assert (Hc : h !! c = None) by apply fresh_None.
  assert (Hcl : c ≠ l) by (intros Heq; rewrite Heq in Hc; congruence).
  set (h1 := <[c:=OParameter x]> h).
  set (arr := done ++ Some c :: replicate (length ptrs) None).
  set (h2 := <[l:=OPointers arr]> h1).
  assert (Hset : setPointer (Some l) (length done) (Some c) h1 = Some (tt, h2)).
  { rewrite (setPointer_run l (length done) (Some c)
               (done ++ None :: replicate (length ptrs) None) h1).
    - unfold h2, arr. do 3 f_equal.
      rewrite insert_app_r_alt by done. by rewrite Nat.sub_diag.
    - unfold h1. rewrite lookup_insert_ne by done. exact Hl.
    - rewrite length_app. simpl. lia. }
  destruct (IH xs' h2 (done ++ [Some c]) (S (length done)))
    as (cs & h' & Hrun & Hframe & Hl' & Hcs & Hfresh).
  - eapply Forall2_impl; [exact Hrest|]. intros f' x' Hf'.
    destruct f' as [lf'|]; [|done]. simpl in *.
    destruct (h !! lf') as [o|] eqn:Ho; [|done].
    assert (lf' ≠ c) by (intros Heq; rewrite Heq in Ho; congruence).
    assert (lf' ≠ l) by (intros Heq; rewrite Heq, Hl in Ho; by simplify_eq).
    unfold h2, h1. by rewrite !lookup_insert_ne, Ho by done.
  - unfold h2. rewrite lookup_insert_eq. unfold arr. by rewrite <- app_assoc.
  - rewrite length_app. simpl. lia.
  - exists (c :: cs), h'. split.
    { simpl. rewrite (bind_run _ _ _ _ _ (Parameter_Clone_run _ _ h Hx)).
      fold c. fold h1. rewrite (bind_run _ _ _ _ _ Hset). exact Hrun. }
    assert (Hdel : delete l h ⊆ delete l h2).
    { unfold h2, h1. rewrite delete_insert_eq.
      rewrite delete_insert_ne by done.
      apply insert_subseteq. rewrite lookup_delete_ne by done. exact Hc. }
    split; [by etrans|]. split.
    { rewrite Hl'. csimpl. by rewrite <- app_assoc. }
    split.
    + constructor; [|done]. eapply lookup_weaken; [|exact Hframe].
      rewrite lookup_delete_ne by done. unfold h2, h1.
      rewrite lookup_insert_ne by done. by rewrite lookup_insert_eq.
    + constructor; [by apply not_elem_of_dom|].
      eapply Forall_impl; [exact Hfresh|]. intros c' Hc' Hin. apply Hc'.
      unfold h2, h1. rewrite !dom_insert_L. set_solver.
Qed.

Lemma cloneParameters_run (h : heap) ptrs xs :
  Forall2 (λ f x, readParameter f h = Some x) ptrs xs →
  ∃ l cs h',
    h !! l = None ∧ h ⊆ h'
    ∧ h' !! l = Some (OPointers (Some <$> cs))
    ∧ Forall2 (λ c x, h' !! c = Some (OParameter x)) cs xs
    ∧ Forall (λ c, c ∉ dom h) cs
    ∧ ∀ B (k : ref → M B),
        (c ← makePointers (length ptrs); _ ← cloneInto c 0 ptrs; k c) h
        = k (Some l) h'.
Proof.
  intros Hread. set (l := fresh (dom h)).
  assert (Hl : h !! l = None) by apply fresh_None.
  set (h1 := <[l:=OPointers (replicate (length ptrs) None)]> h).
  assert (Hsub : h ⊆ h1) by by apply insert_subseteq.
  destruct (cloneInto_run l ptrs xs h1 [] 0)
    as (cs & h' & Hrun & Hframe & Hl' & Hcs & Hfresh).
  - eapply Forall2_impl; [exact Hread|]. intros f x. by apply readParameter_mono.
  - unfold h1. by rewrite lookup_insert_eq.
  - done.
  - exists l, cs, h'. split; [done|].
    unfold h1 in Hframe. rewrite delete_insert_id in Hframe by done.
    split; [done|]. split; [done|]. split; [done|]. split.
    + eapply Forall_impl; [exact Hfresh|]. intros c Hc Hin. apply Hc.
      unfold h1. rewrite dom_insert_L. set_solver.
    + intros B k. rewrite (bind_run _ _ _ _ _ (makePointers_run _ h)).
      fold l. fold h1. by rewrite (bind_run _ _ _ _ _ Hrun).
Qed.

Lemma copyEntries_run (l : loc) entries :
  ∀ (m : gmap string string) (h : heap),
    h !! l = Some (ODict m) →
    copyEntries (Some l) entries h
    = Some (tt, <[l:=ODict (foldl (λ acc kv, <[kv.1:=kv.2]> acc) m entries)]> h).
Proof.
  induction entries as [|kv entries IH]; intros m h Hl; simpl.
  - by rewrite insert_id.
  - rewrite (bind_run _ _ _ _ _ (setEntry_run l kv.1 kv.2 m h Hl)).
    rewrite (IH (<[kv.1:=kv.2]> m)) by apply lookup_insert_eq.
    by rewrite insert_insert_eq.
Qed.

Lemma foldl_insert_reverse (entries : list (string * string)) :
  foldl (λ acc kv, <[kv.1:=kv.2]> acc) (∅ : gmap string string) (reverse entries)
  = list_to_map entries.
Proof.
  induction entries as [|kv entries IH]; [done|].
  rewrite reverse_cons, foldl_snoc, IH. done.
Qed.

(** Copying a map entry by entry gives the map, whatever the order. *)
Lemma foldl_insert_map_to_list (m : gmap string string) :
  foldl (λ acc kv, <[kv.1:=kv.2]> acc) ∅ (map_to_list m) = m.
Proof.
  rewrite <- (list_to_map_to_list m) at 2.
  rewrite <- (reverse_involutive (map_to_list m)) at 1.
  rewrite foldl_insert_reverse.
  apply (list_to_map_proper (M := gmap string)).
  - rewrite fmap_reverse, reverse_Permutation. apply NoDup_fst_map_to_list.
  - apply reverse_Permutation.
Qed.

Lemma cloneDict_run (h : heap) (m : gmap string string) :
  ∃ l, h !! l = None ∧
       ∀ B (k : ref → M B),
         (c ← makeDict; _ ← copyEntries c (map_to_list m); k c) h
         = k (Some l) (<[l:=ODict m]> h).
Proof.
  exists (fresh (dom h)). split; [apply fresh_None|]. intros B k.
  rewrite (bind_run _ _ _ _ _ (makeDict_run h)).
  erewrite bind_run by (apply copyEntries_run; apply lookup_insert_eq).
  by rewrite foldl_insert_map_to_list, insert_insert_eq.
Qed.

(** What [Clone] allocates and what it stores there. *)
Lemma Clone_run (p : ref) (h : heap) orig rawFlags fptrs fxs aptrs axs env files :
  readProgram p h = Some orig →
  readStrings (Prog.RawFlags orig) h = Some rawFlags →
  readPointers (Prog.Flags orig) h = Some fptrs →
  Forall2 (λ f x, readParameter f h = Some x) fptrs fxs →
  readPointers (Prog.Args orig) h = Some aptrs →
  Forall2 (λ f x, readParameter f h = Some x) aptrs axs →
  readDict (Prog.Env orig) h = Some env →
  readDict (Prog.ExpectedFiles orig) h = Some files →
  ∃ lc l1 l2 cs2 l3 cs3 l4 l5 h',
    Clone p h = Some (Some lc, h')
    ∧ h ⊆ h'
    ∧ h' !! lc = Some (OProgram
        (Prog.mk (Prog.Name orig) (Prog.Path orig) (Prog.Verbs orig)
                 (Prog.Description orig) (Some l4) (Some l1) (Some l2) (Some l3)
                 (Prog.Stdin orig) (Prog.ExpectedStdout orig)
                 (Prog.ExpectedError orig) (Prog.ExpectedStatusCode orig)
                 (Some l5)))
    ∧ h' !! l1 = Some (OStrings rawFlags)
    ∧ h' !! l2 = Some (OPointers (Some <$> cs2))
    ∧ Forall2 (λ c x, h' !! c = Some (OParameter x)) cs2 fxs
    ∧ h' !! l3 = Some (OPointers (Some <$> cs3))
    ∧ Forall2 (λ c x, h' !! c = Some (OParameter x)) cs3 axs
    ∧ h' !! l4 = Some (ODict env)
    ∧ h' !! l5 = Some (ODict files)
    ∧ Forall (λ l, l ∉ dom h) ([lc; l1; l2; l3; l4; l5] ++ cs2 ++ cs3).
Proof.
  intros Horig HrawFlags Hfptrs Hfxs Haptrs Haxs Henv Hfiles.
  (* RawFlags *)
  destruct (cloneStrings_run h _ _ HrawFlags) as (l1 & Hl1 & Hk1).
  set (h1 := <[l1:=OStrings rawFlags]> h) in *.
  assert (H01 : h ⊆ h1) by by apply insert_subseteq.
  (* Flags *)
  destruct (cloneParameters_run h1 fptrs fxs)
    as (l2 & cs2 & h2 & Hl2 & H12 & Hl2' & Hcs2 & Hfresh2 & Hk2).
  { eapply Forall2_impl; [exact Hfxs|]. intros f x. by apply readParameter_mono. }
  assert (H02 : h ⊆ h2) by by etrans.
  (* Args *)
  destruct (cloneParameters_run h2 aptrs axs)
    as (l3 & cs3 & h3 & Hl3 & H23 & Hl3' & Hcs3 & Hfresh3 & Hk3).
  { eapply Forall2_impl; [exact Haxs|]. intros f x. by apply readParameter_mono. }
  assert (H03 : h ⊆ h3) by by etrans.
  (* Env *)
  destruct (cloneDict_run h3 env) as (l4 & Hl4 & Hk4).
  set (h4 := <[l4:=ODict env]> h3) in *.
  assert (H34 : h3 ⊆ h4) by by apply insert_subseteq.
  assert (H04 : h ⊆ h4) by by etrans.
  (* ExpectedFiles *)
  destruct (cloneDict_run h4 files) as (l5 & Hl5 & Hk5).
  set (h5 := <[l5:=ODict files]> h4) in *.
  assert (H45 : h4 ⊆ h5) by by apply insert_subseteq.
  assert (H05 : h ⊆ h5) by by etrans.
  (* the struct *)
  set (lc := fresh (dom h5)).
  assert (Hlc : h5 !! lc = None) by apply fresh_None.
  set (clone := Prog.mk (Prog.Name orig) (Prog.Path orig) (Prog.Verbs orig)
                 (Prog.Description orig) (Some l4) (Some l1) (Some l2) (Some l3)
                 (Prog.Stdin orig) (Prog.ExpectedStdout orig)
                 (Prog.ExpectedError orig) (Prog.ExpectedStatusCode orig)
                 (Some l5)).
  set (h6 := <[lc:=OProgram clone]> h5).
  assert (H56 : h5 ⊆ h6) by by apply insert_subseteq.
  assert (H26 : h2 ⊆ h6) by (etrans; [exact H23|]; etrans; [exact H34|]; by etrans).
  assert (H36 : h3 ⊆ h6) by (etrans; [exact H34|]; by etrans).
  exists lc, l1, l2, cs2, l3, cs3, l4, l5, h6.
  split.
  { unfold Clone.
    rewrite (bind_run _ _ h h orig) by by apply get_run.
    rewrite (bind_run _ _ h h rawFlags) by by apply get_run.
    rewrite Hk1.
    rewrite (bind_run _ _ h1 h1 fptrs)
      by (apply get_run; by eapply readPointers_mono).
    rewrite Hk2.
    rewrite (bind_run _ _ h2 h2 aptrs)
      by (apply get_run; by eapply readPointers_mono).
    rewrite Hk3.
    rewrite (bind_run _ _ h3 h3 env) by (apply get_run; by eapply readDict_mono).
    rewrite Hk4.
    rewrite (bind_run _ _ h4 h4 files) by (apply get_run; by eapply readDict_mono).
    rewrite Hk5.
    rewrite (bind_run _ _ _ _ _ (alloc_run _ h5)). done. }
  split; [by etrans|].
  split; [apply lookup_insert_eq|].
  split.
  { eapply lookup_weaken; [apply lookup_insert_eq|].
    etrans; [exact H12|]. exact H26. }
  split; [exact (lookup_weaken _ _ _ _ Hl2' H26)|].
  split.
  { eapply Forall2_impl; [exact Hcs2|]. intros c x Hc.
    exact (lookup_weaken _ _ _ _ Hc H26). }
  split; [exact (lookup_weaken _ _ _ _ Hl3' H36)|].
  split.
  { eapply Forall2_impl; [exact Hcs3|]. intros c x Hc.
    exact (lookup_weaken _ _ _ _ Hc H36). }
  split.
  { eapply lookup_weaken; [apply lookup_insert_eq|]. by etrans. }
  split.
  { eapply lookup_weaken; [apply lookup_insert_eq|]. done. }
  assert (Hd : ∀ (a b : heap) l, a ⊆ b → b !! l = None → l ∉ dom a).
  { intros a b l Hab Hb. apply not_elem_of_dom.
    destruct (a !! l) as [o|] eqn:Ha; [|done].
    by rewrite (lookup_weaken _ _ _ _ Ha Hab) in Hb. }
  rewrite !Forall_app. split; [|split].
  - repeat constructor.
    + by apply (Hd h h5).
    + by apply (Hd h h).
    + by apply (Hd h h1).
    + by apply (Hd h h2).
    + by apply (Hd h h3).
    + by apply (Hd h h4).
  - eapply Forall_impl; [exact Hfresh2|]. intros c Hc Hin. apply Hc.
    by apply (subseteq_dom _ _ H01).
  - eapply Forall_impl; [exact Hfresh3|]. intros c Hc Hin. apply Hc.
    by apply (subseteq_dom _ _ H02).
Qed.

(** *** Parameters as values *)

Lemma valueOf_mono (h h' : heap) x v : h ⊆ h' → valueOf h x v → valueOf h' x v.
Proof. intros Hsub (w & Hw & ->). exists w. split; [by eapply viewValue_mono | done]. Qed.

Lemma viewParameters_Some r (h : heap) vs :
  viewParameters r h = Some vs ↔
  ∃ ptrs xs,
    readPointers r h = Some ptrs
    ∧ Forall2 (λ f x, readParameter f h = Some x) ptrs xs
    ∧ Forall2 (valueOf h) xs vs.
Proof.
  unfold viewParameters. split.
  - intros H. apply bind_Some in H as (ptrs & Hptrs & H). apply mapM_Some in H.
    exists ptrs.
    assert (Hxs : ∃ xs, Forall2 (λ f x, readParameter f h = Some x) ptrs xs
                        ∧ Forall2 (valueOf h) xs vs).
    { clear Hptrs. induction H as [|f v ptrs vs Hv _ (xs & Hxs & Hvs)].
      - exists []. split; constructor.
      - apply viewParameter_Some in Hv as (x & w & Hx & Hw & ->).
        exists (x :: xs). split; constructor; try done. by exists w. }
    destruct Hxs as (xs & Hxs & Hvs). by exists xs.
  - intros (ptrs & xs & -> & Hxs & Hvs). simpl. apply mapM_Some.
    revert vs Hvs. induction Hxs as [|f x ptrs xs Hx _ IH]; intros vs Hvs.
    + inversion Hvs. constructor.
    + inversion Hvs as [|? v ? vs' (w & Hw & ->) Hvs']; subst.
      constructor; [|by apply IH].
      apply viewParameter_Some. by exists x, w.
Qed.

Lemma readParameters_Some r (h : heap) xs :
  readParameters r h = Some xs ↔
  ∃ ptrs, readPointers r h = Some ptrs
          ∧ Forall2 (λ f x, readParameter f h = Some x) ptrs xs.
Proof.
  unfold readParameters. split.
  - intros H. apply bind_Some in H as (ptrs & Hptrs & H). apply mapM_Some in H.
    by exists ptrs.
  - intros (ptrs & -> & H). simpl. by apply mapM_Some.
Qed.

Lemma snapshot_Some r (h : heap) P :
  snapshot r h = Some P ↔
  ∃ x verbs env rawFlags flags args files,
    readProgram r h = Some x
    ∧ readStrings (Prog.Verbs x) h = Some verbs
    ∧ readDict (Prog.Env x) h = Some env
    ∧ readStrings (Prog.RawFlags x) h = Some rawFlags
    ∧ viewParameters (Prog.Flags x) h = Some flags
    ∧ viewParameters (Prog.Args x) h = Some args
    ∧ readDict (Prog.ExpectedFiles x) h = Some files
    ∧ P = Prog.mk (Prog.Name x) (Prog.Path x) verbs (Prog.Description x) env
                  rawFlags flags args (Prog.Stdin x) (Prog.ExpectedStdout x)
                  (Prog.ExpectedError x) (Prog.ExpectedStatusCode x) files.
Proof.
  unfold snapshot. split.
  - intros H.
    apply bind_Some in H as (x & Hx & H).
    apply bind_Some in H as (verbs & Hverbs & H).
    apply bind_Some in H as (env & Henv & H).
    apply bind_Some in H as (rawFlags & HrawFlags & H).
    apply bind_Some in H as (flags & Hflags & H).
    apply bind_Some in H as (args & Hargs & H).
    apply bind_Some in H as (files & Hfiles & [= <-]).
    by exists x, verbs, env, rawFlags, flags, args, files.
  - intros (x & verbs & env & rawFlags & flags & args & files
            & -> & Hverbs & Henv & HrawFlags & Hflags & Hargs & Hfiles & ->).
    simpl. rewrite Hverbs. simpl. rewrite Henv. simpl. rewrite HrawFlags. simpl.
    rewrite Hflags. simpl. rewrite Hargs. simpl. by rewrite Hfiles.
Qed.

Lemma Forall2_lookup_readParameter (h : heap) cs (xs : list (Param.t iface)) :
  Forall2 (λ c x, h !! c = Some (OParameter x)) cs xs →
  Forall2 (λ f x, readParameter f h = Some x) (Some <$> cs) xs.
Proof.
  intros H. apply Forall2_fmap_l. eapply Forall2_impl; [exact H|].
  intros c x Hc. simpl. by rewrite Hc.
Qed.

(** *** The storage of a program and what is read from it *)

Lemma pointees_Some (h : heap) l cs :
  h !! l = Some (OPointers (Some <$> cs)) →
  pointees (Some l) h = list_to_set cs.
Proof.
  intros Hl. unfold pointees. simpl. rewrite Hl. clear Hl.
  induction cs as [|c cs IH]; csimpl; [done|]. by rewrite IH.
Qed.

Lemma readStrings_agree r (h h' : heap) :
  (∀ l, l ∈ refLocs r → h' !! l = h !! l) → readStrings r h' = readStrings r h.
Proof.
  destruct r as [l|]; simpl; [|done]. intros H. rewrite H; [done | set_solver].
Qed.

Lemma readDict_agree r (h h' : heap) :
  (∀ l, l ∈ refLocs r → h' !! l = h !! l) → readDict r h' = readDict r h.
Proof.
  destruct r as [l|]; simpl; [|done]. intros H. rewrite H; [done | set_solver].
Qed.

Lemma readPointers_agree r (h h' : heap) :
  (∀ l, l ∈ refLocs r → h' !! l = h !! l) → readPointers r h' = readPointers r h.
Proof.
  destruct r as [l|]; simpl; [|done]. intros H. rewrite H; [done | set_solver].
Qed.

Lemma readParameters_agree r (h h' : heap) xs :
  (∀ l, l ∈ refLocs r ∪ pointees r h → h' !! l = h !! l) →
  readParameters r h = Some xs → readParameters r h' = Some xs.
Proof.
  intros Hagree (ptrs & Hptrs & Hxs)%readParameters_Some.
  apply readParameters_Some. exists ptrs. split.
  - rewrite <- Hptrs. apply readPointers_agree. intros l Hl. apply Hagree. set_solver.
  - unfold pointees in Hagree. rewrite Hptrs in Hagree.
    assert (Hin : ∀ l, l ∈ ⋃ (refLocs <$> ptrs) → h' !! l = h !! l).
    { intros l Hl. apply Hagree. set_solver. }
    clear Hagree Hptrs. induction Hxs as [|f x ptrs xs Hx _ IH]; constructor.
    + destruct f as [lf|]; [|done]. simpl in *. rewrite Hin; [done|]. set_solver.
    + apply IH. intros l Hl. apply Hin. csimpl. set_solver.
Qed.

(** What is read from the storage of a program depends on that storage only. *)
Lemma ownParts_agree r (h h' : heap) parts :
  ownParts r h = Some parts →
  (∀ l, l ∈ owned r h → h' !! l = h !! l) →
  ownParts r h' = Some parts.
Proof.
  unfold ownParts, owned. intros H Hagree.
  apply bind_Some in H as (x & Hx & H). rewrite Hx in Hagree.
  apply bind_Some in H as (rawFlags & HrawFlags & H).
  apply bind_Some in H as (flags & Hflags & H).
  apply bind_Some in H as (args & Hargs & H).
  apply bind_Some in H as (env & Henv & H).
  apply bind_Some in H as (files & Hfiles & [= <-]).
  assert (Hx' : readProgram r h' = Some x).
  { destruct r as [l|]; [|done]. simpl in *. rewrite Hagree; [done|]. set_solver. }
  rewrite Hx'. simpl.
  rewrite (readStrings_agree (Prog.RawFlags x) h h'), HrawFlags by (intros l ?; apply Hagree; set_solver).
  simpl.
  rewrite (readParameters_agree (Prog.Flags x) h h' flags);
    [|intros l Hin; apply Hagree; revert Hin; rewrite !elem_of_union; tauto|done].
  simpl.
  rewrite (readParameters_agree (Prog.Args x) h h' args);
    [|intros l Hin; apply Hagree; revert Hin; rewrite !elem_of_union; tauto|done].
  simpl.
  rewrite (readDict_agree (Prog.Env x) h h'), Henv by (intros l ?; apply Hagree; set_solver).
  simpl.
  rewrite (readDict_agree (Prog.ExpectedFiles x) h h'), Hfiles by (intros l ?; apply Hagree; set_solver).
  done.
Qed.

(** What [Clone] returns for a program that can be read from the store. *)
Lemma Clone_layout (p : ref) (h : heap) (P : ProgramOf GoValue) :
  snapshot p h = Some P →
  ∃ c h' parts origParts,
    Clone p h = Some (c, h')
    ∧ h ⊆ h'
    ∧ snapshot c h' = Some P
    ∧ owned c h' ## dom h
    ∧ ownParts c h' = Some parts
    ∧ ownParts p h = Some origParts
    ∧ partRawFlags parts = partRawFlags origParts
    ∧ partFlags parts = partFlags origParts
    ∧ partArgs parts = partArgs origParts
    ∧ partEnv parts = partEnv origParts
    ∧ partExpectedFiles parts = partExpectedFiles origParts.
Proof.
  intros Hsnap.
  apply snapshot_Some in Hsnap
    as (x & verbs & env & rawFlags & flags & args & files
        & Hx & Hverbs & Henv & HrawFlags & Hflags & Hargs & Hfiles & ->).
  apply viewParameters_Some in Hflags as (fptrs & fxs & Hfptrs & Hfxs & Hfvs).
  apply viewParameters_Some in Hargs as (aptrs & axs & Haptrs & Haxs & Havs).
  destruct (Clone_run p h x rawFlags fptrs fxs aptrs axs env files)
    as (lc & l1 & l2 & cs2 & l3 & cs3 & l4 & l5 & h' & Hrun & Hsub & Hlc & Hl1
        & Hl2 & Hcs2 & Hl3 & Hcs3 & Hl4 & Hl5 & Hfresh); try done.
  set (clone := Prog.mk (Prog.Name x) (Prog.Path x) (Prog.Verbs x)
                 (Prog.Description x) (Some l4) (Some l1) (Some l2) (Some l3)
                 (Prog.Stdin x) (Prog.ExpectedStdout x)
                 (Prog.ExpectedError x) (Prog.ExpectedStatusCode x)
                 (Some l5)) in *.
  assert (Hclone : readProgram (Some lc) h' = Some clone) by (simpl; by rewrite Hlc).
  assert (Hparts : ownParts (Some lc) h'
                   = Some (mkParts clone rawFlags fxs axs env files)).
  { unfold ownParts. rewrite Hclone. simpl. rewrite Hl1. simpl.
    rewrite (proj2 (readParameters_Some (Some l2) h' fxs)).
    2:{ exists (Some <$> cs2). split; [simpl; by rewrite Hl2|].
        by apply Forall2_lookup_readParameter. }
    simpl.
    rewrite (proj2 (readParameters_Some (Some l3) h' axs)).
    2:{ exists (Some <$> cs3). split; [simpl; by rewrite Hl3|].
        by apply Forall2_lookup_readParameter. }
    simpl. rewrite Hl4. simpl. by rewrite Hl5. }
  assert (Howned : ∀ l, l ∈ owned (Some lc) h' → l ∉ dom h).
  { intros l. unfold owned. rewrite Hclone. simpl.
    rewrite (pointees_Some h' l2 cs2 Hl2), (pointees_Some h' l3 cs3 Hl3).
    rewrite !Forall_app, !Forall_forall in Hfresh.
    destruct Hfresh as (Hnew & Hnew2 & Hnew3).
    rewrite !elem_of_union, !elem_of_singleton, !elem_of_list_to_set.
    intros [[[[[[[->| ->]| ->]|Hin]| ->]|Hin]| ->]| ->];
      first [by apply Hnew2 | by apply Hnew3 | apply Hnew; set_solver]. }
  exists (Some lc), h', (mkParts clone rawFlags fxs axs env files),
         (mkParts x rawFlags fxs axs env files).
  split; [done|]. split; [done|]. split.
  { apply snapshot_Some.
    exists clone, verbs, env, rawFlags, flags, args, files.
    split; [done|]. split; [by eapply readStrings_mono|].
    split; [simpl; by rewrite Hl4|]. split; [simpl; by rewrite Hl1|].
    split.
    { apply viewParameters_Some. exists (Some <$> cs2), fxs.
      split; [simpl; by rewrite Hl2|].
      split; [by apply Forall2_lookup_readParameter|].
      eapply Forall2_impl; [exact Hfvs|]. intros ? ?. by apply valueOf_mono. }
    split.
    { apply viewParameters_Some. exists (Some <$> cs3), axs.
      split; [simpl; by rewrite Hl3|].
      split; [by apply Forall2_lookup_readParameter|].
      eapply Forall2_impl; [exact Havs|]. intros ? ?. by apply valueOf_mono. }
    split; [simpl; by rewrite Hl5 | done]. }
  split.
  { apply elem_of_disjoint. intros l Hl Hd. by apply (Howned l). }
  split; [done|]. split.
  { unfold ownParts. rewrite Hx. simpl. rewrite HrawFlags. simpl.
    rewrite (proj2 (readParameters_Some (Prog.Flags x) h fxs)) by by exists fptrs.
    simpl.
    rewrite (proj2 (readParameters_Some (Prog.Args x) h axs)) by by exists aptrs.
    simpl. rewrite Henv. simpl. by rewrite Hfiles. }
  done.
Qed.

(** A store that differs from [h'] only in storage that was not in use in
    [h] reads as [h] wherever [h] holds something. *)
Lemma agree_outside_new (h h' h'' : heap) (new : gset loc) :
  h ⊆ h' → new ## dom h →
  (∀ l, l ∉ new → h'' !! l = h' !! l) →
  h ⊆ h''.
Proof.
  intros Hsub Hnew Hagree. apply map_subseteq_spec. intros l o Hl.
  rewrite Hagree.
  - by eapply lookup_weaken.
  - intros Hin. rewrite elem_of_disjoint in Hnew. apply (Hnew l Hin).
    by apply elem_of_dom.
Qed.

(** C3, as the code has it.  For a program that can be read from the store,
    Clone returns a copy with the same content.  The copy has storage of
    its own, none of it in use before, for its struct, for the backing
    arrays of RawFlags, Flags and Args, for its Parameter structs and for
    the maps Env and ExpectedFiles; what that storage holds (a Value as the
    interface value it is, a list or a map by reference) is what the
    original's holds.  Whatever is written into the copy's own storage
    leaves the original as it was, and whatever is written elsewhere, in
    the original's own storage for one, leaves what is read from the copy's
    own storage as it was. *)
Theorem Clone_independent (p : ref) (h : heap) (P : ProgramOf GoValue) :
  snapshot p h = Some P →
  ∃ c h' parts origParts,
    Clone p h = Some (c, h')
    ∧ snapshot c h' = Some P
    ∧ owned c h' ## dom h
    ∧ ownParts c h' = Some parts
    ∧ ownParts p h = Some origParts
    ∧ partRawFlags parts = partRawFlags origParts
    ∧ partFlags parts = partFlags origParts
    ∧ partArgs parts = partArgs origParts
    ∧ partEnv parts = partEnv origParts
    ∧ partExpectedFiles parts = partExpectedFiles origParts
    ∧ (∀ h'' : heap, (∀ l, l ∉ owned c h' → h'' !! l = h' !! l) →
                     snapshot p h'' = Some P)
    ∧ (∀ h'' : heap, (∀ l, l ∈ owned c h' → h'' !! l = h' !! l) →
                     ownParts c h'' = Some parts).
Proof.
  intros Hsnap.
  destruct (Clone_layout p h P Hsnap)
    as (c & h' & parts & origParts & Hrun & Hsub & Hcopy & Hnew & Hparts & Horig & Heq).
  exists c, h', parts, origParts.
  do 5 (split; [done|]).
  destruct Heq as (? & ? & ? & ? & ?). do 5 (split; [done|]). split.
  - intros h'' Hagree. eapply snapshot_mono; [|exact Hsnap].
    by eapply agree_outside_new.
  - intros h'' Hagree. by eapply ownParts_agree.
Qed.

(** *** The setters, applied to a copy *)

Lemma bind_run_inv {A B} (c : M A) (k : A → M B) (h : heap) (r : B * heap) :
  (c ≫= k) h = Some r → ∃ a h1, c h = Some (a, h1) ∧ k a h1 = Some r.
Proof.
  unfold mbind, M_bind. destruct (c h) as [[a h1]|]; [|done]. intros H. by exists a, h1.
Qed.

Lemma get_run_inv {A} (read : heap → option A) (h h1 : heap) (a : A) :
  get read h = Some (a, h1) → read h = Some a ∧ h1 = h.
Proof. unfold get. destruct (read h); simpl; [|done]. by intros [= -> ->]. Qed.

(** The loop of a setter writes to the Parameter structs of the list, and
    nowhere else. *)
Lemma assignByName_frame ptrs name update :
  ∀ (h h' : heap) (found : bool),
    assignByName ptrs name update h = Some (found, h') →
    ∀ l, l ∉ ⋃ (refLocs <$> ptrs) → h' !! l = h !! l.
Proof.
  induction ptrs as [|f ptrs IH]; intros h h' found Hrun l Hl.
  { by injection Hrun as _ <-. }
  simpl in Hrun. apply bind_run_inv in Hrun as (x & h1 & Hx & Hrun).
  apply get_run_inv in Hx as [Hx ->].
  destruct (decide (Param.Name x = name)).
  - destruct f as [lf|]; [|done]. injection Hrun as _ <-.
    rewrite lookup_insert_ne; [done|]. intros <-. apply Hl. csimpl. set_solver.
  - eapply IH; [exact Hrun|]. intros Hin. apply Hl. csimpl. set_solver.
Qed.

Lemma setter_frame (p : ref) (field : Prog.t ref ref ref → ref)
    (name : string) (update : Param.t iface → Param.t iface)
    (report : bool → option error) (h h' : heap) (err : option error) :
  (x ← get (readProgram p);
   ptrs ← get (readPointers (field x));
   found ← assignByName ptrs name update;
   mret (report found)) h = Some (err, h') →
  (∀ x, readProgram p h = Some x → pointees (field x) h ⊆ owned p h) →
  ∀ l, l ∉ owned p h → h' !! l = h !! l.
Proof.
  intros Hrun Hfield l Hl.
  apply bind_run_inv in Hrun as (x & h1 & Hx & Hrun).
  apply get_run_inv in Hx as [Hx ->].
  apply bind_run_inv in Hrun as (ptrs & h1 & Hptrs & Hrun).
  apply get_run_inv in Hptrs as [Hptrs ->].
  apply bind_run_inv in Hrun as (found & h1 & Hassign & Hrun).
  injection Hrun as _ <-.
  eapply assignByName_frame; [exact Hassign|].
  intros Hin. apply Hl. apply (Hfield x Hx).
  unfold pointees. by rewrite Hptrs.
Qed.

Lemma pointees_Flags_owned (p : ref) (h : heap) x :
  readProgram p h = Some x → pointees (Prog.Flags x) h ⊆ owned p h.
Proof. intros Hx. unfold owned. rewrite Hx. set_solver. Qed.

Lemma pointees_Args_owned (p : ref) (h : heap) x :
  readProgram p h = Some x → pointees (Prog.Args x) h ⊆ owned p h.
Proof. intros Hx. unfold owned. rewrite Hx. set_solver. Qed.

(** SetFlagValue, SetFlagRaw, SetArgValue and SetArgRaw write to the
    Parameter structs of the program they are called on. *)
Lemma setters_frame (p : ref) (name : string) (h h' : heap) (err : option error) :
  (∃ value, SetFlagValue p name value h = Some (err, h'))
  ∨ (∃ raw, SetFlagRaw p name raw h = Some (err, h'))
  ∨ (∃ value, SetArgValue p name value h = Some (err, h'))
  ∨ (∃ raw, SetArgRaw p name raw h = Some (err, h')) →
  ∀ l, l ∉ owned p h → h' !! l = h !! l.
Proof.
  intros [[value Hrun]|[[raw Hrun]|[[value Hrun]|[raw Hrun]]]].
  - eapply setter_frame; [exact Hrun|]. apply pointees_Flags_owned.
  - eapply setter_frame; [exact Hrun|]. apply pointees_Flags_owned.
  - eapply setter_frame; [exact Hrun|]. apply pointees_Args_owned.
  - eapply setter_frame; [exact Hrun|]. apply pointees_Args_owned.
Qed.

(** X18. Setting the Value or the Raw of a flag or of an arg of a copy, with
    SetFlagValue, SetFlagRaw, SetArgValue or SetArgRaw, leaves the original
    as it was, whether the setter finds the name or not. *)
Lemma Clone_then_set (p c : ref) (h h' h'' : heap) (P : ProgramOf GoValue)
    (name : string) (err : option error) :
  snapshot p h = Some P →
  Clone p h = Some (c, h') →
  (∃ value, SetFlagValue c name value h' = Some (err, h''))
  ∨ (∃ raw, SetFlagRaw c name raw h' = Some (err, h''))
  ∨ (∃ value, SetArgValue c name value h' = Some (err, h''))
  ∨ (∃ raw, SetArgRaw c name raw h' = Some (err, h'')) →
  snapshot p h'' = Some P.
Proof.
  intros Hsnap Hrun Hset.
  destruct (Clone_layout p h P Hsnap)
    as (c' & h1 & parts & origParts & Hrun' & Hsub & _ & Hnew & _).
  rewrite Hrun in Hrun'. injection Hrun' as <- <-.
  eapply snapshot_mono; [|exact Hsnap].
  eapply agree_outside_new; [exact Hsub | exact Hnew|].
  by eapply setters_frame.
Qed.

End CloneSpec.

(** *** A program in a store *)

Example sample_snapshot : Store.snapshot sampleRef sampleHeap = Some sampleSnapshot.
Proof. vm_compute. reflexivity. Qed.

Example original_after_SetFlagValue :
  originalAfter (λ c, _ ← Store.SetFlagValue c "tags" (Store.IString "z"); mret tt)
  = Some sampleSnapshot.
Proof. vm_compute. reflexivity. Qed.

Example original_after_setRawFlag :
  originalAfter (λ c, Store.setRawFlag c 0 "-a") = Some sampleSnapshot.
Proof. vm_compute. reflexivity. Qed.

(** C3 fails as stated: the clone's Verbs slice has the original's backing
    array, and a Value that is a list is the original's list.  Writing an
    element of either through the clone changes the original. *)
Lemma Clone_shares_Verbs_and_Value_contents :
  verbsOf (Store.snapshot sampleRef sampleHeap) = Some ["run"]
  ∧ verbsOf (originalAfter (λ c, Store.setVerb c 0 "walk")) = Some ["walk"]
  ∧ flagValuesOf (Store.snapshot sampleRef sampleHeap) = Some [VStrings ["a"; "b"]]
  ∧ flagValuesOf (originalAfter (λ c, Store.setFlagValueElem c 0 0 "z"))
    = Some [VStrings ["z"; "b"]].
Proof. vm_compute. repeat split. Qed.

(** * The theorems at the sample programs *)

Lemma ComputeArgs_order_witness :
  ComputeArgs renderPlain countProgram {["count" := VInt 5]}
  = Ok ["run"; "-r"; "-n"; "5"; "--verbose"; "in.txt"]
  ∧ ∃ (fl : list (list string)) (al : list string),
      Forall2 (λ f toks, flagsBody renderPlain {["count" := VInt 5]} [] f = Ok toks)
              (Prog.Flags countProgram) fl
      ∧ Forall2 (λ a v, argsBody renderPlain {["count" := VInt 5]} [] a = Ok [v])
                (Prog.Args countProgram) al
      ∧ ["run"; "-r"; "-n"; "5"; "--verbose"; "in.txt"]
        = Prog.Verbs countProgram ++ Prog.RawFlags countProgram ++ concat fl ++ al.
Proof.
  split; [vm_compute; reflexivity|].
  apply (ComputeArgs_order renderPlain countProgram {["count" := VInt 5]}).
  vm_compute; reflexivity.
Defined.

Lemma ComputeArgs_deterministic_witness :
  (∀ x v, x ∈ Prog.Flags countProgram ++ Prog.Args countProgram →
          v = Param.Value x
          ∨ ({["count" := VInt 5]} : gmap string GoValue) !! Param.Name x = Some v →
          renderPlain (Param.Type_ x) v = renderLenient (Param.Type_ x) v)
  ∧ ComputeArgs renderPlain countProgram {["count" := VInt 5]}
    = ComputeArgs renderLenient countProgram {["count" := VInt 5]}.
Proof.
  assert (H : ∀ x v, x ∈ Prog.Flags countProgram ++ Prog.Args countProgram →
            v = Param.Value x
            ∨ ({["count" := VInt 5]} : gmap string GoValue) !! Param.Name x = Some v →
            renderPlain (Param.Type_ x) v = renderLenient (Param.Type_ x) v).
  { intros x v Hx Hv.
    assert (Hnil : v ≠ VNil).
    { simpl in Hx.
      apply elem_of_cons in Hx as [->|Hx]; [|apply elem_of_cons in Hx as [->|Hx];
        [|apply elem_of_cons in Hx as [->|Hx]; [|by apply elem_of_nil in Hx]]];
        destruct Hv as [->|Hv]; try discriminate; vm_compute in Hv; congruence. }
    by destruct v. }
  split; [exact H|].
  exact (ComputeArgs_deterministic renderPlain renderLenient countProgram
           {["count" := VInt 5]} H).
Defined.

Lemma RunIntoWriter_exit_status_witness :
  executable noLookPath falseProgram = Ok "/bin/false"
  ∧ ComputeArgs renderPlain falseProgram ∅ = Ok []
  ∧ Exec.RunIntoWriter renderPlain noLookPath [] map_to_list sampleChild
      falseProgram tt (∅ : gmap string unit) ∅ ""
    = Exec.mkRun (Some (Wrap (ExitError 1) "could not run false")) ""
                 (Some (command [] map_to_list falseProgram "/bin/false" [])).
Proof.
  split; [reflexivity|]. split; [reflexivity|].
  destruct (RunIntoWriter_exit_status renderPlain noLookPath [] map_to_list
              sampleChild falseProgram tt (∅ : gmap string unit) ∅ ""
              "/bin/false" [] eq_refl eq_refl) as (_ & Hexit & _).
  apply (Hexit 1%Z ""); [discriminate | reflexivity].
Defined.

Lemma Clone_independent_witness :
  Store.snapshot sampleRef sampleHeap = Some sampleSnapshot
  ∧ ∃ c h' parts origParts,
      Store.Clone sampleRef sampleHeap = Some (c, h')
      ∧ Store.snapshot c h' = Some sampleSnapshot
      ∧ Store.owned c h' ## dom sampleHeap
      ∧ Store.ownParts c h' = Some parts
      ∧ Store.ownParts sampleRef sampleHeap = Some origParts
      ∧ Store.partRawFlags parts = Store.partRawFlags origParts
      ∧ Store.partFlags parts = Store.partFlags origParts
      ∧ Store.partArgs parts = Store.partArgs origParts
      ∧ Store.partEnv parts = Store.partEnv origParts
      ∧ Store.partExpectedFiles parts = Store.partExpectedFiles origParts
      ∧ (∀ h'' : Store.heap,
           (∀ l, l ∉ Store.owned c h' → h'' !! l = h' !! l) →
           Store.snapshot sampleRef h'' = Some sampleSnapshot)
      ∧ (∀ h'' : Store.heap,
           (∀ l, l ∈ Store.owned c h' → h'' !! l = h' !! l) →
           Store.ownParts c h'' = Some parts).
Proof.
  split; [vm_compute; reflexivity|].
  apply (Clone_independent sampleRef sampleHeap sampleSnapshot).
  vm_compute; reflexivity.
Defined.

(** * Further properties *)

(** ** The error monad, continued *)

Lemma traverse_Err {A B} (f : A → result B) xs e :
  traverse f xs = Err e ↔
  ∃ before x after,
    xs = before ++ x :: after
    ∧ Forall (λ y, ∃ b, f y = Ok b) before
    ∧ f x = Err e.
Proof.
  induction xs as [|x xs IH]; simpl.
  { split; [discriminate|]. intros (before & y & after & H & _). by destruct before. }
  split.
  - destruct (f x) as [b|e'] eqn:Hx; simpl.
    + destruct (traverse f xs) as [bs|e''] eqn:Hxs; simpl; [discriminate|].
      intros [= ->]. destruct (proj1 IH eq_refl) as (before & y & after & -> & Hb & Hy).
      exists (x :: before), y, after. split; [done|]. split; [|done].
      constructor; [by exists b | done].
    + intros [= ->]. exists [], x, xs. by repeat split.
  - intros (before & y & after & Heq & Hbefore & Hy).
    destruct before as [|z before]; simpl in Heq; injection Heq as -> ->.
    + by rewrite Hy.
    + apply Forall_cons in Hbefore as [[b Hb] Hbefore]. rewrite Hb. simpl.
      rewrite (proj2 IH); [done|]. by exists before, y, after.
Qed.

Lemma traverse_is_Ok {A B} (f : A → result B) xs :
  (∃ ys, traverse f xs = Ok ys) ↔ Forall (λ x, ∃ y, f x = Ok y) xs.
Proof.
  induction xs as [|x xs IH]; simpl.
  - split; [constructor | by eexists].
  - rewrite Forall_cons, <- IH. destruct (f x) as [y|e]; simpl.
    + destruct (traverse f xs) as [ys|e]; simpl.
      * split; [intros _; split; by eexists | by eexists].
      * split; [by intros [? ?] | by intros [_ [? ?]]].
    + split; [by intros [? ?] | by intros [[? ?] _]].
Qed.

Lemma traverse_length {A B} (f : A → result B) xs ys :
  traverse f xs = Ok ys → length ys = length xs.
Proof. intros H%traverse_Ok. symmetry. by eapply Forall2_length. Qed.

Section ComputeArgsMore.
Context {V : Type}.
Variable RenderValue : ParameterType → V → result string.

(** X1. ComputeArgs fails exactly when a flag that takes a value, or a
    positional arg, does not resolve.  The error is the one of the first
    such parameter in the order flags, then args, wrapped with "could not
    render flag" or "could not render arg" and the parameter's name; whatever
    comes after it is not looked at. *)
Theorem ComputeArgs_first_error (p : ProgramOf V) (ps : gmap string V) (e : error) :
  ComputeArgs RenderValue p ps = Err e ↔
  (∃ before f after e0,
     Prog.Flags p = before ++ f :: after
     ∧ Forall (λ g, Param.NoValue g = true
                    ∨ ∃ v, resolved RenderValue ps g = Ok v) before
     ∧ Param.NoValue f = false
     ∧ resolved RenderValue ps f = Err e0
     ∧ e = Wrap e0 ("could not render flag " +:+ Param.Name f))
  ∨ (Forall (λ g, Param.NoValue g = true
                  ∨ ∃ v, resolved RenderValue ps g = Ok v) (Prog.Flags p)
     ∧ ∃ before a after e0,
         Prog.Args p = before ++ a :: after
         ∧ Forall (λ b, ∃ v, resolved RenderValue ps b = Ok v) before
         ∧ resolved RenderValue ps a = Err e0
         ∧ e = Wrap e0 ("could not render arg " +:+ Param.Name a)).
Proof.
  assert (HflagOk : ∀ g, (∃ b, flagSpec RenderValue ps g = Ok b)
            ↔ Param.NoValue g = true ∨ ∃ v, resolved RenderValue ps g = Ok v).
  { intros g. unfold flagSpec. destruct (Param.NoValue g).
    - split; [by left | by eexists].
    - destruct (resolved RenderValue ps g) as [v|e1]; simpl.
      + split; [right; by eexists | by eexists].
      + split; [by intros [? ?] | intros [?|[? ?]]; done]. }
  assert (HflagErr : ∀ f e1, flagSpec RenderValue ps f = Err e1
            ↔ Param.NoValue f = false
              ∧ ∃ e0, resolved RenderValue ps f = Err e0
                      ∧ e1 = Wrap e0 ("could not render flag " +:+ Param.Name f)).
  { intros f e1. unfold flagSpec. destruct (Param.NoValue f).
    - split; [done | by intros [? _]].
    - destruct (resolved RenderValue ps f) as [v|e0]; simpl.
      + split; [done | by intros [_ (? & ? & _)]].
      + split; [intros [= <-]; eauto | by intros [_ (? & [= <-] & ->)]]. }
  assert (HargOk : ∀ a, (∃ b, argSpec RenderValue ps a = Ok b)
            ↔ ∃ v, resolved RenderValue ps a = Ok v).
  { intros a. unfold argSpec. destruct (resolved RenderValue ps a); simpl.
    - split; by eexists.
    - split; by intros [? ?]. }
  assert (HargErr : ∀ a e1, argSpec RenderValue ps a = Err e1
            ↔ ∃ e0, resolved RenderValue ps a = Err e0
                    ∧ e1 = Wrap e0 ("could not render arg " +:+ Param.Name a)).
  { intros a e1. unfold argSpec. destruct (resolved RenderValue ps a) as [v|e0]; simpl.
    - split; [done | by intros (? & ? & _)].
    - split; [intros [= <-]; eauto | by intros (? & [= <-] & ->)]. }
  assert (Hsplit : ComputeArgs RenderValue p ps = Err e ↔
            traverse (flagSpec RenderValue ps) (Prog.Flags p) = Err e
            ∨ ((∃ fl, traverse (flagSpec RenderValue ps) (Prog.Flags p) = Ok fl)
               ∧ traverse (argSpec RenderValue ps) (Prog.Args p) = Err e)).
  { rewrite ComputeArgs_spec.
    destruct (traverse (flagSpec RenderValue ps) (Prog.Flags p)) as [fl|e1]; simpl.
    - destruct (traverse (argSpec RenderValue ps) (Prog.Args p)) as [al|e2]; simpl.
      + split; [discriminate | by intros [?|[_ ?]]].
      + split; [intros [= ->]; right; eauto | by intros [?|[_ ?]]].
    - split; [intros [= ->]; by left | intros [[= ->]|[[? H] _]]; [done | discriminate H]]. }
  rewrite Hsplit. rewrite traverse_is_Ok, !traverse_Err.
  split.
  - intros [(before & f & after & Heq & Hb & Hf)|[Hall (before & a & after & Heq & Hb & Ha)]].
    + left. apply HflagErr in Hf as (Hno & e0 & Hf & ->).
      exists before, f, after, e0. split; [done|]. split; [|done].
      eapply Forall_impl; [exact Hb|]. intros g. apply HflagOk.
    + right. split.
      * eapply Forall_impl; [exact Hall|]. intros g. apply HflagOk.
      * apply HargErr in Ha as (e0 & Ha & ->).
        exists before, a, after, e0. split; [done|]. split; [|done].
        eapply Forall_impl; [exact Hb|]. intros b. apply HargOk.
  - intros [(before & f & after & e0 & Heq & Hb & Hno & Hf & ->)
           |[Hall (before & a & after & e0 & Heq & Hb & Ha & ->)]].
    + left. exists before, f, after. split; [done|]. split.
      * eapply Forall_impl; [exact Hb|]. intros g. apply HflagOk.
      * apply HflagErr. eauto.
    + right. split.
      * eapply Forall_impl; [exact Hall|]. intros g. apply HflagOk.
      * exists before, a, after. split; [done|]. split.
        -- eapply Forall_impl; [exact Hb|]. intros b. apply HargOk.
        -- apply HargErr. eauto.
Qed.

End ComputeArgsMore.

Lemma traverse_Forall2 {A A' B} (f : A → result B) (g : A' → result B) xs xs' :
  Forall2 (λ x x', f x = g x') xs xs' → traverse f xs = traverse g xs'.
Proof. induction 1 as [|x x' xs xs' Hx _ IH]; simpl; [done|]. by rewrite Hx, IH. Qed.

Section ComputeArgsReads.
Context {V : Type}.
Variable RenderValue : ParameterType → V → result string.

(** X2. A vector ComputeArgs returns has one token for each verb, raw flag
    and positional arg, one for each flag and one more for each flag that
    takes a value. *)
Theorem ComputeArgs_length (p : ProgramOf V) (ps : gmap string V) (out : list string) :
  ComputeArgs RenderValue p ps = Ok out →
  length out
  = length (Prog.Verbs p) + length (Prog.RawFlags p)
    + length (Prog.Flags p)
    + length (filter (λ f, Param.NoValue f = false) (Prog.Flags p))
    + length (Prog.Args p).
Proof.
  rewrite ComputeArgs_spec. intros H.
  apply bind_Ok in H as (fl & Hfl & H). apply bind_Ok in H as (al & Hal & [= <-]).
  rewrite !length_app. rewrite (traverse_length _ _ _ Hal).
  assert (Hlen : length (concat fl)
                 = length (Prog.Flags p)
                   + length (filter (λ f, Param.NoValue f = false) (Prog.Flags p))).
  { apply traverse_Ok in Hfl. clear Hal.
    induction Hfl as [|f toks fs fl Hf _ IH]; [done|].
    simpl. rewrite length_app, IH, filter_cons.
    unfold flagSpec in Hf. destruct (Param.NoValue f) eqn:Hno.
    - injection Hf as <-. rewrite decide_False by done. simpl. lia.
    - apply bind_Ok in Hf as (v & _ & [= <-]). rewrite decide_True by done.
      simpl. lia. }
  lia.
Qed.

(** X3. ComputeArgs looks the runtime map up under the names of the flags
    that take a value and of the positional args, and under no other key:
    two maps that agree under these names give the same result. *)
Theorem ComputeArgs_runtime_keys (p : ProgramOf V) (ps ps' : gmap string V) :
  (∀ f, f ∈ Prog.Flags p → Param.NoValue f = false →
        ps !! Param.Name f = ps' !! Param.Name f) →
  (∀ a, a ∈ Prog.Args p → ps !! Param.Name a = ps' !! Param.Name a) →
  ComputeArgs RenderValue p ps = ComputeArgs RenderValue p ps'.
Proof.
  intros Hflags Hargs. rewrite !ComputeArgs_spec.
  rewrite (traverse_ext (flagSpec RenderValue ps) (flagSpec RenderValue ps')).
  2:{ intros f Hf. unfold flagSpec, resolved, obtained.
      destruct (Param.NoValue f) eqn:Hno; [done|]. by rewrite (Hflags f Hf Hno). }
  rewrite (traverse_ext (argSpec RenderValue ps) (argSpec RenderValue ps')).
  2:{ intros a Ha. unfold argSpec, resolved, obtained. by rewrite (Hargs a Ha). }
  done.
Qed.

(** X4. ComputeArgs reads the Verbs, the RawFlags, the Flags and the Args of
    a program.  Of a positional arg it reads Name, Type, Value and Raw, never
    Flag, NoValue or Short; of a flag with NoValue it reads Name and Flag
    only.  Programs that agree on what is read give the same result. *)
Theorem ComputeArgs_reads (p p' : ProgramOf V) (ps : gmap string V) :
  Prog.Verbs p = Prog.Verbs p' →
  Prog.RawFlags p = Prog.RawFlags p' →
  Forall2 sameFlag (Prog.Flags p) (Prog.Flags p') →
  Forall2 sameArg (Prog.Args p) (Prog.Args p') →
  ComputeArgs RenderValue p ps = ComputeArgs RenderValue p' ps.
Proof.
  intros Hverbs Hraw Hflags Hargs. rewrite !ComputeArgs_spec, Hverbs, Hraw.
  rewrite (traverse_Forall2 (flagSpec RenderValue ps) (flagSpec RenderValue ps)
             (Prog.Flags p) (Prog.Flags p')).
  2:{ eapply Forall2_impl; [exact Hflags|].
      intros f f' (Hname & Hflag & Hno & Hrest).
      unfold flagSpec, flagToken, resolved, obtained.
      rewrite <- Hno, <- Hflag, <- Hname. destruct (Param.NoValue f); [done|].
      destruct (Hrest eq_refl) as (<- & <- & <-). done. }
  rewrite (traverse_Forall2 (argSpec RenderValue ps) (argSpec RenderValue ps)
             (Prog.Args p) (Prog.Args p')).
  2:{ eapply Forall2_impl; [exact Hargs|].
      intros a a' (Hname & Hty & Hval & Hr).
      unfold argSpec, resolved, obtained. by rewrite <- Hname, <- Hty, <- Hval, <- Hr. }
  done.
Qed.

(** X5. A parameter without a runtime entry and with a Raw that is not
    empty contributes its Raw, and the formatter is not called for it.  When
    every flag that takes a value and every positional arg is such a
    parameter, ComputeArgs succeeds whatever the formatter does, also when a
    Value cannot be rendered. *)
Theorem ComputeArgs_raw_only (p : ProgramOf V) (ps : gmap string V) :
  (∀ f, f ∈ Prog.Flags p → Param.NoValue f = false →
        ps !! Param.Name f = None ∧ Param.Raw f ≠ "") →
  (∀ a, a ∈ Prog.Args p → ps !! Param.Name a = None ∧ Param.Raw a ≠ "") →
  ComputeArgs RenderValue p ps
  = Ok (Prog.Verbs p ++ Prog.RawFlags p
        ++ concat ((λ f, if Param.NoValue f then [flagToken f]
                         else [flagToken f; Param.Raw f]) <$> Prog.Flags p)
        ++ (Param.Raw <$> Prog.Args p)).
Proof.
  intros Hflags Hargs. rewrite ComputeArgs_spec.
  assert (Hfl : traverse (flagSpec RenderValue ps) (Prog.Flags p)
                = Ok ((λ f, if Param.NoValue f then [flagToken f]
                            else [flagToken f; Param.Raw f]) <$> Prog.Flags p)).
  { apply traverse_Ok. apply Forall2_fmap_r, Forall_Forall2_diag, Forall_forall.
    intros f Hf. unfold compose, flagSpec, resolved, obtained.
    destruct (Param.NoValue f) eqn:Hno; [done|].
    destruct (Hflags f Hf Hno) as [-> Hraw]. simpl.
    by rewrite decide_False by done. }
  assert (Hal : traverse (argSpec RenderValue ps) (Prog.Args p)
                = Ok (Param.Raw <$> Prog.Args p)).
  { apply traverse_Ok. apply Forall2_fmap_r, Forall_Forall2_diag, Forall_forall.
    intros a Ha. unfold compose, argSpec, resolved, obtained.
    destruct (Hargs a Ha) as [-> Hraw]. simpl. by rewrite decide_False by done. }
  by rewrite Hfl, Hal.
Qed.

(** X6. The Raw of a parameter that has a runtime entry is never used, not
    even when the entry renders to the empty string: giving such parameters
    any other Raw leaves the result of ComputeArgs as it is. *)
Theorem ComputeArgs_runtime_shadows_Raw (p p' : ProgramOf V) (ps : gmap string V) :
  Prog.Verbs p = Prog.Verbs p' →
  Prog.RawFlags p = Prog.RawFlags p' →
  Forall2 (λ x x', x' = x ∨ (is_Some (ps !! Param.Name x) ∧ ∃ raw, x' = rawTo raw x))
          (Prog.Flags p) (Prog.Flags p') →
  Forall2 (λ x x', x' = x ∨ (is_Some (ps !! Param.Name x) ∧ ∃ raw, x' = rawTo raw x))
          (Prog.Args p) (Prog.Args p') →
  ComputeArgs RenderValue p ps = ComputeArgs RenderValue p' ps.
Proof.
  intros Hverbs Hraw Hflags Hargs.
  assert (Hres : ∀ x x', x' = x ∨ (is_Some (ps !! Param.Name x) ∧ ∃ raw, x' = rawTo raw x) →
            resolved RenderValue ps x = resolved RenderValue ps x').
  { intros x x' [->|[[value Hvalue] [raw ->]]]; [done|].
    unfold resolved, obtained. simpl. by rewrite Hvalue. }
  assert (Hfields : ∀ x x' : ParameterOf V,
            x' = x ∨ (is_Some (ps !! Param.Name x) ∧ ∃ raw, x' = rawTo raw x) →
            Param.Name x = Param.Name x' ∧ Param.Flag x = Param.Flag x'
            ∧ Param.NoValue x = Param.NoValue x').
  { by intros x x' [->|[_ [raw ->]]]. }
  rewrite !ComputeArgs_spec, Hverbs, Hraw.
  rewrite (traverse_Forall2 (flagSpec RenderValue ps) (flagSpec RenderValue ps)
             (Prog.Flags p) (Prog.Flags p')).
  2:{ eapply Forall2_impl; [exact Hflags|]. intros f f' Hf.
      destruct (Hfields f f' Hf) as (Hname & Hflag & Hno).
      unfold flagSpec, flagToken. by rewrite (Hres f f' Hf), Hname, Hflag, Hno. }
  rewrite (traverse_Forall2 (argSpec RenderValue ps) (argSpec RenderValue ps)
             (Prog.Args p) (Prog.Args p')).
  2:{ eapply Forall2_impl; [exact Hargs|]. intros a a' Ha.
      destruct (Hfields a a' Ha) as (Hname & _).
      unfold argSpec. by rewrite (Hres a a' Ha), Hname. }
  done.
Qed.

(** X7. AddRawFlag puts its tokens behind the raw flags the program has and
    before the tokens of the flags: the result of ComputeArgs afterwards is
    the result before with the new tokens inserted at that place, and the
    same error if there was one.  Adding twice is adding the concatenation. *)
Theorem AddRawFlag_ComputeArgs (p : ProgramOf V) (raw raw' : list string)
    (ps : gmap string V) :
  ComputeArgs RenderValue (AddRawFlag p raw) ps
  = (out <- ComputeArgs RenderValue p ps ;;
     let n := length (Prog.Verbs p) + length (Prog.RawFlags p) in
     Ok (take n out ++ raw ++ drop n out))
  ∧ AddRawFlag (AddRawFlag p raw) raw' = AddRawFlag p (raw ++ raw').
Proof.
  split.
  - rewrite !ComputeArgs_spec. simpl.
    destruct (traverse (flagSpec RenderValue ps) (Prog.Flags p)) as [fl|e]; simpl; [|done].
    destruct (traverse (argSpec RenderValue ps) (Prog.Args p)) as [al|e]; simpl; [|done].
    f_equal. rewrite (app_assoc (Prog.Verbs p) (Prog.RawFlags p)).
    rewrite <- length_app. rewrite take_app_length, drop_app_length.
    by rewrite <- !app_assoc.
  - unfold AddRawFlag. simpl. by rewrite <- app_assoc.
Qed.

End ComputeArgsReads.

(** ** Process executor, continued *)

Lemma string_app_empty_r (s : string) : s +:+ "" = s.
Proof.
  induction s as [|c s IH]; [done|].
  change (String c s +:+ "") with (String c (s +:+ "")). by rewrite IH.
Qed.

Section ExecutorMore.
Import Exec.
Context {V Ctx Layer : Type}.
Variable RenderValue : ParameterType → V → result string.
Variable LookPath : string → result string.
Variable Environ : list string.
Variable rangeMap : gmap string string → list (string * string).
Variable child : Ctx → Cmd → Outcome.

Abbreviation run p ctx parsedLayers ps w :=
  (RunIntoWriter RenderValue LookPath Environ rangeMap child
                 p ctx (parsedLayers : gmap string Layer) ps w).

(** X8. RunIntoWriter starts no command exactly when the program has no
    Path and its Name is not found on the search path, or when the arguments
    do not compile.  It then returns the look-up error wrapped with "could
    not find executable" and the name, or the error of ComputeArgs as it is,
    and leaves the writer as it was; the look-up comes first. *)
Theorem RunIntoWriter_not_started (p : ProgramOf V) (ctx : Ctx)
    (parsedLayers : gmap string Layer) (ps : gmap string V) (w : string) :
  (∀ e, Prog.Path p = "" → LookPath (Prog.Name p) = Err e →
        run p ctx parsedLayers ps w
        = mkRun (Some (Wrap e ("could not find executable " +:+ Prog.Name p))) w None)
  ∧ (∀ e, (Prog.Path p ≠ "" ∨ ∃ path, LookPath (Prog.Name p) = Ok path) →
          ComputeArgs RenderValue p ps = Err e →
          run p ctx parsedLayers ps w = mkRun (Some e) w None)
  ∧ (started (run p ctx parsedLayers ps w) = None ↔
     (Prog.Path p = "" ∧ ∃ e, LookPath (Prog.Name p) = Err e)
     ∨ ∃ e, ComputeArgs RenderValue p ps = Err e).
Proof.
  unfold RunIntoWriter. cbv zeta. split; [|split].
  - intros e -> ->. done.
  - intros e Hpath ->. destruct (decide (Prog.Path p = "")) as [Hp|Hp]; [|done].
    destruct Hpath as [?|[path ->]]; done.
  - destruct (decide (Prog.Path p = "")) as [Hp|Hp].
    + destruct (LookPath (Prog.Name p)) as [path|e]; simpl.
      * destruct (ComputeArgs RenderValue p ps) as [args|e]; simpl.
        -- destruct (Cmd_Run _ _ _ _) as [w' [err|]]; simpl;
             (split; [done | by intros [[_ [? ?]]|[? ?]]]).
        -- split; [intros _; right; by eexists | done].
      * split; [intros _; left; split; [done | by eexists] | done].
    + destruct (ComputeArgs RenderValue p ps) as [args|e]; simpl.
      * destruct (Cmd_Run _ _ _ _) as [w' [err|]]; simpl;
          (split; [done | by intros [[? _]|[? ?]]]).
      * split; [intros _; right; by eexists | done].
Qed.



(** X11. The command RunIntoWriter starts: the executable, the compiled
    arguments, Stdin when it is not empty, and as environment the inherited
    one, unchanged and in its order, followed by the entries of Env as
    key=value, each once. *)
Theorem RunIntoWriter_command (p : ProgramOf V) (ctx : Ctx)
    (parsedLayers : gmap string Layer) (ps : gmap string V) (w : string) (cmd : Cmd) :
  rangeMap (Prog.Env p) ≡ₚ map_to_list (Prog.Env p) →
  started (run p ctx parsedLayers ps w) = Some cmd →
  (if decide (Prog.Path p = "") then LookPath (Prog.Name p) = Ok (Path cmd)
   else Path cmd = Prog.Path p)
  ∧ ComputeArgs RenderValue p ps = Ok (Args cmd)
  ∧ Stdin cmd = (if decide (Prog.Stdin p = "") then None else Some (Prog.Stdin p))
  ∧ ∃ own, Env cmd = Environ ++ own
           ∧ own ≡ₚ (λ kv, kv.1 +:+ "=" +:+ kv.2) <$> map_to_list (Prog.Env p)
           ∧ length own = size (Prog.Env p).
Proof.
  intros Hrange. unfold RunIntoWriter. cbv zeta.
  assert (Hown : ∃ own, foldl (λ env kv, env ++ [kv.1 +:+ "=" +:+ kv.2]) ([] ++ Environ)
                          (rangeMap (Prog.Env p)) = Environ ++ own
                   ∧ own ≡ₚ (λ kv, kv.1 +:+ "=" +:+ kv.2) <$> map_to_list (Prog.Env p)
                   ∧ length own = size (Prog.Env p)).
  { exists ((λ kv, kv.1 +:+ "=" +:+ kv.2) <$> rangeMap (Prog.Env p)).
    split; [by rewrite foldl_append_each|]. split; [by rewrite Hrange|].
    by rewrite length_fmap, Hrange, length_map_to_list. }
  destruct (decide (Prog.Path p = "")) as [Hp|Hp].
  - destruct (LookPath (Prog.Name p)) as [path|e]; simpl; [|done].
    destruct (ComputeArgs RenderValue p ps) as [args|e]; simpl; [|done].
    destruct (Cmd_Run _ _ _ _) as [w' [err|]]; simpl; intros [= <-]; simpl; eauto.
  - destruct (ComputeArgs RenderValue p ps) as [args|e]; simpl; [|done].
    destruct (Cmd_Run _ _ _ _) as [w' [err|]]; simpl; intros [= <-]; simpl; eauto.
Qed.

End ExecutorMore.

(** ** Repository loader, continued *)

Lemma prune_listing entries :
  prune (Listing (Ok entries)) = Listing (Ok (concat (pruneEntry <$> entries))).
Proof.
  simpl. do 2 f_equal.
  induction entries as [|entry entries IH]; csimpl; [done | by rewrite IH].
Qed.

Section LoaderMore.
Context {V : Type}.
Variable yamlDecode : string → result (ProgramOf V).
Variable Stat : string → option error.
Variable DirFS : string → FS.

(** X12. LoadProgramsFromFS returns the same programs, or the same error,
    on a tree and on the tree without its hidden entries and its files
    without a YAML-family extension: what these hold, and whether they can
    be read at all, does not matter. *)
Theorem LoadProgramsFromFS_prune (f : FS) (dir : string) :
  LoadProgramsFromFS yamlDecode (prune f) dir = LoadProgramsFromFS yamlDecode f dir.
Proof.
  revert dir. induction f as [e|entries IH] using FS_listing_ind; intros dir; [done|].
  rewrite prune_listing, !LoadProgramsFromFS_unfold. cbn [ReadDir Wrapf bind].
  generalize (@nil (ProgramOf V)).
  induction entries as [|entry entries IHentries]; intros programs; [done|].
  apply Forall_cons in IH as [IHentry IH]. csimpl. rewrite rangeM_app.
  specialize (IHentries IH). cbn [rangeM].
  unfold entryBody at 3. destruct entry as [name opened|name sub]; simpl;
    unfold hidden; destruct (HasPrefix name ".") eqn:Hhidden; simpl; try apply IHentries.
  - unfold isYaml. destruct (HasSuffix name ".yaml" || HasSuffix name ".yml") eqn:Hyaml;
      simpl; [|apply IHentries].
    unfold entryBody at 1. simpl. rewrite Hhidden, Hyaml.
    destruct (file <- Wrapf opened _ ;; _) as [programs'|e]; simpl; [apply IHentries | done].
  - unfold entryBody at 1. simpl. rewrite Hhidden, IHentry.
    destruct (programs_ <- Wrapf _ _ ;; _) as [programs'|e]; simpl; [apply IHentries | done].
Qed.

(** X13. The walk stops at the first entry that fails, and what comes after
    it in the listing does not matter.  When the entries before load: a
    definition file that cannot be opened gives its error wrapped with
    "could not open file" and the path; one that does not decode gives the
    decoder's error wrapped with "could not decode program" and then with
    "could not load program from file" and the path; a directory that fails
    gives its error wrapped with "could not load programs from dir" and the
    path. *)
Theorem LoadProgramsFromFS_first_failure (dir : string)
    (before after : list DirEntry) (programs : list (ProgramOf V)) (name : string) :
  LoadProgramsFromFS yamlDecode (Listing (Ok before)) dir = Ok programs →
  hidden name = false →
  (∀ e, isYaml name = true →
        LoadProgramsFromFS yamlDecode
          (Listing (Ok (before ++ File name (Err e) :: after))) dir
        = Err (Wrap e ("could not open file " +:+ Join [dir; name])))
  ∧ (∀ content e, isYaml name = true → yamlDecode content = Err e →
        LoadProgramsFromFS yamlDecode
          (Listing (Ok (before ++ File name (Ok content) :: after))) dir
        = Err (Wrap (Wrap e "could not decode program")
                    ("could not load program from file " +:+ Join [dir; name])))
  ∧ (∀ sub e, LoadProgramsFromFS yamlDecode sub (Join [dir; name]) = Err e →
        LoadProgramsFromFS yamlDecode
          (Listing (Ok (before ++ Dir name sub :: after))) dir
        = Err (Wrap e ("could not load programs from dir " +:+ Join [dir; name]))).
Proof.
  rewrite LoadProgramsFromFS_unfold. cbn [ReadDir Wrapf bind].
  intros Hbefore Hvisible. unfold hidden, isYaml in *.
  split; [|split].
  - intros e Hyaml. rewrite LoadProgramsFromFS_unfold. cbn [ReadDir Wrapf bind].
    rewrite rangeM_app, Hbefore. cbn [bind rangeM]. unfold entryBody. simpl.
    by rewrite Hvisible, Hyaml.
  - intros content e Hyaml Hdecode.
    rewrite LoadProgramsFromFS_unfold. cbn [ReadDir Wrapf bind].
    rewrite rangeM_app, Hbefore. cbn [bind rangeM]. unfold entryBody. simpl.
    rewrite Hvisible, Hyaml. simpl. unfold NewProgramFromYAML. by rewrite Hdecode.
  - intros sub e Hsub. rewrite LoadProgramsFromFS_unfold. cbn [ReadDir Wrapf bind].
    rewrite rangeM_app, Hbefore. cbn [bind rangeM]. unfold entryBody. simpl.
    by rewrite Hvisible, Hsub.
Qed.

(** X14. A root that does not exist, or whose tree does not load, ends the
    load with its error, wrapped with "could not stat repository" or "could
    not load programs from repository" and the root; the roots after it are
    not looked at.  This holds when the roots before it load without a
    name standing twice. *)
Theorem LoadRepositories_first_failure (done rest : list string) (repository : string)
    (pss : list (list (ProgramOf V))) :
  Forall2 (λ r programs, loaded yamlDecode Stat DirFS r = Ok programs) done pss →
  NoDup (Prog.Name <$> concat pss) →
  (∀ err, Stat repository = Some err →
          LoadRepositories yamlDecode Stat DirFS (done ++ repository :: rest)
          = Err (Wrap err ("could not stat repository " +:+ repository)))
  ∧ (∀ e, Stat repository = None →
          LoadProgramsFromFS yamlDecode (DirFS repository) "." = Err e →
          LoadRepositories yamlDecode Stat DirFS (done ++ repository :: rest)
          = Err (Wrap e ("could not load programs from repository " +:+ repository))).
Proof.
  intros Hall Hnd. unfold LoadRepositories.
  rewrite (LoadRepositories_loaded yamlDecode Stat DirFS ∅ done _ pss Hall).
  destruct (register_cases ∅ (concat pss))
    as [(m' & Hrun & _)|(name & l1 & l2 & _ & Hnames & Hwhy)].
  - rewrite Hrun. simpl. split.
    + intros err Hstat. unfold repositoryBody. by rewrite Hstat.
    + intros e Hstat Hload. unfold repositoryBody. by rewrite Hstat, Hload.
  - exfalso. destruct Hwhy as [[q Hq]|Hin]; [by rewrite lookup_empty in Hq|].
    rewrite Hnames in Hnd. apply NoDup_app in Hnd as (_ & Hnd & _).
    apply (Hnd name Hin). by left.
Qed.

(** A successful load, in terms of what the roots contribute. *)
Lemma LoadRepositories_Ok (repositories : list string)
    (registry : gmap string (ProgramOf V)) :
  LoadRepositories yamlDecode Stat DirFS repositories = Ok registry ↔
  ∃ pss,
    Forall2 (λ r programs, loaded yamlDecode Stat DirFS r = Ok programs) repositories pss
    ∧ NoDup (Prog.Name <$> concat pss)
    ∧ (∀ name program,
         registry !! name = Some program
         ↔ program ∈ concat pss ∧ Prog.Name program = name).
Proof.
  unfold LoadRepositories. split.
  - intros Hok. apply LoadRepositories_Ok_inv in Hok as (pss & Hall & Hreg).
    exists pss. split; [done|].
    destruct (register_cases ∅ (concat pss))
      as [(m' & Hrun & Hnd & _ & Hm')|(name & l1 & l2 & Hrun & _)]; [|congruence].
    split; [done|]. intros name program.
    rewrite Hrun in Hreg. injection Hreg as <-. rewrite Hm', lookup_empty.
    split; [by intros [?|?] | by right].
  - intros (pss & Hall & Hnd & Hreg).
    rewrite <- (app_nil_r repositories).
    rewrite (LoadRepositories_loaded yamlDecode Stat DirFS ∅ repositories [] pss Hall).
    destruct (register_cases ∅ (concat pss))
      as [(m' & Hrun & _ & _ & Hm')|(name & l1 & l2 & _ & Hnames & Hwhy)].
    + rewrite Hrun. simpl. f_equal. apply map_eq. intros name.
      apply option_eq. intros program. rewrite Hm', Hreg, lookup_empty.
      split; [by intros [?|?] | by right].
    + exfalso. destruct Hwhy as [[q Hq]|Hin]; [by rewrite lookup_empty in Hq|].
      rewrite Hnames in Hnd. apply NoDup_app in Hnd as (_ & Hnd & _).
      apply (Hnd name Hin). by left.
Qed.

(** X15. When LoadRepositories returns a registry, the order of the roots
    does not matter: the roots in any other order give the same registry. *)
Theorem LoadRepositories_order (repositories repositories' : list string)
    (registry : gmap string (ProgramOf V)) :
  repositories ≡ₚ repositories' →
  LoadRepositories yamlDecode Stat DirFS repositories = Ok registry →
  LoadRepositories yamlDecode Stat DirFS repositories' = Ok registry.
Proof.
  intros Hperm (pss & Hall & Hnd & Hreg)%LoadRepositories_Ok.
  apply LoadRepositories_Ok.
  set (contribution := λ r, match loaded yamlDecode Stat DirFS r with
                            | Ok programs => programs
                            | Err _ => []
                            end).
  assert (Hpss : pss = contribution <$> repositories).
  { clear -Hall. induction Hall as [|r programs rs pss Hr _ IH]; csimpl; [done|].
    rewrite <- IH. unfold contribution at 1. by rewrite Hr. }
  assert (Hloads : Forall (λ r, loaded yamlDecode Stat DirFS r = Ok (contribution r))
                          repositories).
  { clear -Hall. induction Hall as [|r programs rs pss Hr _ IH]; constructor; [|done].
    unfold contribution. by rewrite Hr. }
  rewrite Hperm in Hloads.
  assert (Hconcat : concat (contribution <$> repositories')
                    ≡ₚ concat pss).
  { rewrite Hpss. by rewrite Hperm. }
  exists (contribution <$> repositories'). split.
  { apply Forall2_fmap_r, Forall_Forall2_diag. exact Hloads. }
  split; [by rewrite Hconcat|].
  intros name program. rewrite Hreg. by rewrite Hconcat.
Qed.

(** X16. A registry LoadRepositories returns holds every loaded program
    under its own name and nothing else: its keys are the names of the
    loaded programs, and it has as many entries as programs were loaded. *)
Theorem LoadRepositories_registry (repositories : list string)
    (registry : gmap string (ProgramOf V)) :
  LoadRepositories yamlDecode Stat DirFS repositories = Ok registry →
  ∃ pss,
    Forall2 (λ r programs, loaded yamlDecode Stat DirFS r = Ok programs) repositories pss
    ∧ dom registry = list_to_set (Prog.Name <$> concat pss)
    ∧ size registry = length (concat pss)
    ∧ (∀ name program, registry !! name = Some program → Prog.Name program = name)
    ∧ (∀ program, program ∈ concat pss → registry !! Prog.Name program = Some program).
Proof.
  intros (pss & Hall & Hnd & Hreg)%LoadRepositories_Ok.
  exists pss. split; [done|].
  assert (Hdom : dom registry = list_to_set (Prog.Name <$> concat pss)).
  { apply set_eq. intros name. rewrite elem_of_dom, elem_of_list_to_set, list_elem_of_fmap.
    split.
    - intros [program Hp]. apply Hreg in Hp as [Hin Hname]. by exists program.
    - intros (program & -> & Hin). exists program. by apply Hreg. }
  split; [done|]. split.
  { rewrite <- size_dom, Hdom, size_list_to_set by done. by rewrite length_fmap. }
  split.
  - intros name program Hp. by apply Hreg in Hp as [_ ?].
  - intros program Hin. by apply Hreg.
Qed.

End LoaderMore.

(** ** Watch handler, continued *)

Lemma HasPrefix_app (base rest : string) : HasPrefix (base +:+ rest) base = true.
Proof.
  unfold HasPrefix. induction base as [|c base IH]; [by destruct rest|].
  change (String c base +:+ rest) with (String c (base +:+ rest)). simpl.
  by destruct (ascii_dec c c).
Qed.

Lemma substring_all (s : string) : String.substring 0 (String.length s) s = s.
Proof. induction s as [|c s IH]; simpl; [done | by rewrite IH]. Qed.

Lemma TrimPrefix_app (base rest : string) : TrimPrefix (base +:+ rest) base = rest.
Proof.
  unfold TrimPrefix. rewrite HasPrefix_app.
  induction base as [|c base IH].
  - change ("" +:+ rest) with rest. simpl. rewrite Nat.sub_0_r. apply substring_all.
  - change (String c base +:+ rest) with (String c (base +:+ rest)). simpl. exact IH.
Qed.

Lemma TrimPrefix_self (s : string) : TrimPrefix s s = "".
Proof. rewrite <- (string_app_empty_r s) at 1. apply TrimPrefix_app. Qed.

(** X17. For a changed path that starts with a configured path, the handler
    takes the first such configured path as base and logs as output path
    the output directory joined with what follows the base in the changed
    path.  For a changed path that starts with none of the configured
    paths, the base is the changed path itself and the output path is the
    cleaned output directory.  In both cases it returns nil. *)
Theorem watchHandler_output_path (outputDirectory path : string) :
  (∀ before base after rest,
     Forall (λ file, HasPrefix path file = false) before →
     path = base +:+ rest →
     watchHandler (before ++ base :: after) outputDirectory path
     = ([LogInfo [("path", path)] "File changed";
         LogInfo [("path", path); ("basePath", base);
                  ("outputPath", Join [outputDirectory; rest])] "File changed"],
        None))
  ∧ (∀ files_,
       Forall (λ file, HasPrefix path file = false) files_ →
       outputDirectory ≠ "" →
       watchHandler files_ outputDirectory path
       = ([LogInfo [("path", path)] "File changed";
           LogInfo [("path", path); ("basePath", path);
                    ("outputPath", Clean outputDirectory)] "File changed"],
          None)).
Proof.
  split.
  - intros before base after rest Hbefore ->. unfold watchHandler. cbv zeta.
    rewrite (findBase_first _ before base after) by (done || apply HasPrefix_app).
    by rewrite TrimPrefix_app.
  - intros files_ Hnone Hout. unfold watchHandler. cbv zeta.
    rewrite (findBase_none _ files_) by done. rewrite TrimPrefix_self.
    do 5 f_equal. unfold Join.
    rewrite filter_cons_True by done.
    rewrite filter_cons_False by (intros H; by apply H).
    by rewrite filter_nil.
Qed.

(** ** The setters *)

Section SettersMore.
Import Store.

Lemma assignByName_missing ptrs (ys : list (Param.t iface)) name update (h : heap) :
  Forall2 (λ f y, readParameter f h = Some y) ptrs ys →
  Forall (λ y, Param.Name y ≠ name) ys →
  assignByName ptrs name update h = Some (false, h).
Proof.
  induction 1 as [|f y ptrs ys Hy _ IH]; intros Hnames; [done|].
  apply Forall_cons in Hnames as [Hname Hnames]. simpl.
  rewrite (bind_run _ _ h h y) by by apply get_run.
  rewrite decide_False by done. by apply IH.
Qed.

Lemma assignByName_found ptrs (ys : list (Param.t iface)) name update (h : heap) i y :
  Forall2 (λ f y, readParameter f h = Some y) ptrs ys →
  ys !! i = Some y → Param.Name y = name →
  (∀ j y', j < i → ys !! j = Some y' → Param.Name y' ≠ name) →
  ∃ lf, ptrs !! i = Some (Some lf)
        ∧ h !! lf = Some (OParameter y)
        ∧ assignByName ptrs name update h
          = Some (true, <[lf:=OParameter (update y)]> h).
Proof.
  intros Hall. revert i. induction Hall as [|f y0 ptrs ys Hy0 _ IH]; intros i Hi Hname Hfirst.
  { by rewrite lookup_nil in Hi. }
  simpl. rewrite (bind_run _ _ h h y0) by by apply get_run.
  destruct i as [|i]; simpl in Hi.
  - injection Hi as ->. rewrite decide_True by done.
    destruct f as [lf|]; [|done]. exists lf. split; [done|]. split; [|done].
    simpl in Hy0. by destruct (h !! lf) as [[]|]; simplify_eq.
  - rewrite decide_False by (apply (Hfirst 0 y0); [lia | done]).
    destruct (IH i Hi Hname) as (lf & Hlf & Hobj & Hrun).
    { intros j y' Hj Hy'. apply (Hfirst (S j) y'); [lia | done]. }
    by exists lf.
Qed.

(** X19. A setter called with a name no parameter of its list has returns
    the error "could not find flag" or "could not find arg" with the name,
    and changes nothing in memory. *)
Theorem setters_missing (p : ref) (h : heap) (x : Prog.t ref ref ref) (name : string) :
  readProgram p h = Some x →
  (∀ ys, readParameters (Prog.Flags x) h = Some ys →
         Forall (λ y, Param.Name y ≠ name) ys →
         (∀ value, SetFlagValue p name value h
                   = Some (Some (Errorf ("could not find flag " +:+ name)), h))
         ∧ (∀ raw, SetFlagRaw p name raw h
                   = Some (Some (Errorf ("could not find flag " +:+ name)), h)))
  ∧ (∀ ys, readParameters (Prog.Args x) h = Some ys →
           Forall (λ y, Param.Name y ≠ name) ys →
           (∀ value, SetArgValue p name value h
                     = Some (Some (Errorf ("could not find arg " +:+ name)), h))
           ∧ (∀ raw, SetArgRaw p name raw h
                     = Some (Some (Errorf ("could not find arg " +:+ name)), h))).
Proof.
  intros Hx. split; intros ys (ptrs & Hptrs & Hys)%readParameters_Some Hnames;
    split; intros v;
    unfold SetFlagValue, SetFlagRaw, SetArgValue, SetArgRaw;
    rewrite (bind_run _ _ h h x) by (by apply get_run);
    rewrite (bind_run _ _ h h ptrs) by (by apply get_run);
    by rewrite (bind_run _ _ _ _ _ (assignByName_missing ptrs ys name _ h Hys Hnames)).
Qed.

Lemma setter_first_run (p : ref) (h : heap) (x : Prog.t ref ref ref)
    (field : Prog.t ref ref ref → ref) (name : string)
    (update : Param.t iface → Param.t iface) (report : bool → option error)
    ptrs (ys : list (Param.t iface)) (i : nat) (y : Param.t iface) (lf : loc) :
  readProgram p h = Some x →
  readPointers (field x) h = Some ptrs →
  Forall2 (λ f y, readParameter f h = Some y) ptrs ys →
  ys !! i = Some y → Param.Name y = name →
  (∀ j y', j < i → ys !! j = Some y' → Param.Name y' ≠ name) →
  ptrs !! i = Some (Some lf) →
  (x ← get (readProgram p);
   ptrs ← get (readPointers (field x));
   found ← assignByName ptrs name update;
   mret (report found)) h
  = Some (report true, <[lf:=OParameter (update y)]> h).
Proof.
  intros Hx Hptrs Hys Hi Hname Hfirst Hlf.
  rewrite (bind_run _ _ h h x) by (by apply get_run).
  rewrite (bind_run _ _ h h ptrs) by (by apply get_run).
  destruct (assignByName_found ptrs ys name update h i y Hys Hi Hname Hfirst)
    as (lf' & Hlf' & _ & Hrun).
  rewrite Hlf in Hlf'. injection Hlf' as <-.
  by rewrite (bind_run _ _ _ _ _ Hrun).
Qed.

(** X20. A setter called with a name that parameters of its list have
    assigns to the first of them in the order of the list, returns nil, and
    writes to that one Parameter struct only; later parameters of the same
    name stay as they are. *)
Theorem setters_first (p : ref) (h : heap) (x : Prog.t ref ref ref) (name : string)
    (ys : list (Param.t iface)) (i : nat) (y : Param.t iface) :
  readProgram p h = Some x →
  ys !! i = Some y → Param.Name y = name →
  (∀ j y', j < i → ys !! j = Some y' → Param.Name y' ≠ name) →
  (readParameters (Prog.Flags x) h = Some ys →
   ∃ ptrs lf,
     readPointers (Prog.Flags x) h = Some ptrs ∧ ptrs !! i = Some (Some lf)
     ∧ (∀ value, SetFlagValue p name value h
                 = Some (None, <[lf:=OParameter (withValue value y)]> h))
     ∧ (∀ raw, SetFlagRaw p name raw h
               = Some (None, <[lf:=OParameter (withRaw raw y)]> h)))
  ∧ (readParameters (Prog.Args x) h = Some ys →
     ∃ ptrs lf,
       readPointers (Prog.Args x) h = Some ptrs ∧ ptrs !! i = Some (Some lf)
       ∧ (∀ value, SetArgValue p name value h
                   = Some (None, <[lf:=OParameter (withValue value y)]> h))
       ∧ (∀ raw, SetArgRaw p name raw h
                 = Some (None, <[lf:=OParameter (withRaw raw y)]> h))).
Proof.
  intros Hx Hi Hname Hfirst.
  split; intros (ptrs & Hptrs & Hys)%readParameters_Some;
    destruct (assignByName_found ptrs ys name (λ y, y) h i y Hys Hi Hname Hfirst)
      as (lf & Hlf & _ & _);
    exists ptrs, lf; (split; [done|]); (split; [done|]); split.
  - intros value. unfold SetFlagValue.
    by rewrite (setter_first_run p h x Prog.Flags name _ _ ptrs ys i y lf).
  - intros raw. unfold SetFlagRaw.
    by rewrite (setter_first_run p h x Prog.Flags name _ _ ptrs ys i y lf).
  - intros value. unfold SetArgValue.
    by rewrite (setter_first_run p h x Prog.Args name _ _ ptrs ys i y lf).
  - intros raw. unfold SetArgRaw.
    by rewrite (setter_first_run p h x Prog.Args name _ _ ptrs ys i y lf).
Qed.

(** *** Writing a Parameter struct *)

Section WriteParameter.
Variables (h : heap) (lf : loc) (y y' : Param.t iface).
Hypothesis Hlf : h !! lf = Some (OParameter y).

Lemma write_parameter_readStrings r :
  readStrings r (<[lf:=OParameter y']> h) = readStrings r h.
Proof.
  destruct r as [l|]; simpl; [|done]. rewrite lookup_insert.
  destruct (decide (lf = l)) as [<-|]; [by rewrite Hlf | done].
Qed.

Lemma write_parameter_readDict r :
  readDict r (<[lf:=OParameter y']> h) = readDict r h.
Proof.
  destruct r as [l|]; simpl; [|done]. rewrite lookup_insert.
  destruct (decide (lf = l)) as [<-|]; [by rewrite Hlf | done].
Qed.

Lemma write_parameter_readPointers r :
  readPointers r (<[lf:=OParameter y']> h) = readPointers r h.
Proof.
  destruct r as [l|]; simpl; [|done]. rewrite lookup_insert.
  destruct (decide (lf = l)) as [<-|]; [by rewrite Hlf | done].
Qed.

Lemma write_parameter_readProgram r :
  readProgram r (<[lf:=OParameter y']> h) = readProgram r h.
Proof.
  destruct r as [l|]; simpl; [|done]. rewrite lookup_insert.
  destruct (decide (lf = l)) as [<-|]; [by rewrite Hlf | done].
Qed.

Lemma write_parameter_viewValue v :
  viewValue v (<[lf:=OParameter y']> h) = viewValue v h.
Proof.
  destruct v; simpl; try done;
    by rewrite ?write_parameter_readStrings, ?write_parameter_readDict.
Qed.

Lemma write_parameter_valueOf x v :
  valueOf (<[lf:=OParameter y']> h) x v ↔ valueOf h x v.
Proof. unfold valueOf. by setoid_rewrite write_parameter_viewValue. Qed.

Lemma write_parameter_other l :
  l ≠ lf → readParameter (Some l) (<[lf:=OParameter y']> h) = readParameter (Some l) h.
Proof. intros Hne. simpl. by rewrite lookup_insert_ne. Qed.

(** The values of a list of parameters after one of them was written. *)
Lemma write_parameter_views ptrs (ys : list (Param.t iface)) vs i v v' :
  Forall2 (λ f x, readParameter f h = Some x) ptrs ys →
  Forall2 (valueOf h) ys vs →
  NoDup ptrs →
  ptrs !! i = Some (Some lf) → vs !! i = Some v →
  valueOf h y' v' →
  mapM (viewParameter (<[lf:=OParameter y']> h)) ptrs = Some (<[i:=v']> vs).
Proof.
  intros Hys Hvs Hnd Hi Hv Hv'. apply mapM_Some.
  apply Forall2_same_length_lookup_2.
  { rewrite length_insert. rewrite <- (Forall2_length _ _ _ Hvs). by eapply Forall2_length. }
  intros j f vj Hf Hvj.
  destruct (Forall2_lookup_l _ _ _ _ _ Hys Hf) as (x & Hx & Hread).
  destruct (decide (j = i)) as [Heq|Hne].
  - subst j. assert (f = Some lf) as ->.
    { unfold ref in *. rewrite Hi in Hf. by injection Hf. }
    rewrite list_lookup_insert_eq in Hvj by by eapply lookup_lt_Some.
    injection Hvj as <-. destruct Hv' as (w & Hw & ->).
    apply viewParameter_Some. exists y', w.
    split; [simpl; by rewrite lookup_insert_eq|].
    split; [by rewrite write_parameter_viewValue | done].
  - rewrite list_lookup_insert_ne in Hvj by done.
    destruct (Forall2_lookup_l _ _ _ _ _ Hvs Hx) as (vj' & Hvj' & (w & Hw & Heq)).
    rewrite Hvj in Hvj'. injection Hvj' as <-.
    destruct f as [l|]; [|done].
    assert (l ≠ lf).
    { intros ->. apply Hne. by eapply NoDup_lookup. }
    apply viewParameter_Some. exists x, w.
    split; [by rewrite write_parameter_other|].
    split; [by rewrite write_parameter_viewValue | done].
Qed.

(** The values of a list of parameters none of which was written. *)
Lemma write_parameter_frame ptrs (ys : list (Param.t iface)) vs :
  Forall2 (λ f x, readParameter f h = Some x) ptrs ys →
  Forall2 (valueOf h) ys vs →
  Some lf ∉ ptrs →
  mapM (viewParameter (<[lf:=OParameter y']> h)) ptrs = Some vs.
Proof.
  intros Hys Hvs Hnot. apply mapM_Some.
  apply Forall2_same_length_lookup_2.
  { rewrite <- (Forall2_length _ _ _ Hvs). by eapply Forall2_length. }
  intros j f vj Hf Hvj.
  destruct (Forall2_lookup_l _ _ _ _ _ Hys Hf) as (x & Hx & Hread).
  destruct (Forall2_lookup_l _ _ _ _ _ Hvs Hx) as (vj' & Hvj' & (w & Hw & Heq)).
  rewrite Hvj in Hvj'. injection Hvj' as <-.
  destruct f as [l|]; [|done].
  assert (l ≠ lf).
  { intros ->. apply Hnot. by eapply list_elem_of_lookup_2. }
  apply viewParameter_Some. exists x, w.
  split; [by rewrite write_parameter_other|].
  split; [by rewrite write_parameter_viewValue | done].
Qed.

End WriteParameter.

(** *** The first parameter of a name *)

Lemma first_of_name {V} (name : string) (xs : list (ParameterOf V)) :
  Forall (λ x, Param.Name x ≠ name) xs
  ∨ ∃ i x, xs !! i = Some x ∧ Param.Name x = name
           ∧ ∀ j x', j < i → xs !! j = Some x' → Param.Name x' ≠ name.
Proof.
  induction xs as [|x xs IH]; [left; constructor|].
  destruct (decide (Param.Name x = name)) as [Hx|Hx].
  - right. exists 0, x. split; [done|]. split; [done|]. intros j x' Hj. lia.
  - destruct IH as [IH|(i & x0 & Hi & Hname & Hfirst)].
    + left. by constructor.
    + right. exists (S i), x0. split; [done|]. split; [done|].
      intros [|j] x' Hj Hx'; simpl in Hx'; [by simplify_eq|].
      apply (Hfirst j x'); [lia | done].
Qed.

Lemma assignFirst_None {V} (name : string) update (xs : list (ParameterOf V)) :
  Forall (λ x, Param.Name x ≠ name) xs → assignFirst name update xs = None.
Proof.
  induction 1 as [|x xs Hx _ IH]; simpl; [done|].
  rewrite decide_False by done. by rewrite IH.
Qed.

Lemma assignFirst_Some {V} (name : string) update (xs : list (ParameterOf V)) i x :
  xs !! i = Some x → Param.Name x = name →
  (∀ j x', j < i → xs !! j = Some x' → Param.Name x' ≠ name) →
  assignFirst name update xs = Some (<[i:=update x]> xs).
Proof.
  revert i. induction xs as [|x0 xs IH]; intros i Hi Hname Hfirst.
  { by rewrite lookup_nil in Hi. }
  destruct i as [|i]; simpl in *.
  - injection Hi as ->. by rewrite decide_True.
  - rewrite decide_False by (apply (Hfirst 0 x0); [lia | done]).
    rewrite (IH i Hi Hname); [done|].
    intros j x' Hj Hx'. apply (Hfirst (S j) x'); [lia | done].
Qed.

Lemma valueOf_Name (h : heap) y v : valueOf h y v → Param.Name v = Param.Name y.
Proof. by intros (w & _ & ->). Qed.

(** A setter on the list [field] of a program that can be read and whose
    parameters are not shared: what it does to the program as a value. *)
Lemma setter_snapshot (flagsField : bool) (p : ref) (h : heap) (P : ProgramOf GoValue)
    (ptrs : list ref) (name : string)
    (update : Param.t iface → Param.t iface)
    (updateV : ParameterOf GoValue → ParameterOf GoValue)
    (report : bool → option error) :
  snapshot p h = Some P →
  parameterPointers p h = Some ptrs → NoDup ptrs →
  (∀ y v, valueOf h y v → valueOf h (update y) (updateV v)) →
  ∃ found h',
    (x ← get (readProgram p);
     ptrs ← get (readPointers (if flagsField then Prog.Flags x else Prog.Args x));
     found ← assignByName ptrs name update;
     mret (report found)) h = Some (report found, h')
    ∧ match assignFirst name updateV (if flagsField then Prog.Flags P else Prog.Args P) with
      | Some params =>
          found = true
          ∧ snapshot p h' = Some (if flagsField then flagsTo params P else argsTo params P)
      | None => found = false ∧ h' = h
      end.
Proof.
  intros Hsnap Hptrs Hnd Hupdate.
  apply snapshot_Some in Hsnap
    as (x & verbs & env & rawFlags & flags & args & files
        & Hx & Hverbs & Henv & HrawFlags & Hflags & Hargs & Hfiles & ->).
  apply viewParameters_Some in Hflags as (fptrs & fxs & Hfptrs & Hfxs & Hfvs).
  apply viewParameters_Some in Hargs as (aptrs & axs & Haptrs & Haxs & Havs).
  unfold parameterPointers in Hptrs. rewrite Hx in Hptrs. simpl in Hptrs.
  rewrite Hfptrs, Haptrs in Hptrs. simpl in Hptrs. injection Hptrs as <-.
  apply NoDup_app in Hnd as (Hndf & Hdisj & Hnda).
  set (mine := if flagsField then fptrs else aptrs).
  set (myxs := if flagsField then fxs else axs).
  set (myvs := if flagsField then flags else args).
  assert (Hmine : readPointers (if flagsField then Prog.Flags x else Prog.Args x) h
                  = Some mine) by (by destruct flagsField).
  assert (Hmyxs : Forall2 (λ f y, readParameter f h = Some y) mine myxs)
    by (by destruct flagsField).
  assert (Hmyvs : Forall2 (valueOf h) myxs myvs) by (by destruct flagsField).
  assert (Hview : (if flagsField then
                     Prog.Flags (Prog.mk (Prog.Name x) (Prog.Path x) verbs
                       (Prog.Description x) env rawFlags flags args (Prog.Stdin x)
                       (Prog.ExpectedStdout x) (Prog.ExpectedError x)
                       (Prog.ExpectedStatusCode x) files)
                   else
                     Prog.Args (Prog.mk (Prog.Name x) (Prog.Path x) verbs
                       (Prog.Description x) env rawFlags flags args (Prog.Stdin x)
                       (Prog.ExpectedStdout x) (Prog.ExpectedError x)
                       (Prog.ExpectedStatusCode x) files)) = myvs)
    by (by destruct flagsField).
  rewrite Hview. clear Hview.
  rewrite (bind_run _ _ h h x) by (by apply get_run).
  rewrite (bind_run _ _ h h mine) by (by apply get_run).
  destruct (first_of_name name myxs) as [Hnone|(i & y & Hi & Hname & Hfirst)].
  - exists false, h.
    rewrite (bind_run _ _ _ _ _ (assignByName_missing mine myxs name update h Hmyxs Hnone)).
    split; [done|]. rewrite assignFirst_None; [done|].
    clear -Hmyvs Hnone. induction Hmyvs as [|y v ys vs Hv _ IH]; [constructor|].
    apply Forall_cons in Hnone as [Hy Hnone]. constructor; [|by apply IH].
    by rewrite (valueOf_Name _ _ _ Hv).
  - destruct (assignByName_found mine myxs name update h i y Hmyxs Hi Hname Hfirst)
      as (lf & Hlf & Hobj & Hrun).
    exists true, (<[lf:=OParameter (update y)]> h).
    rewrite (bind_run _ _ _ _ _ Hrun). split; [done|].
    destruct (Forall2_lookup_l _ _ _ _ _ Hmyvs Hi) as (v & Hv & Hyv).
    rewrite (assignFirst_Some name updateV myvs i v Hv).
    2:{ by rewrite (valueOf_Name _ _ _ Hyv). }
    2:{ intros j v' Hj Hv'.
        destruct (Forall2_lookup_r _ _ _ _ _ Hmyvs Hv') as (y' & Hy' & Hyv').
        rewrite (valueOf_Name _ _ _ Hyv'). by apply (Hfirst j y'). }
    split; [done|].
    assert (Hmineview : mapM (viewParameter (<[lf:=OParameter (update y)]> h)) mine
                        = Some (<[i:=updateV v]> myvs)).
    { eapply write_parameter_views; try done.
      - by destruct flagsField.
      - by apply Hupdate. }
    assert (Hin : Some lf ∈ mine) by (by eapply list_elem_of_lookup_2).
    apply snapshot_Some.
    destruct flagsField.
    + exists x, verbs, env, rawFlags, (<[i:=updateV v]> flags), args, files.
      rewrite (write_parameter_readProgram h lf y _ Hobj),
              !(write_parameter_readStrings h lf y _ Hobj),
              !(write_parameter_readDict h lf y _ Hobj).
      do 4 (split; [done|]). split; [|split; [|done]].
      * unfold viewParameters. rewrite (write_parameter_readPointers h lf y _ Hobj), Hfptrs.
        exact Hmineview.
      * unfold viewParameters. rewrite (write_parameter_readPointers h lf y _ Hobj), Haptrs.
        simpl. eapply write_parameter_frame; try done.
        intros Hlfa. by apply (Hdisj (Some lf)).
    + exists x, verbs, env, rawFlags, flags, (<[i:=updateV v]> args), files.
      rewrite (write_parameter_readProgram h lf y _ Hobj),
              !(write_parameter_readStrings h lf y _ Hobj),
              !(write_parameter_readDict h lf y _ Hobj).
      do 4 (split; [done|]). split; [|split; [|done]].
      * unfold viewParameters. rewrite (write_parameter_readPointers h lf y _ Hobj), Hfptrs.
        simpl. eapply write_parameter_frame; try done.
        intros Hlff. by apply (Hdisj (Some lf)).
      * unfold viewParameters. rewrite (write_parameter_readPointers h lf y _ Hobj), Haptrs.
        exact Hmineview.
Qed.

Lemma valueOf_withValue (h : heap) value w y v :
  viewValue value h = Some w → valueOf h y v →
  valueOf h (withValue value y) (valueTo w v).
Proof. intros Hw (w0 & _ & ->). by exists w. Qed.

Lemma valueOf_withRaw (h : heap) raw y v :
  valueOf h y v → valueOf h (withRaw raw y) (rawTo raw v).
Proof. intros (w & Hw & ->). by exists w. Qed.

(** X21. On a program that can be read and whose Parameter structs are not
    shared between entries of Flags and Args, SetFlagValue and SetFlagRaw do
    not panic.  If a flag has the name, the program afterwards is the program
    before with the Value, or the Raw, of the first such flag replaced, and
    the result is nil; otherwise the result is the error "could not find
    flag" with the name and memory is unchanged. *)
Theorem SetFlag_snapshot (p : ref) (h : heap) (P : ProgramOf GoValue)
    (ptrs : list ref) (name : string) :
  snapshot p h = Some P →
  parameterPointers p h = Some ptrs → NoDup ptrs →
  (∀ value w, viewValue value h = Some w →
     ∃ err h', SetFlagValue p name value h = Some (err, h')
       ∧ match assignFirst name (valueTo w) (Prog.Flags P) with
         | Some flags => err = None ∧ snapshot p h' = Some (flagsTo flags P)
         | None => err = Some (Errorf ("could not find flag " +:+ name)) ∧ h' = h
         end)
  ∧ (∀ raw,
       ∃ err h', SetFlagRaw p name raw h = Some (err, h')
         ∧ match assignFirst name (rawTo raw) (Prog.Flags P) with
           | Some flags => err = None ∧ snapshot p h' = Some (flagsTo flags P)
           | None => err = Some (Errorf ("could not find flag " +:+ name)) ∧ h' = h
           end).
Proof.
  intros Hsnap Hptrs Hnd. split.
  - intros value w Hw.
    destruct (setter_snapshot true p h P ptrs name (withValue value) (valueTo w)
                (λ found : bool, if found then None
                                 else Some (Errorf ("could not find flag " +:+ name)))
                Hsnap Hptrs Hnd) as (found & h' & Hrun & Hres).
    { intros y v. by apply valueOf_withValue. }
    eexists _, h'. split; [exact Hrun|].
    destruct (assignFirst _ _ _); by destruct Hres as [-> ?].
  - intros raw.
    destruct (setter_snapshot true p h P ptrs name (withRaw raw) (rawTo raw)
                (λ found : bool, if found then None
                                 else Some (Errorf ("could not find flag " +:+ name)))
                Hsnap Hptrs Hnd) as (found & h' & Hrun & Hres).
    { intros y v. by apply valueOf_withRaw. }
    eexists _, h'. split; [exact Hrun|].
    destruct (assignFirst _ _ _); by destruct Hres as [-> ?].
Qed.

(** X22. On a program that can be read and whose Parameter structs are not
    shared between entries of Flags and Args, SetArgValue and SetArgRaw do
    not panic.  If a positional arg has the name, the program afterwards is
    the program before with the Value, or the Raw, of the first such arg
    replaced, and the result is nil; otherwise the result is the error
    "could not find arg" with the name and memory is unchanged. *)
Theorem SetArg_snapshot (p : ref) (h : heap) (P : ProgramOf GoValue)
    (ptrs : list ref) (name : string) :
  snapshot p h = Some P →
  parameterPointers p h = Some ptrs → NoDup ptrs →
  (∀ value w, viewValue value h = Some w →
     ∃ err h', SetArgValue p name value h = Some (err, h')
       ∧ match assignFirst name (valueTo w) (Prog.Args P) with
         | Some args => err = None ∧ snapshot p h' = Some (argsTo args P)
         | None => err = Some (Errorf ("could not find arg " +:+ name)) ∧ h' = h
         end)
  ∧ (∀ raw,
       ∃ err h', SetArgRaw p name raw h = Some (err, h')
         ∧ match assignFirst name (rawTo raw) (Prog.Args P) with
           | Some args => err = None ∧ snapshot p h' = Some (argsTo args P)
           | None => err = Some (Errorf ("could not find arg " +:+ name)) ∧ h' = h
           end).
Proof.
  intros Hsnap Hptrs Hnd. split.
  - intros value w Hw.
    destruct (setter_snapshot false p h P ptrs name (withValue value) (valueTo w)
                (λ found : bool, if found then None
                                 else Some (Errorf ("could not find arg " +:+ name)))
                Hsnap Hptrs Hnd) as (found & h' & Hrun & Hres).
    { intros y v. by apply valueOf_withValue. }
    eexists _, h'. split; [exact Hrun|].
    destruct (assignFirst _ _ _); by destruct Hres as [-> ?].
  - intros raw.
    destruct (setter_snapshot false p h P ptrs name (withRaw raw) (rawTo raw)
                (λ found : bool, if found then None
                                 else Some (Errorf ("could not find arg " +:+ name)))
                Hsnap Hptrs Hnd) as (found & h' & Hrun & Hres).
    { intros y v. by apply valueOf_withRaw. }
    eexists _, h'. split; [exact Hrun|].
    destruct (assignFirst _ _ _); by destruct Hres as [-> ?].
Qed.

(** *** Cloning, continued *)

Lemma cloneInto_nil dst ptrs :
  None ∈ ptrs → ∀ i (h : heap), cloneInto dst i ptrs h = None.
Proof.
  induction ptrs as [|f ptrs IH]; intros Hin i h; [by apply elem_of_nil in Hin|].
  simpl. unfold mbind, M_bind.
  destruct (Parameter_Clone f h) as [[c h1]|] eqn:Hclone; [|done].
  destruct (setPointer dst i c h1) as [[[] h2]|]; [|done].
  apply elem_of_cons in Hin as [<-|Hin]; [done | by apply IH].
Qed.

(** X23. Clone panics on a nil program, and on a program whose Flags or
    Args hold a nil pointer: Parameter.Clone dereferences its receiver. *)
Theorem Clone_nil (p : ref) (h : heap) (x : Prog.t ref ref ref)
    (rawFlags : list string) :
  Clone None h = None
  ∧ Parameter_Clone None h = None
  ∧ (readProgram p h = Some x →
     readStrings (Prog.RawFlags x) h = Some rawFlags →
     (∀ flags, readPointers (Prog.Flags x) h = Some flags → None ∈ flags →
               Clone p h = None)
     ∧ (∀ flags fxs args,
          readPointers (Prog.Flags x) h = Some flags →
          Forall2 (λ f y, readParameter f h = Some y) flags fxs →
          readPointers (Prog.Args x) h = Some args → None ∈ args →
          Clone p h = None)).
Proof.
  split; [done|]. split; [done|]. intros Hx HrawFlags.
  destruct (cloneStrings_run h _ _ HrawFlags) as (l1 & Hl1 & Hk1).
  set (h1 := <[l1:=OStrings rawFlags]> h) in *.
  assert (H01 : h ⊆ h1) by by apply insert_subseteq.
  split.
  - intros flags Hflags Hnil. unfold Clone.
    rewrite (bind_run _ _ h h x) by by apply get_run.
    rewrite (bind_run _ _ h h rawFlags) by by apply get_run.
    rewrite Hk1.
    rewrite (bind_run _ _ h1 h1 flags) by (apply get_run; by eapply readPointers_mono).
    rewrite (bind_run _ _ _ _ _ (makePointers_run _ h1)).
    unfold mbind at 1, M_bind at 1. by rewrite cloneInto_nil.
  - intros flags fxs args Hflags Hfxs Hargs Hnil.
    destruct (cloneParameters_run h1 flags fxs)
      as (l2 & cs2 & h2 & Hl2 & H12 & _ & _ & _ & Hk2).
    { eapply Forall2_impl; [exact Hfxs|]. intros f y. by apply readParameter_mono. }
    unfold Clone.
    rewrite (bind_run _ _ h h x) by by apply get_run.
    rewrite (bind_run _ _ h h rawFlags) by by apply get_run.
    rewrite Hk1.
    rewrite (bind_run _ _ h1 h1 flags) by (apply get_run; by eapply readPointers_mono).
    rewrite Hk2.
    rewrite (bind_run _ _ h2 h2 args).
    2:{ apply get_run. eapply readPointers_mono; [|exact Hargs]. by etrans. }
    rewrite (bind_run _ _ _ _ _ (makePointers_run _ h2)).
    unfold mbind at 1, M_bind at 1. by rewrite cloneInto_nil.
Qed.

(** X24. Parameter.Clone on a Parameter that can be read returns a pointer
    to a new struct with the same fields, the Value as the interface value
    it is, and writes nowhere else: the receiver and everything else in
    memory is as before, and a later write to the copy does not reach the
    receiver. *)
Theorem Parameter_Clone_copy (f : ref) (h : heap) (y : Param.t iface) :
  readParameter f h = Some y →
  ∃ c h',
    Parameter_Clone f h = Some (Some c, h')
    ∧ h !! c = None
    ∧ h' = <[c:=OParameter y]> h
    ∧ Some c ≠ f
    ∧ readParameter (Some c) h' = Some y
    ∧ h ⊆ h'
    ∧ ∀ o, readParameter f (<[c:=o]> h') = Some y.
Proof.
  intros Hy. exists (fresh (dom h)), (<[fresh (dom h):=OParameter y]> h).
  assert (Hc : h !! fresh (dom h) = None) by apply fresh_None.
  assert (Hne : Some (fresh (dom h)) ≠ f).
  { intros <-. simpl in Hy. by rewrite Hc in Hy. }
  split; [by apply Parameter_Clone_run|]. split; [done|]. split; [done|].
  split; [done|]. split; [simpl; by rewrite lookup_insert_eq|].
  split; [by apply insert_subseteq|].
  intros o. destruct f as [l|]; [|done]. simpl in *.
  rewrite !lookup_insert_ne by congruence. done.
Qed.

End SettersMore.

(** ** The render command *)

(** *** Paths *)

Lemma splitSlash_cons (s : string) : ∃ x xs, splitSlash s = x :: xs.
Proof.
  induction s as [|c s (x & xs & IH)]; simpl; [by eexists _, _|].
  destruct (decide (c = "/"%char)); [by eexists _, _|].
  rewrite IH. by eexists _, _.
Qed.

Lemma splitSlash_app (a b : string) :
  splitSlash (a +:+ String "/" b) = splitSlash a ++ splitSlash b.
Proof.
  induction a as [|c a IH].
  - done.
  - change (String c a +:+ String "/" b) with (String c (a +:+ String "/" b)).
    simpl. rewrite IH. destruct (decide (c = "/"%char)); [done|].
    by destruct (splitSlash_cons a) as (x & xs & ->).
Qed.

Lemma splitSlash_slash (a : string) : splitSlash (a +:+ "/") = splitSlash a ++ [""].
Proof. apply (splitSlash_app a ""). Qed.

Lemma cleanElems_app (rooted : bool) (xs ys kept : list string) :
  cleanElems rooted kept (xs ++ ys) = cleanElems rooted (cleanElems rooted kept xs) ys.
Proof.
  revert kept. induction xs as [|e xs IH]; intros kept; [done|]. simpl.
  repeat case_decide; try done. destruct kept as [|k kept]; [done|].
  by case_decide.
Qed.

Lemma string_app_assoc (a b c : string) : (a +:+ b) +:+ c = a +:+ (b +:+ c).
Proof.
  induction a as [|x a IH]; [done|].
  change (String x a +:+ b) with (String x (a +:+ b)).
  change (String x (a +:+ b) +:+ c) with (String x ((a +:+ b) +:+ c)).
  by rewrite IH.
Qed.

Lemma HasPrefix_slash_app (d rest : string) :
  d ≠ "" → HasPrefix (d +:+ rest) "/" = HasPrefix d "/".
Proof.
  intros Hd. destruct d as [|c d]; [done|].
  change (String c d +:+ rest) with (String c (d +:+ rest)).
  unfold HasPrefix. cbn [String.prefix].
  destruct (ascii_dec _ _); [|done]. by destruct (d +:+ rest), d.
Qed.

Lemma Clean_slash (d : string) : d ≠ "" → Clean (d +:+ "/") = Clean d.
Proof.
  intros Hd. unfold Clean. cbv zeta. rewrite HasPrefix_slash_app by done.
  by rewrite splitSlash_slash, cleanElems_app.
Qed.

Lemma Clean_slash_slash (d b : string) :
  d ≠ "" → Clean ((d +:+ "/") +:+ String "/" b) = Clean (d +:+ String "/" b).
Proof.
  intros Hd. unfold Clean. cbv zeta.
  assert (Hempty : ∀ rooted kept, cleanElems rooted kept (splitSlash "") = kept) by done.
  rewrite !splitSlash_app, <- app_assoc, !cleanElems_app, Hempty.
  rewrite string_app_assoc, !HasPrefix_slash_app by done. done.
Qed.

(** A slash behind the first element makes no difference to
    [filepath.Join]. *)
Lemma Join_slash (d b : string) : d ≠ "" → Join [d +:+ "/"; b] = Join [d; b].
Proof.
  intros Hd. unfold Join.
  assert (Hd' : d +:+ "/" ≠ "") by by destruct d.
  rewrite !filter_cons, filter_nil.
  rewrite (decide_True (P := d +:+ "/" ≠ "")), (decide_True (P := d ≠ "")) by done.
  destruct (decide (b ≠ "")).
  - apply (Clean_slash_slash d b Hd).
  - apply (Clean_slash d Hd).
Qed.

Lemma substring_app_length (d x : string) (n : nat) :
  String.substring (String.length d) n (d +:+ x) = String.substring 0 n x.
Proof. induction d as [|c d IH]; [done|]. exact IH. Qed.

Lemma length_string_app (d x : string) :
  String.length (d +:+ x) = String.length d + String.length x.
Proof.
  induction d as [|c d IH]; [done|].
  change (String c d +:+ x) with (String c (d +:+ x)). simpl. by rewrite IH.
Qed.

Lemma HasSuffix_slash (d : string) : HasSuffix (d +:+ "/") "/" = true.
Proof.
  unfold HasSuffix. rewrite length_string_app. simpl.
  rewrite bool_decide_true by lia. simpl.
  replace (String.length d + 1 - 1) with (String.length d) by lia.
  by rewrite substring_app_length.
Qed.

Lemma splitSlash_noSlash (name : string) : noSlash name → splitSlash name = [name].
Proof.
  unfold noSlash. induction name as [|c name IH]; [done|]. simpl.
  intros Hno. apply not_elem_of_cons in Hno as [Hc Hno].
  rewrite decide_False by done. by rewrite IH.
Qed.

Lemma stripSlashes_noSlash (name : string) : noSlash name → stripSlashes name = name.
Proof.
  unfold noSlash. induction name as [|c name IH]; [done|]. simpl.
  intros Hno. apply not_elem_of_cons in Hno as [Hc Hno].
  rewrite IH by done. destruct name; [|done]. by rewrite decide_False by done.
Qed.

Lemma stripSlashes_app (x y : string) :
  stripSlashes y ≠ "" → stripSlashes (x +:+ y) = x +:+ stripSlashes y.
Proof.
  intros Hy. induction x as [|c x IH]; [done|].
  change (String c x +:+ y) with (String c (x +:+ y)). simpl. rewrite IH.
  change (String c x +:+ stripSlashes y) with (String c (x +:+ stripSlashes y)).
  destruct (x +:+ stripSlashes y) eqn:Hxy; [|done].
  destruct x; [|done]. by destruct (stripSlashes y).
Qed.

(** [filepath.Base] of a path that ends in a slash and a name is the name. *)
Lemma Base_name (dir name : string) :
  name ≠ "" → noSlash name → Base (dir +:+ String "/" name) = name.
Proof.
  intros Hname Hno. unfold Base.
  rewrite decide_False by by destruct dir.
  assert (Hstrip : stripSlashes (String "/" name) = String "/" name).
  { simpl. rewrite stripSlashes_noSlash by done. by destruct name. }
  cbv zeta. rewrite stripSlashes_app by by rewrite Hstrip.
  rewrite Hstrip, splitSlash_app, (splitSlash_noSlash name) by done.
  rewrite last_snoc. simpl. by rewrite decide_False by done.
Qed.

(** A file directly in the working directory is its own base. *)
Lemma Base_plain (name : string) : name ≠ "" → noSlash name → Base name = name.
Proof.
  intros Hname Hno. unfold Base. rewrite decide_False by done. cbv zeta.
  rewrite stripSlashes_noSlash, splitSlash_noSlash by done. simpl.
  by rewrite decide_False by done.
Qed.

(** *** The loop over the files *)

Section RunMore.
Import Render.
Context {World : Type}.
Variable Stat : World → string → result bool.
Variable Open : World → string → option error.
Variable RenderDirectory : World → string → string → World * option error.
Variable RenderFile : World → string → string → World * option error.

Abbreviation body := (fileBody Stat Open RenderDirectory RenderFile).
Abbreviation loop := (rangeFiles Stat Open RenderDirectory RenderFile).
Abbreviation run := (runFiles Stat Open RenderDirectory RenderFile).

Lemma rangeFiles_app settings (xs ys : list string) (st : Running World) :
  loop settings (xs ++ ys) st
  = match loop settings xs st with
    | (st', None) => loop settings ys st'
    | (st', Some err) => (st', Some err)
    end.
Proof.
  revert st. induction xs as [|x xs IH]; intros st; simpl; [done|].
  destruct (body settings st x) as [st' [err|]]; [done | apply IH].
Qed.

(** What one round adds to the trace and to the deferred calls. *)
Lemma fileBody_cases settings (st : Running World) (file : string) :
  ∃ actions,
    trace (body settings st file).1 = trace st ++ AStat file :: actions
    ∧ ((actions = [] ∧ is_Some (body settings st file).2)
       ∨ (actions = [ARenderDirectory file (OutputDirectory settings)]
          ∧ OutputDirectory settings ≠ ""
          ∧ deferred (body settings st file).1 = deferred st)
       ∨ (actions = [AOpen file] ∧ is_Some (body settings st file).2)
       ∨ (actions = [AOpen file;
                     ARenderFile file
                       (if decide (OutputFile settings ≠ "") then OutputFile settings
                        else Join [OutputDirectory settings; Base file])]
          ∧ deferred (body settings st file).1 = file :: deferred st)).
Proof.
  unfold fileBody. cbv zeta. simpl.
  destruct (Stat (world st) file) as [[|]|err]; simpl.
  - destruct (decide (OutputDirectory settings = "")) as [Hd|Hd]; simpl.
    + exists []. split; [done|]. left. split; [done | by eexists].
    + destruct (RenderDirectory _ _ _) as [w' err] eqn:Hrender. simpl.
      exists [ARenderDirectory file (OutputDirectory settings)].
      split; [by rewrite <- app_assoc|]. right. left. done.
  - destruct (Open (world st) file) as [err|]; simpl.
    + exists [AOpen file]. split; [by rewrite <- app_assoc|].
      right. right. left. split; [done | by eexists].
    + destruct (RenderFile _ _ _) as [w' err] eqn:Hrender. simpl.
      eexists. split; [by rewrite <- !app_assoc|]. right. right. right. done.
  - exists []. split; [done|]. left. split; [done | by eexists].
Qed.


Lemma stats_app l k : stats (l ++ k) = stats l ++ stats k.
Proof. apply omap_app. Qed.
Lemma opens_app l k : opens (l ++ k) = opens l ++ opens k.
Proof. apply omap_app. Qed.
Lemma closes_app l k : closes (l ++ k) = closes l ++ closes k.
Proof. apply omap_app. Qed.
Lemma stats_stat file l : stats (AStat file :: l) = file :: stats l.
Proof. done. Qed.
Lemma opens_stat file l : opens (AStat file :: l) = opens l.
Proof. done. Qed.
Lemma closes_stat file l : closes (AStat file :: l) = closes l.
Proof. done. Qed.

(** What the loop adds to the trace and to the deferred calls. *)
Lemma rangeFiles_cases settings (files_ : list string) (st : Running World) :
  ∃ new n,
    trace (loop settings files_ st).1 = trace st ++ new
    ∧ stats new = take n files_
    ∧ closes new = []
    ∧ opens new `sublist_of` stats new
    ∧ Forall (placed settings files_) new
    ∧ ((loop settings files_ st).2 = None →
       n = length files_
       ∧ deferred (loop settings files_ st).1 = reverse (opens new) ++ deferred st).
Proof.
  revert st. induction files_ as [|file files_ IH]; intros st.
  { exists [], 0. simpl. by rewrite app_nil_r. }
  simpl.
  destruct (fileBody_cases settings st file) as (actions & Htrace & Hcases).
  assert (Hactions : stats actions = [] ∧ closes actions = []
                     ∧ opens actions `sublist_of` [file]
                     ∧ Forall (placed settings (file :: files_)) actions).
  { destruct Hcases as [[-> _]|[(-> & Hd & _)|[[-> _]|[-> _]]]]; simpl;
      (split; [done|]); (split; [done|]); (split; [by try apply sublist_nil_l|]).
    - constructor.
    - constructor; [|constructor]. split; [apply list_elem_of_here | done].
    - constructor; [done | constructor].
    - constructor; [done|]. constructor; [|constructor].
      split; [apply list_elem_of_here | done]. }
  destruct Hactions as (Hstats & Hcloses & Hopens & Hplaced).
  destruct (body settings st file) as [st1 [err|]] eqn:Hbody; simpl in *.
  - exists (AStat file :: actions), 1. split; [done|].
    rewrite stats_stat, opens_stat, closes_stat, Hstats, Hcloses.
    split; [done|]. split; [done|]. split; [done|]. split; [by constructor | done].
  - destruct (IH st1) as (new & n & Htrace' & Hstats' & Hcloses' & Hopens' & Hplaced' & Hok).
    exists (AStat file :: actions ++ new), (S n).
    split; [by rewrite Htrace', Htrace, <- app_assoc|].
    rewrite stats_stat, opens_stat, closes_stat, stats_app, opens_app, closes_app.
    rewrite Hstats' in Hopens'. rewrite Hstats, Hcloses, Hstats', Hcloses'. simpl.
    split; [done|]. split; [done|]. split.
    { change (file :: take n files_) with ([file] ++ take n files_).
      by apply sublist_app. }
    split.
    { constructor; [done|]. apply Forall_app. split; [done|].
      eapply Forall_impl; [exact Hplaced'|].
      intros [] Ha; simpl in *; try done.
      - destruct Ha as (Hin & ?). split; [by apply list_elem_of_further | done].
      - destruct Ha as (Hin & ?). split; [by apply list_elem_of_further | done]. }
    intros Herr. destruct (Hok Herr) as [-> Hdeferred]. split; [done|].
    rewrite Hdeferred, reverse_app, <- app_assoc. f_equal.
    destruct Hcases as [[_ [? [=]]]|[(-> & _ & ->)|[[_ [? [=]]]|[-> ->]]]]; done.
Qed.

(** The settings the loop runs with. *)
Lemma slash_cases settings :
  ∃ settings',
    (if bool_decide (OutputDirectory settings ≠ "")
        && negb (HasSuffix (OutputDirectory settings) "/")
     then appendSlash settings else settings) = settings'
    ∧ OutputFile settings' = OutputFile settings
    ∧ ((OutputDirectory settings = "" ∧ OutputDirectory settings' = "")
       ∨ (OutputDirectory settings ≠ ""
          ∧ HasSuffix (OutputDirectory settings) "/" = true
          ∧ OutputDirectory settings' = OutputDirectory settings)
       ∨ (OutputDirectory settings ≠ ""
          ∧ HasSuffix (OutputDirectory settings) "/" = false
          ∧ OutputDirectory settings' = OutputDirectory settings +:+ "/")).
Proof.
  eexists. split; [done|].
  destruct (decide (OutputDirectory settings = "")) as [Hd|Hd].
  - rewrite bool_decide_false by (by intros ?). simpl. split; [done|]. by left.
  - rewrite bool_decide_true by done. simpl.
    destruct (HasSuffix (OutputDirectory settings) "/") eqn:Hslash; simpl;
      (split; [done|]); right; [by left | by right].
Qed.

(** The outcome of the command in terms of the loop. *)
Lemma runFiles_cases settings (files_ : list string) (w w' : World)
    (trace' : list Action) (err : option error) :
  run settings files_ w = (w', trace', err) →
  (OutputFile settings ≠ "" ∧ 1 < length files_ ∧ trace' = [] ∧ w' = w
   ∧ err = Some (New "output-file parameter can only be used with a single file"))
  ∨ ∃ settings' new n,
      OutputFile settings' = OutputFile settings
      ∧ ((OutputDirectory settings = "" ∧ OutputDirectory settings' = "")
         ∨ (OutputDirectory settings ≠ ""
            ∧ HasSuffix (OutputDirectory settings) "/" = true
            ∧ OutputDirectory settings' = OutputDirectory settings)
         ∨ (OutputDirectory settings ≠ ""
            ∧ HasSuffix (OutputDirectory settings) "/" = false
            ∧ OutputDirectory settings' = OutputDirectory settings +:+ "/"))
      ∧ stats new = take n files_
      ∧ closes new = []
      ∧ opens new `sublist_of` stats new
      ∧ Forall (placed settings' files_) new
      ∧ match err with
        | None => n = length files_ ∧ trace' = new ++ (AClose <$> reverse (opens new))
        | Some _ => trace' = new
        end.
Proof.
  unfold runFiles.
  destruct (bool_decide (OutputFile settings ≠ "") && bool_decide (1 < length files_))
    eqn:Hcheck.
  { apply andb_prop in Hcheck as [Hfile%bool_decide_eq_true Hlen%bool_decide_eq_true].
    intros [= <- <- <-]. by left. }
  cbv zeta. destruct (slash_cases settings) as (settings' & -> & Hfile & Hdir).
  destruct (rangeFiles_cases settings' files_ (mkRunning w [] []))
    as (new & n & Htrace & Hstats & Hcloses & Hopens & Hplaced & Hok).
  destruct (loop settings' files_ (mkRunning w [] [])) as [st [e|]]; simpl in *;
    intros [= <- <- <-]; right; exists settings', new, n;
    (split; [done|]); (split; [done|]); (split; [done|]); (split; [done|]);
    (split; [done|]); (split; [done|]).
  - done.
  - destruct (Hok eq_refl) as [-> Hdeferred]. split; [done|].
    by rewrite Htrace, Hdeferred, app_nil_r.
Qed.

Lemma elem_of_trace_closes (a : Action) (new : list Action) (closed : list string) :
  a ∈ new ++ (AClose <$> closed) → (∀ file, a ≠ AClose file) → a ∈ new.
Proof.
  intros [Hin|Hin]%elem_of_app Hne; [done|].
  apply list_elem_of_fmap in Hin as (file & -> & _). by destruct (Hne file).
Qed.

(** X25. Where the command sends the renderer.  A regular file of the
    command line is rendered to the output file when one is given, and
    otherwise to the output directory joined with the base name of the
    file: the directories of its path are dropped, so two files of the same
    base name go to the same place.  A directory of the command line is
    rendered into the output directory with one slash behind it, and only
    when the output directory is not empty. *)
Theorem runFiles_output_paths settings (files_ : list string) (w w' : World)
    (trace' : list Action) (err : option error) :
  run settings files_ w = (w', trace', err) →
  (∀ file outputFile, ARenderFile file outputFile ∈ trace' →
     file ∈ files_
     ∧ outputFile = (if decide (OutputFile settings = "")
                     then Join [OutputDirectory settings; Base file]
                     else OutputFile settings))
  ∧ (∀ directory outputDirectory,
       ARenderDirectory directory outputDirectory ∈ trace' →
       directory ∈ files_
       ∧ OutputDirectory settings ≠ ""
       ∧ HasSuffix outputDirectory "/" = true
       ∧ outputDirectory = (if HasSuffix (OutputDirectory settings) "/"
                            then OutputDirectory settings
                            else OutputDirectory settings +:+ "/"))
  ∧ (∀ dir name outputFile,
       OutputFile settings = "" → name ≠ "" → noSlash name →
       ARenderFile (dir +:+ "/" +:+ name) outputFile ∈ trace' →
       outputFile = Join [OutputDirectory settings; name]).
Proof.
  intros Hrun.
  assert (Hfiles : ∀ file outputFile, ARenderFile file outputFile ∈ trace' →
            file ∈ files_
            ∧ outputFile = (if decide (OutputFile settings = "")
                            then Join [OutputDirectory settings; Base file]
                            else OutputFile settings)).
  { intros file outputFile Hin.
    apply runFiles_cases in Hrun
      as [(_ & _ & -> & _)|(settings' & new & n & Hfile & Hdir & _ & _ & _ & Hplaced & Htrace)].
    { by apply elem_of_nil in Hin. }
    assert (Hnew : ARenderFile file outputFile ∈ new).
    { destruct err; destruct_and?; subst trace'; [done|].
      by eapply elem_of_trace_closes. }
    rewrite Forall_forall in Hplaced. destruct (Hplaced _ Hnew) as [Hmem ->].
    split; [done|]. rewrite Hfile.
    destruct (decide (OutputFile settings = "")) as [Hempty|Hgiven].
    - rewrite decide_False by (by intros ?).
      destruct Hdir as [[-> ->]|[(_ & _ & ->)|(Hd & _ & ->)]]; [done | done |].
      by apply Join_slash.
    - by rewrite decide_True by done. }
  split; [exact Hfiles|]. split.
  - intros directory outputDirectory Hin.
    apply runFiles_cases in Hrun
      as [(_ & _ & -> & _)|(settings' & new & n & Hfile & Hdir & _ & _ & _ & Hplaced & Htrace)].
    { by apply elem_of_nil in Hin. }
    assert (Hnew : ARenderDirectory directory outputDirectory ∈ new).
    { destruct err; destruct_and?; subst trace'; [done|].
      by eapply elem_of_trace_closes. }
    rewrite Forall_forall in Hplaced.
    destruct (Hplaced _ Hnew) as (Hmem & -> & Hne).
    split; [done|].
    destruct Hdir as [[Hd Hd']|[(Hd & Hslash & Hd')|(Hd & Hslash & Hd')]];
      rewrite Hd' in *; [done | |].
    + by rewrite Hslash.
    + rewrite Hslash. split; [done|]. split; [apply HasSuffix_slash | done].
  - intros dir name outputFile Hempty Hname Hno Hin.
    destruct (Hfiles _ _ Hin) as [_ ->]. rewrite decide_True by done.
    change (dir +:+ "/" +:+ name) with (dir +:+ String "/" name).
    by rewrite (Base_name dir name).
Qed.


(** X27. An error ends the command where it occurs: the files behind the
    one that failed are not looked at, so the outcome is the same whatever
    they are, and what was rendered before stays rendered.  An output file
    given together with several files is refused before anything is looked
    at.  A directory is refused when the output directory is empty, also
    when an output file is given. *)
Theorem runFiles_first_failure settings (before after : list string) (w : World) :
  (∀ w' trace' err,
     OutputFile settings = "" ∨ (length (before ++ after) ≤ 1)%nat →
     run settings before w = (w', trace', Some err) →
     run settings (before ++ after) w = (w', trace', Some err))
  ∧ (OutputFile settings ≠ "" → 1 < length before →
     run settings before w
     = (w, [], Some (New "output-file parameter can only be used with a single file")))
  ∧ (∀ directory,
       Stat w directory = Ok true → OutputDirectory settings = "" →
       run settings [directory] w
       = (w, [AStat directory],
          Some (New "output-directory parameter is required when rendering a directory"))).
Proof.
  split; [|split].
  - intros w' trace' err Hcheck. unfold runFiles.
    assert (Hafter : bool_decide (OutputFile settings ≠ "")
                     && bool_decide (1 < length (before ++ after)) = false).
    { destruct Hcheck as [Hfile|Hlen].
      - by rewrite bool_decide_false by (by intros ?).
      - rewrite (bool_decide_false (1 < _)) by lia. apply andb_false_r. }
    assert (Hbefore : bool_decide (OutputFile settings ≠ "")
                      && bool_decide (1 < length before) = false).
    { destruct Hcheck as [Hfile|Hlen].
      - by rewrite bool_decide_false by (by intros ?).
      - rewrite length_app in Hlen.
        rewrite (bool_decide_false (1 < _)) by lia. apply andb_false_r. }
    rewrite Hafter, Hbefore. cbv zeta. rewrite rangeFiles_app.
    by destruct (loop _ before _) as [st [e|]].
  - intros Hfile Hlen. unfold runFiles.
    by rewrite !bool_decide_true by done.
  - intros directory Hstat Hd. unfold runFiles.
    rewrite (bool_decide_false (1 < length [directory])) by (simpl; lia).
    rewrite andb_false_r.
    rewrite (bool_decide_false (OutputDirectory settings ≠ "")) by (by intros ?).
    simpl. unfold fileBody. simpl. rewrite Hstat.
    by rewrite decide_True by done.
Qed.

End RunMore.

(** * The further properties at the sample programs *)

Ltac elem_cases H :=
  simpl in H; repeat (apply elem_of_cons in H as [->|H]);
  [..| by apply elem_of_nil in H].

Lemma ComputeArgs_length_witness :
  ComputeArgs renderPlain countProgram {["count" := VInt 5]}
  = Ok ["run"; "-r"; "-n"; "5"; "--verbose"; "in.txt"]
  ∧ length ["run"; "-r"; "-n"; "5"; "--verbose"; "in.txt"]
    = length (Prog.Verbs countProgram) + length (Prog.RawFlags countProgram)
      + length (Prog.Flags countProgram)
      + length (filter (λ f, Param.NoValue f = false) (Prog.Flags countProgram))
      + length (Prog.Args countProgram).
Proof.
  split; [vm_compute; reflexivity|].
  apply (ComputeArgs_length renderPlain countProgram {["count" := VInt 5]}).
  vm_compute; reflexivity.
Defined.

Lemma ComputeArgs_runtime_keys_witness :
  (∀ f, f ∈ Prog.Flags countProgram → Param.NoValue f = false →
        ({["count" := VInt 5]} : gmap string GoValue) !! Param.Name f
        = ({["count" := VInt 5; "verbose" := VNil; "colour" := VString "red"]}
             : gmap string GoValue) !! Param.Name f)
  ∧ (∀ a, a ∈ Prog.Args countProgram →
          ({["count" := VInt 5]} : gmap string GoValue) !! Param.Name a
          = ({["count" := VInt 5; "verbose" := VNil; "colour" := VString "red"]}
               : gmap string GoValue) !! Param.Name a)
  ∧ ComputeArgs renderPlain countProgram {["count" := VInt 5]}
    = ComputeArgs renderPlain countProgram
        {["count" := VInt 5; "verbose" := VNil; "colour" := VString "red"]}.
Proof.
  assert (Hflags : ∀ f, f ∈ Prog.Flags countProgram → Param.NoValue f = false →
            ({["count" := VInt 5]} : gmap string GoValue) !! Param.Name f
            = ({["count" := VInt 5; "verbose" := VNil; "colour" := VString "red"]}
                 : gmap string GoValue) !! Param.Name f).
  { intros x Hx. elem_cases Hx; vm_compute; congruence. }
  assert (Hargs : ∀ a, a ∈ Prog.Args countProgram →
            ({["count" := VInt 5]} : gmap string GoValue) !! Param.Name a
            = ({["count" := VInt 5; "verbose" := VNil; "colour" := VString "red"]}
                 : gmap string GoValue) !! Param.Name a).
  { intros x Hx. elem_cases Hx; vm_compute; congruence. }
  split; [exact Hflags|]. split; [exact Hargs|].
  exact (ComputeArgs_runtime_keys renderPlain countProgram _ _ Hflags Hargs).
Defined.

Lemma ComputeArgs_reads_witness :
  Prog.Verbs countProgram = Prog.Verbs countProgramVariant
  ∧ Prog.RawFlags countProgram = Prog.RawFlags countProgramVariant
  ∧ Forall2 sameFlag (Prog.Flags countProgram) (Prog.Flags countProgramVariant)
  ∧ Forall2 sameArg (Prog.Args countProgram) (Prog.Args countProgramVariant)
  ∧ ComputeArgs renderPlain countProgram {["count" := VInt 5]}
    = ComputeArgs renderPlain countProgramVariant {["count" := VInt 5]}.
Proof.
  assert (Hflags : Forall2 sameFlag (Prog.Flags countProgram)
                           (Prog.Flags countProgramVariant)).
  { constructor; [|constructor; [|constructor]];
      (split; [done|]); (split; [done|]); (split; [done|]); simpl; intros; by try split. }
  assert (Hargs : Forall2 sameArg (Prog.Args countProgram)
                          (Prog.Args countProgramVariant)).
  { constructor; [|constructor]. by repeat split. }
  split; [reflexivity|]. split; [reflexivity|]. split; [exact Hflags|].
  split; [exact Hargs|].
  exact (ComputeArgs_reads renderPlain countProgram countProgramVariant
           {["count" := VInt 5]} eq_refl eq_refl Hflags Hargs).
Defined.

Lemma ComputeArgs_raw_only_witness :
  (∀ f, f ∈ Prog.Flags rawProgram → Param.NoValue f = false →
        (∅ : gmap string GoValue) !! Param.Name f = None ∧ Param.Raw f ≠ "")
  ∧ (∀ a, a ∈ Prog.Args rawProgram →
          (∅ : gmap string GoValue) !! Param.Name a = None ∧ Param.Raw a ≠ "")
  ∧ ComputeArgs renderPlain rawProgram ∅
    = Ok ["-n"; "many"; "--quiet"; "a b"].
Proof.
  assert (Hflags : ∀ f, f ∈ Prog.Flags rawProgram → Param.NoValue f = false →
            (∅ : gmap string GoValue) !! Param.Name f = None ∧ Param.Raw f ≠ "").
  { intros x Hx. elem_cases Hx; simpl; intros; by split. }
  assert (Hargs : ∀ a, a ∈ Prog.Args rawProgram →
            (∅ : gmap string GoValue) !! Param.Name a = None ∧ Param.Raw a ≠ "").
  { intros x Hx. elem_cases Hx; simpl; intros; by split. }
  split; [exact Hflags|]. split; [exact Hargs|].
  exact (ComputeArgs_raw_only renderPlain rawProgram ∅ Hflags Hargs).
Defined.

Lemma ComputeArgs_runtime_shadows_Raw_witness :
  Forall2 (λ x x', x' = x
                   ∨ (is_Some (({["count" := VInt 5]} : gmap string GoValue)
                                 !! Param.Name x)
                      ∧ ∃ raw, x' = rawTo raw x))
          (Prog.Flags countProgram) (Prog.Flags countProgramRaw)
  ∧ Forall2 (λ x x', x' = x
                     ∨ (is_Some (({["count" := VInt 5]} : gmap string GoValue)
                                   !! Param.Name x)
                        ∧ ∃ raw, x' = rawTo raw x))
            (Prog.Args countProgram) (Prog.Args countProgramRaw)
  ∧ ComputeArgs renderPlain countProgram {["count" := VInt 5]}
    = ComputeArgs renderPlain countProgramRaw {["count" := VInt 5]}.
Proof.
  assert (Hflags : Forall2 (λ x x', x' = x
                     ∨ (is_Some (({["count" := VInt 5]} : gmap string GoValue)
                                   !! Param.Name x)
                        ∧ ∃ raw, x' = rawTo raw x))
            (Prog.Flags countProgram) (Prog.Flags countProgramRaw)).
  { constructor; [|constructor; [by left | constructor]].
    right. split; [by exists (VInt 5) | by exists "9"]. }
  assert (Hargs : Forall2 (λ x x', x' = x
                     ∨ (is_Some (({["count" := VInt 5]} : gmap string GoValue)
                                   !! Param.Name x)
                        ∧ ∃ raw, x' = rawTo raw x))
            (Prog.Args countProgram) (Prog.Args countProgramRaw)).
  { constructor; [by left | constructor]. }
  split; [exact Hflags|]. split; [exact Hargs|].
  exact (ComputeArgs_runtime_shadows_Raw renderPlain countProgram countProgramRaw
           {["count" := VInt 5]} eq_refl eq_refl Hflags Hargs).
Defined.


Lemma RunIntoWriter_command_witness :
  map_to_list (Prog.Env envProgram) ≡ₚ map_to_list (Prog.Env envProgram)
  ∧ Exec.started
      (Exec.RunIntoWriter renderPlain noLookPath ["PATH=/bin"] map_to_list sampleChild
         envProgram tt (∅ : gmap string unit) ∅ "")
    = Some (command ["PATH=/bin"] map_to_list envProgram "/usr/bin/env" [])
  ∧ Exec.Path (command ["PATH=/bin"] map_to_list envProgram "/usr/bin/env" [])
    = "/usr/bin/env"
  ∧ ComputeArgs renderPlain envProgram ∅ = Ok []
  ∧ Exec.Stdin (command ["PATH=/bin"] map_to_list envProgram "/usr/bin/env" [])
    = Some "in"
  ∧ ∃ own,
      Exec.Env (command ["PATH=/bin"] map_to_list envProgram "/usr/bin/env" [])
      = ["PATH=/bin"] ++ own
      ∧ own ≡ₚ (λ kv, kv.1 +:+ "=" +:+ kv.2) <$> map_to_list (Prog.Env envProgram)
      ∧ length own = size (Prog.Env envProgram).
Proof.
  split; [reflexivity|]. split; [vm_compute; reflexivity|].
  apply (RunIntoWriter_command renderPlain noLookPath ["PATH=/bin"] map_to_list
           sampleChild envProgram tt (∅ : gmap string unit) ∅ ""
           (command ["PATH=/bin"] map_to_list envProgram "/usr/bin/env" [])).
  - reflexivity.
  - vm_compute; reflexivity.
Defined.

Lemma LoadProgramsFromFS_first_failure_witness :
  LoadProgramsFromFS nameDecode (Listing (Ok [File "ls.yaml" (Ok "ls")])) "."
  = Ok [named "ls"]
  ∧ hidden "bad.yaml" = false
  ∧ isYaml "bad.yaml" = true
  ∧ nameDecode "" = Err (Foreign "EOF")
  ∧ LoadProgramsFromFS nameDecode
      (Listing (Ok [File "ls.yaml" (Ok "ls"); File "bad.yaml" (Ok "");
                    File "later.yaml" denied])) "."
    = Err (Wrap (Wrap (Foreign "EOF") "could not decode program")
                "could not load program from file bad.yaml").
Proof.
  split; [vm_compute; reflexivity|]. split; [reflexivity|]. split; [reflexivity|].
  split; [reflexivity|].
  exact (proj1 (proj2 (LoadProgramsFromFS_first_failure nameDecode "."
                         [File "ls.yaml" (Ok "ls")] [File "later.yaml" denied]
                         [named "ls"] "bad.yaml" eq_refl eq_refl))
           "" (Foreign "EOF") eq_refl eq_refl).
Defined.

Lemma LoadRepositories_first_failure_witness :
  Forall2 (λ r programs, loaded nameDecode toolsStat toolsDirFS r = Ok programs)
          ["a"] [[named "ls"; named "curl"; named "dig"]]
  ∧ NoDup (Prog.Name <$> concat [[named "ls"; named "curl"; named "dig"]])
  ∧ toolsStat "missing" = Some (Foreign "no such file or directory")
  ∧ LoadRepositories nameDecode toolsStat toolsDirFS ["a"; "missing"; "tools"]
    = Err (Wrap (Foreign "no such file or directory")
                "could not stat repository missing").
Proof.
  assert (Hall : Forall2 (λ r programs,
                    loaded nameDecode toolsStat toolsDirFS r = Ok programs)
                   ["a"] [[named "ls"; named "curl"; named "dig"]]).
  { constructor; [vm_compute; reflexivity | constructor]. }
  assert (Hnd : NoDup (Prog.Name <$> concat [[named "ls"; named "curl"; named "dig"]])).
  { apply (bool_decide_unpack _). vm_compute. exact I. }
  split; [exact Hall|]. split; [exact Hnd|]. split; [reflexivity|].
  exact (proj1 (LoadRepositories_first_failure nameDecode toolsStat toolsDirFS
                  ["a"] ["tools"] "missing" _ Hall Hnd)
           (Foreign "no such file or directory") eq_refl).
Defined.

Lemma LoadRepositories_order_witness :
  ["a"; "tools"] ≡ₚ ["tools"; "a"]
  ∧ LoadRepositories nameDecode toolsStat toolsDirFS ["a"; "tools"] = Ok toolsRegistry
  ∧ LoadRepositories nameDecode toolsStat toolsDirFS ["tools"; "a"] = Ok toolsRegistry.
Proof.
  split; [apply perm_swap|]. split; [vm_compute; reflexivity|].
  apply (LoadRepositories_order nameDecode toolsStat toolsDirFS
           ["a"; "tools"] ["tools"; "a"] toolsRegistry).
  - apply perm_swap.
  - vm_compute; reflexivity.
Defined.

Lemma LoadRepositories_registry_witness :
  LoadRepositories nameDecode toolsStat toolsDirFS ["a"; "tools"] = Ok toolsRegistry
  ∧ ∃ pss,
      Forall2 (λ r programs, loaded nameDecode toolsStat toolsDirFS r = Ok programs)
              ["a"; "tools"] pss
      ∧ dom toolsRegistry = list_to_set (Prog.Name <$> concat pss)
      ∧ size toolsRegistry = length (concat pss)
      ∧ (∀ name program,
           toolsRegistry !! name = Some program → Prog.Name program = name)
      ∧ (∀ program,
           program ∈ concat pss → toolsRegistry !! Prog.Name program = Some program).
Proof.
  split; [vm_compute; reflexivity|].
  apply (LoadRepositories_registry nameDecode toolsStat toolsDirFS
           ["a"; "tools"] toolsRegistry).
  vm_compute; reflexivity.
Defined.

Lemma setters_missing_witness :
  Store.readProgram copyRef copyHeap = Some copyStruct
  ∧ Store.readParameters (Prog.Args copyStruct) copyHeap = Some copyArgs
  ∧ Forall (λ y, Param.Name y ≠ "mode") copyArgs
  ∧ (∀ value, Store.SetArgValue copyRef "mode" value copyHeap
              = Some (Some (Errorf "could not find arg mode"), copyHeap))
  ∧ (∀ raw, Store.SetArgRaw copyRef "mode" raw copyHeap
            = Some (Some (Errorf "could not find arg mode"), copyHeap)).
Proof.
  assert (Hnames : Forall (λ y, Param.Name y ≠ "mode") copyArgs).
  { repeat constructor; discriminate. }
  split; [vm_compute; reflexivity|]. split; [vm_compute; reflexivity|].
  split; [exact Hnames|].
  apply (proj2 (setters_missing copyRef copyHeap copyStruct "mode" eq_refl) copyArgs);
    [vm_compute; reflexivity | exact Hnames].
Defined.

Lemma setters_first_witness :
  Store.readProgram copyRef copyHeap = Some copyStruct
  ∧ copyArgs !! 1 = Some (Param.mk "dst" "" "" "string" (Store.IString "b") "" false)
  ∧ (∀ j y', j < 1 → copyArgs !! j = Some y' → Param.Name y' ≠ "dst")
  ∧ Store.readParameters (Prog.Args copyStruct) copyHeap = Some copyArgs
  ∧ ∃ ptrs lf,
      Store.readPointers (Prog.Args copyStruct) copyHeap = Some ptrs
      ∧ ptrs !! 1 = Some (Some lf)
      ∧ (∀ value, Store.SetArgValue copyRef "dst" value copyHeap
                  = Some (None,
                          <[lf:=Store.OParameter
                                  (Store.withValue value
                                     (Param.mk "dst" "" "" "string"
                                               (Store.IString "b") "" false))]>
                            copyHeap))
      ∧ (∀ raw, Store.SetArgRaw copyRef "dst" raw copyHeap
                = Some (None,
                        <[lf:=Store.OParameter
                                (Store.withRaw raw
                                   (Param.mk "dst" "" "" "string"
                                             (Store.IString "b") "" false))]>
                          copyHeap)).
Proof.
  assert (Hfirst : ∀ j y', j < 1 → copyArgs !! j = Some y' → Param.Name y' ≠ "dst").
  { intros [|j] y' Hj; [|lia]. simpl. intros [= <-]. discriminate. }
  split; [vm_compute; reflexivity|]. split; [reflexivity|]. split; [exact Hfirst|].
  split; [vm_compute; reflexivity|].
  apply (proj2 (setters_first copyRef copyHeap copyStruct "dst" copyArgs 1
                  (Param.mk "dst" "" "" "string" (Store.IString "b") "" false)
                  eq_refl eq_refl eq_refl Hfirst)).
  vm_compute; reflexivity.
Defined.

Lemma SetFlag_snapshot_witness :
  Store.snapshot sampleRef sampleHeap = Some sampleSnapshot
  ∧ parameterPointers sampleRef sampleHeap = Some [Some 5%positive]
  ∧ NoDup [Some 5%positive]
  ∧ Store.viewValue (Store.IString "z") sampleHeap = Some (VString "z")
  ∧ ∃ err h',
      Store.SetFlagValue sampleRef "tags" (Store.IString "z") sampleHeap = Some (err, h')
      ∧ err = None
      ∧ Store.snapshot sampleRef h'
        = Some (flagsTo [Param.mk "tags" "" "" "stringList" (VString "z") "" false]
                        sampleSnapshot).
Proof.
  assert (Hsnap : Store.snapshot sampleRef sampleHeap = Some sampleSnapshot).
  { vm_compute; reflexivity. }
  assert (Hptrs : parameterPointers sampleRef sampleHeap = Some [Some 5%positive]).
  { vm_compute; reflexivity. }
  assert (Hnd : NoDup [Some 5%positive]).
  { apply NoDup_singleton. }
  split; [exact Hsnap|]. split; [exact Hptrs|]. split; [exact Hnd|].
  split; [reflexivity|].
  exact (proj1 (SetFlag_snapshot sampleRef sampleHeap sampleSnapshot
                  [Some 5%positive] "tags" Hsnap Hptrs Hnd)
           (Store.IString "z") (VString "z") eq_refl).
Defined.

Lemma SetArg_snapshot_witness :
  Store.snapshot copyRef copyHeap = Some copySnapshot
  ∧ parameterPointers copyRef copyHeap
    = Some [Some 4%positive; Some 5%positive; Some 6%positive; Some 7%positive]
  ∧ NoDup [Some 4%positive; Some 5%positive; Some 6%positive; Some 7%positive]
  ∧ (∃ err h',
       Store.SetArgRaw copyRef "dst" "out" copyHeap = Some (err, h')
       ∧ err = None
       ∧ Store.snapshot copyRef h'
         = Some (argsTo [Param.mk "src" "" "" "string" (VString "a") "" false;
                         Param.mk "dst" "" "" "string" (VString "b") "out" false;
                         Param.mk "dst" "" "" "string" (VString "c") "" false]
                        copySnapshot))
  ∧ (∃ err h',
       Store.SetArgRaw copyRef "force" "yes" copyHeap = Some (err, h')
       ∧ err = Some (Errorf "could not find arg force")
       ∧ h' = copyHeap).
Proof.
  assert (Hsnap : Store.snapshot copyRef copyHeap = Some copySnapshot).
  { vm_compute; reflexivity. }
  assert (Hptrs : parameterPointers copyRef copyHeap
                  = Some [Some 4%positive; Some 5%positive; Some 6%positive;
                          Some 7%positive]).
  { vm_compute; reflexivity. }
  assert (Hnd : NoDup [Some 4%positive; Some 5%positive; Some 6%positive;
                       Some 7%positive]).
  { apply (bool_decide_unpack _). vm_compute. exact I. }
  split; [exact Hsnap|]. split; [exact Hptrs|]. split; [exact Hnd|]. split.
  - exact (proj2 (SetArg_snapshot copyRef copyHeap copySnapshot _ "dst"
                    Hsnap Hptrs Hnd) "out").
  - exact (proj2 (SetArg_snapshot copyRef copyHeap copySnapshot _ "force"
                    Hsnap Hptrs Hnd) "yes").
Defined.

Lemma Clone_then_set_witness :
  Store.snapshot sampleRef sampleHeap = Some sampleSnapshot
  ∧ Store.Clone sampleRef sampleHeap = Some sampleClone
  ∧ Store.SetFlagValue sampleClone.1 "tags" (Store.IString "z") sampleClone.2
    = Some sampleCloneSet
  ∧ sampleCloneSet.1 = None
  ∧ Store.snapshot sampleClone.1 sampleCloneSet.2
    = Some (flagsTo [Param.mk "tags" "" "" "stringList" (VString "z") "" false]
                    sampleSnapshot)
  ∧ Store.snapshot sampleRef sampleCloneSet.2 = Some sampleSnapshot.
Proof.
  split; [vm_compute; reflexivity|]. split; [vm_compute; reflexivity|].
  split; [vm_compute; reflexivity|]. split; [vm_compute; reflexivity|].
  split; [vm_compute; reflexivity|].
  apply (Clone_then_set sampleRef sampleClone.1 sampleHeap sampleClone.2
           sampleCloneSet.2 sampleSnapshot "tags" sampleCloneSet.1).
  - vm_compute; reflexivity.
  - vm_compute; reflexivity.
  - left. exists (Store.IString "z"). vm_compute; reflexivity.
Defined.

Lemma Parameter_Clone_copy_witness :
  Store.readParameter (Some 5%positive) sampleHeap
  = Some (Param.mk "tags" "" "" "stringList" (Store.IStrings (Some 7%positive)) "" false)
  ∧ ∃ c h',
      Store.Parameter_Clone (Some 5%positive) sampleHeap = Some (Some c, h')
      ∧ sampleHeap !! c = None
      ∧ h' = <[c:=Store.OParameter
                    (Param.mk "tags" "" "" "stringList"
                              (Store.IStrings (Some 7%positive)) "" false)]> sampleHeap
      ∧ Some c ≠ Some 5%positive
      ∧ Store.readParameter (Some c) h'
        = Some (Param.mk "tags" "" "" "stringList"
                         (Store.IStrings (Some 7%positive)) "" false)
      ∧ sampleHeap ⊆ h'
      ∧ ∀ o, Store.readParameter (Some 5%positive) (<[c:=o]> h')
             = Some (Param.mk "tags" "" "" "stringList"
                              (Store.IStrings (Some 7%positive)) "" false).
Proof.
  split; [vm_compute; reflexivity|].
  apply (Parameter_Clone_copy (Some 5%positive) sampleHeap).
  vm_compute; reflexivity.
Defined.

(** *** The render command at a sample world *)

Example Base_examples :
  Base "/foo/bar/baz.js" = "baz.js" ∧ Base "/foo/bar/baz/" = "baz"
  ∧ Base "dev.txt" = "dev.txt" ∧ Base "../todo.txt" = "todo.txt"
  ∧ Base ".." = ".." ∧ Base "." = "." ∧ Base "/" = "/" ∧ Base "//" = "/"
  ∧ Base "" = ".".
Proof. vm_compute. repeat split. Qed.

Example runFiles_stops_at_missing_file :
  Render.runFiles sampleStatPath sampleOpen sampleRender sampleRender
    sampleSettings ["a/x.tmpl.md"; "missing.md"; "docs"] []
  = (["out/x.tmpl.md"],
     [Render.AStat "a/x.tmpl.md"; Render.AOpen "a/x.tmpl.md";
      Render.ARenderFile "a/x.tmpl.md" "out/x.tmpl.md"; Render.AStat "missing.md"],
     Some (Foreign "no such file or directory")).
Proof. vm_compute. reflexivity. Qed.

Lemma runFiles_output_paths_witness :
  Render.runFiles sampleStatPath sampleOpen sampleRender sampleRender
    sampleSettings ["a/x.tmpl.md"; "docs"; "b/x.tmpl.md"] []
  = (["out/x.tmpl.md"; "out/"; "out/x.tmpl.md"], sampleTrace, None)
  ∧ (∀ file outputFile, Render.ARenderFile file outputFile ∈ sampleTrace →
       file ∈ ["a/x.tmpl.md"; "docs"; "b/x.tmpl.md"]
       ∧ outputFile = (if decide (Render.OutputFile sampleSettings = "")
                       then Join [Render.OutputDirectory sampleSettings; Base file]
                       else Render.OutputFile sampleSettings))
  ∧ (∀ directory outputDirectory,
       Render.ARenderDirectory directory outputDirectory ∈ sampleTrace →
       directory ∈ ["a/x.tmpl.md"; "docs"; "b/x.tmpl.md"]
       ∧ Render.OutputDirectory sampleSettings ≠ ""
       ∧ HasSuffix outputDirectory "/" = true
       ∧ outputDirectory = (if HasSuffix (Render.OutputDirectory sampleSettings) "/"
                            then Render.OutputDirectory sampleSettings
                            else Render.OutputDirectory sampleSettings +:+ "/"))
  ∧ (∀ dir name outputFile,
       Render.OutputFile sampleSettings = "" → name ≠ "" → noSlash name →
       Render.ARenderFile (dir +:+ "/" +:+ name) outputFile ∈ sampleTrace →
       outputFile = Join [Render.OutputDirectory sampleSettings; name]).
Proof.
  split; [vm_compute; reflexivity|].
  apply (runFiles_output_paths sampleStatPath sampleOpen sampleRender sampleRender
           sampleSettings ["a/x.tmpl.md"; "docs"; "b/x.tmpl.md"] []
           ["out/x.tmpl.md"; "out/"; "out/x.tmpl.md"] sampleTrace None).
  vm_compute; reflexivity.
Defined.

